(** * nipy: intensity-based registration (histogram_registration.py)

    A shallow embedding of [nipy/neurospin/registration/histogram_registration.py]
    and the properties of its clamping, sub-sampling, construction,
    evaluation, optimisation and grid-exploration code.

    Conventions of the embedding
    - a Python [float] (and a numpy [float64]) is a rational number that has
      been rounded to 53 significant bits, round-to-nearest-even
      ([Float64.round]); the exponent range is taken unbounded and there is
      neither NaN nor infinity;
    - a numpy array is its shape and its elements in row-major order; its
      elements are integers (any of numpy's integer types) or float64;
    - a boolean mask indexes an array of its own shape; numpy also takes a
      mask of fewer axes, along the leading axes of the array, which is left
      out: such a mask raises here, and the theorems on masks ask for a mask
      of the shape of the volume;
    - the volumes are arrays of three axes; an array of no axis, whose
      negation numpy turns into a scalar that cannot be assigned to, is left
      out, and the theorems on what [clamp] returns ask for three axes;
    - a Python exception is a value of [exn], code that can raise returns a
      [result]. *)

From stdpp Require Import gmap strings list.
From Stdlib Require Import ZArith QArith Qround Qpower Qminmax Lia Lqa.

(** ** Python floats *)

Module Float64.
Local Open Scope Q_scope.

(** [ilog2 q] is the binary exponent of a positive rational:
    [2 ^ ilog2 q <= q < 2 ^ (ilog2 q + 1)]. *)
Definition ilog2 (q : Q) : Z :=
  let k := (Z.log2 (Qnum q) - Z.log2 (Zpos (Qden q)))%Z in
  if Qle_bool (2 ^ k) q then k else (k - 1)%Z.

(** Round to the nearest integer, ties to the even one (C's [rint] in the
    default rounding mode, which is also [numpy.round]). *)
Definition round_half_even (q : Q) : Z :=
  let f := Qfloor q in
  match Qcompare (q - inject_Z f) (1 # 2) with
  | Lt => f
  | Gt => (f + 1)%Z
  | Eq => if Z.even f then f else (f + 1)%Z
  end.

(** A positive rational rounded to 53 significant bits. *)
Definition round_pos (q : Q) : Q :=
  let e := (ilog2 q - 52)%Z in
  inject_Z (round_half_even (q / 2 ^ e)) * 2 ^ e.

(** The float64 nearest to [q]. *)
Definition round (q : Q) : Q :=
  Qred match Qcompare q 0 with
       | Eq => 0
       | Gt => round_pos q
       | Lt => - round_pos (- q)
       end.

(** float(z) for an integer [z]. *)
Definition of_int (z : Z) : Q := round (inject_Z z).

Definition sub (a b : Q) : Q := round (a - b).
Definition mul (a b : Q) : Q := round (a * b).

(** numpy's rint on a float: the result is an integer-valued float. *)
Definition rint (q : Q) : Q := inject_Z (round_half_even q).

(** int(q): truncation towards zero. *)
Definition trunc (q : Q) : Z :=
  if Qle_bool 0 q then Qfloor q else Qceiling q.

End Float64.

(** ** Python exceptions *)

Inductive exn : Set :=
  | ValueError
  | ZeroDivisionError
  | IndexError
  | KeyError.

Inductive result (A : Type) : Type :=
  | Ok (a : A)
  | Raise (e : exn).
Arguments Ok {A} a.
Arguments Raise {A} e.

#[global] Instance result_ret : MRet result := @Ok.
#[global] Instance result_bind : MBind result :=
  fun A B f r => match r with Ok a => f a | Raise e => Raise e end.

(** ** numpy arrays *)

(** An array is its shape and its elements in row-major (C) order. *)
Record ndarray (A : Type) : Type := NDArray {
  shape : list nat;
  flat : list A
}.
Arguments NDArray {A} shape flat.
Arguments shape {A} n.
Arguments flat {A} n.

Definition size (s : list nat) : nat := foldr Nat.mul 1%nat s.

Definition well_formed {A} (a : ndarray A) : Prop :=
  length (flat a) = size (shape a).

(** [value * np.ones(shape)] *)
Definition full {A} (s : list nat) (v : A) : ndarray A :=
  NDArray s (replicate (size s) v).

(** *** Assignment with broadcasting

    [dst[:] = src]: a source of higher rank loses leading axes of length one,
    a source of lower rank gets axes of length one in front, and then every
    source axis has the length of the destination's or length one. *)
Fixpoint strip_ones (n : nat) (s : list nat) : option (list nat) :=
  match n, s with
  | O, _ => Some s
  | S n', 1%nat :: s' => strip_ones n' s'
  | S _, _ => None
  end.

Definition align (s t : list nat) : option (list nat) :=
  if (length t <? length s)%nat then strip_ones (length s - length t) s
  else Some (replicate (length t - length s) 1%nat ++ s).

Fixpoint compatible (s t : list nat) : bool :=
  match s, t with
  | [], [] => true
  | si :: s', ti :: t' => ((si =? ti)%nat || (si =? 1)%nat) && compatible s' t'
  | _, _ => false
  end.

(** [chunks n c l]: the first [n] consecutive blocks of [c] elements of [l]. *)
Fixpoint chunks {A} (n c : nat) (l : list A) : list (list A) :=
  match n with
  | O => []
  | S n' => take c l :: chunks n' c (drop c l)
  end.

(** The elements of a source of shape [s] laid out in the shape [t]. *)
Fixpoint stretch {A} (s t : list nat) (src : list A) : list A :=
  match s, t with
  | si :: s', ti :: t' =>
      if (si =? ti)%nat
      then concat (map (stretch s' t') (chunks si (size s') src))
      else concat (replicate ti (stretch s' t' src))
  | _, _ => src
  end.

Definition assign_all {A} (dst : ndarray A) (src : ndarray A)
  : result (ndarray A) :=
  match align (shape src) (shape dst) with
  | Some s =>
      if compatible s (shape dst)
      then Ok (NDArray (shape dst) (stretch s (shape dst) (flat src)))
      else Raise ValueError
  | None => Raise ValueError
  end.

(** *** Boolean masks *)

(** The elements of [l] under the [True] entries of [m], in order. *)
Fixpoint select {A} (m : list bool) (l : list A) : list A :=
  match m, l with
  | true :: m', v :: l' => v :: select m' l'
  | false :: m', _ :: l' => select m' l'
  | _, _ => []
  end.

(** [l] with the entries under the [True] entries of [m] replaced, in order,
    by the elements of [vs]. *)
Fixpoint scatter {A} (m : list bool) (l vs : list A) : list A :=
  match m, l with
  | true :: m', v :: l' =>
      match vs with
      | w :: vs' => w :: scatter m' l' vs'
      | [] => v :: l'
      end
  | false :: m', v :: l' => v :: scatter m' l' vs
  | _, _ => l
  end.

Definition count_true (m : list bool) : nat := length (filter (fun b => b = true) m).

(** [a[mask]] for a boolean mask of the shape of [a]: a one-dimensional array.
    A mask of another shape raises here; numpy takes one of fewer axes along
    the leading axes of [a], which this does not model. *)
Definition getitem_mask {A} (a : ndarray A) (mask : ndarray bool)
  : result (ndarray A) :=
  if decide (shape mask = shape a)
  then Ok (NDArray [count_true (flat mask)] (select (flat mask) (flat a)))
  else Raise IndexError.

(** [a[mask] = v] for a one-dimensional [v]. *)
Definition setitem_mask {A} (a : ndarray A) (mask : ndarray bool) (v : ndarray A)
  : result (ndarray A) :=
  if decide (shape mask = shape a)
  then
    match assign_all (NDArray [count_true (flat mask)] (select (flat mask) (flat a))) v with
    | Ok v' => Ok (NDArray (shape a) (scatter (flat mask) (flat a) (flat v')))
    | Raise e => Raise e
    end
  else Raise IndexError.

(** *** Element types

    The arrays handed to [clamp] hold integers (any of numpy's integer types)
    or floats. *)
Inductive array : Type :=
  | IntArray (a : ndarray Z)
  | FloatArray (a : ndarray Q).

(** [issubclass(x.dtype.type, np.integer)] *)
Definition is_integer (x : array) : bool :=
  match x with IntArray _ => true | FloatArray _ => false end.

Definition array_shape (x : array) : list nat :=
  match x with IntArray a => shape a | FloatArray a => shape a end.

(** The elements as float64, which is what [x - xmin] computes with when
    [xmin] is a Python float. *)
Definition to_float (x : array) : list Q :=
  match x with
  | IntArray a => map Float64.of_int (flat a)
  | FloatArray a => flat a
  end.

(** [float(x.min())] and [float(x.max())]; the reduction of an empty array
    raises. *)
Definition amin (x : array) : result Q :=
  match x with
  | IntArray a =>
      match flat a with
      | [] => Raise ValueError
      | v :: l => Ok (Float64.of_int (foldr Z.min v l))
      end
  | FloatArray a =>
      match flat a with
      | [] => Raise ValueError
      | v :: l => Ok (foldr Qmin v l)
      end
  end.

Definition amax (x : array) : result Q :=
  match x with
  | IntArray a =>
      match flat a with
      | [] => Raise ValueError
      | v :: l => Ok (Float64.of_int (foldr Z.max v l))
      end
  | FloatArray a =>
      match flat a with
      | [] => Raise ValueError
      | v :: l => Ok (foldr Qmax v l)
      end
  end.

(** Storing a float into an array of C shorts: the fraction is dropped and
    the integer kept modulo [2^16]. *)
Definition wrap_short (z : Z) : Z := (z + 2 ^ 15) mod 2 ^ 16 - 2 ^ 15.

Definition cast_short (q : Q) : Z := wrap_short (Float64.trunc q).

(** ** Clamping *)

Module Clamp.

Definition _BINS : Z := 256.

(** [y.dtype.itemsize] of the C short that [_CLAMP_DTYPE] names. *)
Definition itemsize : Z := 2.

(** [np.iinfo(np.short).max] *)
Definition short_max : Z := 32767.

(** [dmax / d] in Python: the integer is converted to a float, and a zero
    divisor raises. *)
Definition py_div (n : Z) (d : Q) : result Q :=
  if Qeq_bool d 0 then Raise ZeroDivisionError
  else Ok (Float64.round (Float64.of_int n / d)).

(** [x[mask]] keeps the element type. *)
Definition array_getitem_mask (x : array) (mask : ndarray bool) : result array :=
  match x with
  | IntArray a => a' ← getitem_mask a mask; Ok (IntArray a')
  | FloatArray a => a' ← getitem_mask a mask; Ok (FloatArray a')
  end.

Definition _clamp (x : array) (y : ndarray Z) (bins : Z)
  : result (ndarray Z * Z) :=
  let dmaxmax := (2 ^ (8 * itemsize - 1) - 1)%Z in
  let dmax := (bins - 1)%Z in
  if (dmaxmax <? dmax)%Z then Raise ValueError else
  xmin ← amin x;
  xmax ← amax x;
  let d := Float64.sub xmax xmin in
  if is_integer x && Qle_bool d (inject_Z dmax) then
    y' ← assign_all y
           (NDArray (array_shape x)
              (map (fun v => cast_short (Float64.sub v xmin)) (to_float x)));
    Ok (y', (Float64.trunc d + 1)%Z)
  else
    a ← py_div dmax d;
    y' ← assign_all y
           (NDArray (array_shape x)
              (map (fun v => cast_short
                               (Float64.rint (Float64.mul a (Float64.sub v xmin))))
                   (to_float x)));
    Ok (y', bins).

Definition clamp (x : array) (bins : Z) (mask : option (ndarray bool))
  : result (ndarray Z * Z) :=
  if (short_max <? bins)%Z then Raise ValueError else
  let y := full (array_shape x) (-1)%Z in
  match mask with
  | None => _clamp x y bins
  | Some m =>
      xm ← array_getitem_mask x m;
      ym ← getitem_mask y m;
      '(ym', bins') ← _clamp x ym bins;
      y' ← setitem_mask y m ym';
      Ok (y', bins')
  end.

(** *** Voxels by position *)

Definition array_well_formed (x : array) : Prop :=
  match x with
  | IntArray a => well_formed a
  | FloatArray a => well_formed a
  end.

(** The voxel at position [i] is at most the voxel at position [j], positions
    counted in row-major order. *)
Definition voxel_le (x : array) (i j : nat) : Prop :=
  match x with
  | IntArray a =>
      exists vi vj, flat a !! i = Some vi /\ flat a !! j = Some vj /\ (vi <= vj)%Z
  | FloatArray a =>
      exists vi vj, flat a !! i = Some vi /\ flat a !! j = Some vj /\ (vi <= vj)%Q
  end.

(** Two voxels of the array differ once they are floats. *)
Definition varies (x : array) : Prop :=
  exists v w, v ∈ to_float x /\ w ∈ to_float x /\ ~ (v == w)%Q.

End Clamp.


(** ** Sub-sampling *)

Module Subsampling.

(** numpy's [uint] on a 64-bit platform. *)
Definition uint_modulus : Z := 2 ^ 64.

(** The indices that the slice [::s] selects on an axis of length [n]:
    [0, s, 2s, ...] below [n]; there are [ceil (n / s)] of them. *)
Definition extent (n s : nat) : nat := ((n + s - 1) / s)%nat.

Definition strided (n s : nat) : list nat :=
  map (fun q => (q * s)%nat) (seq 0 (extent n s)).

(** The elements of [data[::s0, ::s1, ::s2]]; a step of zero raises, and so
    does indexing an array that is not three-dimensional. *)
Definition view (data : ndarray Z) (spacing : Z * Z * Z) : result (list Z) :=
  let '(s0, s1, s2) := spacing in
  match shape data with
  | [n0; n1; n2] =>
      if (s0 =? 0)%Z || (s1 =? 0)%Z || (s2 =? 0)%Z then Raise ValueError
      else
        Ok (i ← strided n0 (Z.to_nat s0);
            j ← strided n1 (Z.to_nat s1);
            k ← strided n2 (Z.to_nat s2);
            [nth ((i * n1 + j) * n2 + k) (flat data) 0%Z])
  | _ => Raise IndexError
  end.

(** [(a >= 0).sum()] *)
Definition count_nonneg (l : list Z) : Z :=
  Z.of_nat (length (filter (fun v => (0 <= v)%Z) l)).

(** [dims / spacing]: a signed and an unsigned 64-bit integer divide as
    float64. *)
Definition np_div (n s : Z) : Q :=
  Float64.round (Float64.of_int n / Float64.of_int s).

(** A single dimension is broadcast over the three strides; dimensions of any
    other number than one and three cannot be. *)
Definition ddims (dims : list nat) (spacing : Z * Z * Z) : result (Q * Q * Q) :=
  let '(s0, s1, s2) := spacing in
  match dims with
  | [n0; n1; n2] =>
      Ok (np_div (Z.of_nat n0) s0, np_div (Z.of_nat n1) s1, np_div (Z.of_nat n2) s2)
  | [n] =>
      Ok (np_div (Z.of_nat n) s0, np_div (Z.of_nat n) s1, np_div (Z.of_nat n) s2)
  | _ => Raise ValueError
  end.

(** The direction with the highest number of samples. *)
Definition choose_dir (dd : Q * Q * Q) : nat :=
  let '(d0, d1, d2) := dd in
  if Qle_bool d1 d0 && Qle_bool d2 d0 then 0%nat
  else if negb (Qle_bool d1 d0) && Qle_bool d2 d1 then 1%nat
  else 2%nat.

(** The direction as the specification words it: the axis whose current
    strided extent is largest, the lowest such axis if there are several. *)
Definition largest_extent_dir (dims : nat * nat * nat) (spacing : Z * Z * Z) : nat :=
  let '(n0, n1, n2) := dims in
  let '(s0, s1, s2) := spacing in
  let e0 := extent n0 (Z.to_nat s0) in
  let e1 := extent n1 (Z.to_nat s1) in
  let e2 := extent n2 (Z.to_nat s2) in
  if (e1 <=? e0)%nat && (e2 <=? e0)%nat then 0%nat
  else if (e2 <=? e1)%nat then 1%nat
  else 2%nat.

(** [spacing[dir] += 1] on unsigned 64-bit integers. *)
Definition succ_uint (s : Z) : Z := ((s + 1) mod uint_modulus)%Z.

Definition increment (dir : nat) (spacing : Z * Z * Z) : Z * Z * Z :=
  let '(s0, s1, s2) := spacing in
  match dir with
  | 0%nat => (succ_uint s0, s1, s2)
  | 1%nat => (s0, succ_uint s1, s2)
  | _ => (s0, s1, succ_uint s2)
  end.

(** One pass through the body of the loop: the new spacing and the number of
    non-negative voxels that it leaves. *)
Definition body (data : ndarray Z) (spacing : Z * Z * Z)
  : result ((Z * Z * Z) * Z) :=
  dd ← ddims (shape data) spacing;
  let spacing' := increment (choose_dir dd) spacing in
  subdata ← view data spacing';
  Ok (spacing', count_nonneg subdata).

(** The [while] loop, for at most [fuel] passes; [None] when the loop is still
    running after them. *)
Fixpoint tune (fuel : nat) (data : ndarray Z) (npoints : Z)
  (spacing : Z * Z * Z) (actual_npoints : Z) : option (result (Z * Z * Z)) :=
  if (npoints <? actual_npoints)%Z then
    match fuel with
    | O => None
    | S fuel' =>
        match body data spacing with
        | Ok (spacing', actual') => tune fuel' data npoints spacing' actual'
        | Raise e => Some (Raise e)
        end
    end
  else Some (Ok spacing).

Definition ideal_spacing (fuel : nat) (data : ndarray Z) (npoints : Z)
  : option (result (Z * Z * Z)) :=
  tune fuel data npoints (1, 1, 1)%Z (count_nonneg (flat data)).

(** In the loop over a volume of [n0 x n1 x n2] voxels every stride is at
    least one and at most the length of its axis. *)
Definition in_range (n0 n1 n2 : nat) (spacing : Z * Z * Z) : Prop :=
  let '(s0, s1, s2) := spacing in
  (1 <= s0 <= Z.max (Z.of_nat n0) 1)%Z /\ (1 <= s1 <= Z.max (Z.of_nat n1) 1)%Z /\
  (1 <= s2 <= Z.max (Z.of_nat n2) 1)%Z.

(** The number of passes that are left at most. *)
Definition slack (n0 n1 n2 : nat) (spacing : Z * Z * Z) : Z :=
  let '(s0, s1, s2) := spacing in
  (Z.max (Z.of_nat n0) 1 - s0 + (Z.max (Z.of_nat n1) 1 - s1) +
   (Z.max (Z.of_nat n2) 1 - s2))%Z.

(** *** Slices *)

(** [slice(start, stop, step)] with bounds that are not negative. *)
Record slice : Set := Slice {
  slice_start : nat;
  slice_stop : nat;
  slice_step : Z
}.

(** The indices that a slice selects on an axis of length [n]: both bounds are
    cut at [n], and the steps start at the lower one. A negative step selects
    nothing when the bounds come in this order ([extent] is zero for the
    stride zero that [Z.to_nat] makes of it). *)
Definition slice_indices (n : nat) (sl : slice) : list nat :=
  let lo := Nat.min (slice_start sl) n in
  let hi := Nat.min (slice_stop sl) n in
  map (fun q => (lo + q * Z.to_nat (slice_step sl))%nat)
      (seq 0 (extent (hi - lo) (Z.to_nat (slice_step sl)))).

(** The elements [F i j k] of a three-dimensional array in row-major order,
    for the indices of each axis. *)
Definition enumerate {B} (F : nat -> nat -> nat -> B) (r0 r1 r2 : list nat) : list B :=
  i ← r0; j ← r1; k ← r2; [F i j k].

(** [data[a0, a1, a2]] for three slices and the elements of a
    three-dimensional array; a step of zero raises. *)
Definition getitem_slices (n0 n1 n2 : nat) (l : list Z) (sl : slice * slice * slice)
  : result (ndarray Z) :=
  let '(a0, a1, a2) := sl in
  if (slice_step a0 =? 0)%Z || (slice_step a1 =? 0)%Z || (slice_step a2 =? 0)%Z
  then Raise ValueError
  else
    let r0 := slice_indices n0 a0 in
    let r1 := slice_indices n1 a1 in
    let r2 := slice_indices n2 a2 in
    Ok (NDArray [length r0; length r1; length r2]
          (enumerate (fun i j k => nth ((i * n1 + j) * n2 + k) l 0%Z) r0 r1 r2)).

(** [a[i, j, k]] *)
Definition getitem3 {A} (a : ndarray A) (i j k : nat) : option A :=
  match shape a with
  | [n0; n1; n2] =>
      if (i <? n0)%nat && (j <? n1)%nat && (k <? n2)%nat
      then flat a !! ((i * n1 + j) * n2 + k)%nat
      else None
  | _ => None
  end.

(** [np.indices(shape).transpose((1, 2, 3, 0))], one row for each voxel in
    row-major order; the transposition asks for a shape of three axes. *)
Definition indices (s : list nat) : result (list (Q * Q * Q)) :=
  match s with
  | [d0; d1; d2] =>
      Ok (enumerate
            (fun i j k => (inject_Z (Z.of_nat i), inject_Z (Z.of_nat j), inject_Z (Z.of_nat k)))
            (seq 0 d0) (seq 0 d1) (seq 0 d2))
  | _ => Raise ValueError
  end.

(** One spacing is at most another on every axis. *)
Definition spacing_le (a b : Z * Z * Z) : Prop :=
  let '(a0, a1, a2) := a in
  let '(b0, b1, b2) := b in
  (a0 <= b0)%Z /\ (a1 <= b1)%Z /\ (a2 <= b2)%Z.

End Subsampling.


(** ** The registration object *)

Module Registration.

(** *** Interpolation methods *)

(** The dictionary [interp_methods], as its items. *)
Definition interp_methods : list (string * Z) :=
  [("pv", 0%Z); ("tri", 1%Z); ("rand", (-1)%Z)].

Definition keys {K V} (d : list (K * V)) : list K := map fst d.
Definition values {K V} (d : list (K * V)) : list V := map snd d.

(** [d[key]] *)
Fixpoint getitem (d : list (string * Z)) (key : string) : result Z :=
  match d with
  | [] => Raise KeyError
  | (k, v) :: d' => if String.eqb k key then Ok v else getitem d' key
  end.

(** [l.index(v)] *)
Fixpoint index (l : list Z) (v : Z) : result nat :=
  match l with
  | [] => Raise ValueError
  | w :: l' => if (w =? v)%Z then Ok 0%nat else i ← index l' v; Ok (S i)
  end.

(** [l[i]] for a position [i] that [index] returned. *)
Definition item {A} (l : list A) (i : nat) : result A :=
  match l !! i with
  | Some a => Ok a
  | None => Raise IndexError
  end.

(** *** Transforms *)

(** A transform is known by its parameter vector. *)
Record transform : Type := Transform { param : list Q }.

Section Session.

(** What the registration object works with and this file does not define:
    affine maps and their action on coordinates, the action of a transform,
    the interpolation weights, the similarity measure and numpy's random
    generator. *)
Context {affine : Type} {rng : Type}.
Definition coords : Type := list (Q * Q * Q).
Variable affine_apply : affine -> coords -> coords.
Variable transform_apply : list Q -> coords -> coords.
Variable weights : list Z -> ndarray Z -> coords -> Z -> list (nat * nat * Q).
Variable similarity_measure : list (list Q) -> Q.
Variable randint : Z -> rng -> Z * rng.

(** Modelled from the spec: [ChainTransform] (chain_transform.py is not among
    the sources). Section 4.3: a free transform wrapped with two fixed
    conversions, [apply(v) = post(T(pre(v)))], with get and set of the free
    transform's parameter vector. *)
Record ChainTransform : Type := Chain {
  free : transform;
  pre : affine;
  post : affine
}.

(** Modelled from the spec: [ChainTransform.apply], section 4.3:
    [apply(v) = post(T(pre(v)))]. *)
Definition chain_apply (Tv : ChainTransform) (v : coords) : coords :=
  affine_apply (post Tv) (transform_apply (param (free Tv)) (affine_apply (pre Tv) v)).

(** Modelled from the spec: the [param] property of [ChainTransform], section
    4.3: get and set of the free transform's parameter vector. *)
Definition chain_param (Tv : ChainTransform) : list Q := param (free Tv).

Definition chain_set_param (Tv : ChainTransform) (p : list Q) : ChainTransform :=
  Chain (Transform p) (pre Tv) (post Tv).

Record session : Type := Session {
  _from_data : ndarray Z;
  _from_affine : affine;
  _vox_coords : coords;
  _to_data : ndarray Z;
  _to_inv_affine : affine;
  _joint_hist : list (list Q);
  _interp : Z;
  _Tv : option ChainTransform
}.

Definition set_joint_hist (s : session) (H : list (list Q)) : session :=
  Session (_from_data s) (_from_affine s) (_vox_coords s) (_to_data s)
    (_to_inv_affine s) H (_interp s) (_Tv s).

Definition set_interp_code (s : session) (c : Z) : session :=
  Session (_from_data s) (_from_affine s) (_vox_coords s) (_to_data s)
    (_to_inv_affine s) (_joint_hist s) c (_Tv s).

Definition set_Tv (s : session) (Tv : ChainTransform) : session :=
  Session (_from_data s) (_from_affine s) (_vox_coords s) (_to_data s)
    (_to_inv_affine s) (_joint_hist s) (_interp s) (Some Tv).

(** The [interp] property. *)
Definition _get_interp (s : session) : result string :=
  i ← index (values interp_methods) (_interp s);
  item (keys interp_methods) i.

Definition _set_interp (s : session) (method : string) : result session :=
  c ← getitem interp_methods method;
  Ok (set_interp_code s c).

(** The histogram with every bin reset to zero. *)
Definition zeros_like (H : list (list Q)) : list (list Q) :=
  map (map (fun _ => 0%Q)) H.

(** [H[i, j] += w] *)
Definition add_at (H : list (list Q)) (c : nat * nat * Q) : list (list Q) :=
  let '(i, j, w) := c in
  alter (alter (fun h => Float64.round (h + w)) j) i H.

(** Modelled from the spec: [_joint_histogram] (the C extension
    [_registration] is not among the sources). Section 3: the joint histogram
    is a reused buffer, reset to zero at the start of every evaluation;
    section 4.4: every source voxel then adds its interpolation weights to
    the bins [[from_bin, to_bin]]. The weights themselves are left to
    [weights]. *)
Definition _joint_histogram (H : list (list Q)) (from_data : list Z)
  (to_data : ndarray Z) (trans_voxel_coords : coords) (interp : Z)
  : list (list Q) :=
  foldl add_at (zeros_like H) (weights from_data to_data trans_voxel_coords interp).

(** What an evaluation leaves as it was: the images, the coordinates, the
    interpolation mode and the dimensions of the histogram. *)
Definition same_setup (s s' : session) : Prop :=
  _from_data s = _from_data s' /\ _from_affine s = _from_affine s' /\
  _vox_coords s = _vox_coords s' /\ _to_data s = _to_data s' /\
  _to_inv_affine s = _to_inv_affine s' /\ _interp s = _interp s' /\
  zeros_like (_joint_hist s) = zeros_like (_joint_hist s').

(** [sys.maxint] *)
Definition maxint : Z := 2 ^ 63 - 1.

(** Modelled from the spec: [CorrelationRatio] (similarity_measures.py is not
    among the sources). Sections 3 and 4.5: a similarity metric is a pure
    function of the joint histogram. [new_similarity] was built on the array
    [_joint_hist] itself, which [_joint_histogram] fills in place: it reads
    the histogram of the last evaluation. *)
Definition new_similarity (s : session) : Q :=
  similarity_measure (_joint_hist s).

Definition _eval (st : session * rng) (Tv : ChainTransform)
  : Q * (session * rng) :=
  let '(s, g) := st in
  let trans_voxel_coords := chain_apply Tv (_vox_coords s) in
  let s := set_Tv s Tv in
  let '(interp, g) :=
    if (_interp s <? 0)%Z
    then let '(r, g') := randint maxint g in ((- r)%Z, g')
    else (_interp s, g) in
  let H := _joint_histogram (_joint_hist s) (flat (_from_data s)) (_to_data s)
             trans_voxel_coords interp in
  let s := set_joint_hist s H in
  (new_similarity s, (s, g)).

Definition eval (st : session * rng) (T : transform) : Q * (session * rng) :=
  _eval st (Chain T (_from_affine (fst st)) (_to_inv_affine (fst st))).

(** *** Grid exploration *)

(** [deltas[i] = d] for a Python index [i]. *)
Definition setitem {A} (l : list A) (i : Z) (d : A) : result (list A) :=
  let n := Z.of_nat (length l) in
  if ((i <? - n) || (n <=? i))%Z then Raise IndexError
  else Ok (<[Z.to_nat (i mod n) := d]> l).

(** The offsets of every parameter: [[0]] unless an argument [(axis, offsets)]
    says otherwise. *)
Definition make_deltas (nparams : nat) (args : list (Z * list Q))
  : result (list (list Q)) :=
  foldl (fun acc a => deltas ← acc; setitem deltas (fst a) (snd a))
    (Ok (replicate nparams [0%Q])) args.

(** The points of [np.mgrid] in flattened order: the last axis runs fastest. *)
Fixpoint cartesian {A} (ds : list (list A)) : list (list A) :=
  match ds with
  | [] => [[]]
  | d :: ds' => x ← d; t ← cartesian ds'; [x :: t]
  end.

(** [param0 + np.array(offsets)] *)
Definition add_offsets (param0 offsets : list Q) : list Q :=
  zip_with (fun p d => Float64.round (p + d)) param0 offsets.

(** The loop over the trials: the score and the parameters of each. *)
Fixpoint explore_loop (st : session * rng) (Tv : ChainTransform)
  (param0 : list Q) (trials : list (list Q))
  : list (Q * list Q) * (session * rng) :=
  match trials with
  | [] => ([], st)
  | offsets :: trials' =>
      let p := add_offsets param0 offsets in
      let Tv := chain_set_param Tv p in
      let '(simi, st) := _eval st Tv in
      let '(rest, st) := explore_loop st Tv param0 trials' in
      ((simi, p) :: rest, st)
  end.

(** [explore(T0, *args)] returns [simis] and [params]; [params] has one row
    per parameter and one column per trial. *)
Definition explore (st : session * rng) (T0 : transform)
  (args : list (Z * list Q))
  : result ((list Q * list (list Q)) * (session * rng)) :=
  let nparams := length (param T0) in
  deltas ← make_deltas nparams args;
  let trials := cartesian deltas in
  let Tv := Chain T0 (_from_affine (fst st)) (_to_inv_affine (fst st)) in
  let param0 := chain_param Tv in
  let '(points, st) := explore_loop st Tv param0 trials in
  let simis := map fst points in
  let params := map (fun k => map (fun pt => nth k (snd pt) 0%Q) points)
                    (seq 0 nparams) in
  Ok ((simis, params), st).

(** *** Optimisation *)

(** The module global [DEBUG]. *)
Definition DEBUG : bool := true.

(** What [optimize] works with and this file does not define: Python values
    (the keyword arguments), the tolerances of [constants.py] and the
    minimisers of scipy and of [nipy.algorithms.optimize]. *)
Context {value : Type}.
Variables _XTOL _FTOL _GTOL _STEP : value.

(** [v is None] *)
Variable is_None : value -> bool.

Inductive minimizer : Set :=
  | fmin_powell
  | fmin_steepest
  | fmin_cg
  | fmin_bfgs
  | fmin_simplex.

(** The callback handed to the minimiser: the caller's, or the printing one
    that [optimize] defines when the caller gave none or gave [None]. *)
Inductive callback : Type :=
  | user_callback (f : value)
  | debug_callback.

Variable fmin :
  minimizer -> (list Q -> session * rng -> Q * (session * rng)) -> list Q ->
  option callback -> gmap string value -> session * rng ->
  list Q * (session * rng).

(** What [optimize] does that can be seen from outside. *)
Inductive event : Type :=
  | Print (what : string)
  | Minimize (f : minimizer) (x0 : list Q) (cb : option callback)
      (kwargs : gmap string value).

(** The methods by name, and the tolerances that each installs. *)
Definition minimizers : list (string * minimizer) :=
  [("steepest", fmin_steepest); ("powell", fmin_powell); ("cg", fmin_cg);
   ("bfgs", fmin_bfgs); ("simplex", fmin_simplex)].

Definition default_tolerances (f : minimizer) : gmap string value :=
  match f with
  | fmin_powell => {[ "xtol" := _XTOL ]} ∪ {[ "ftol" := _FTOL ]}
  | fmin_steepest => {[ "xtol" := _XTOL ]} ∪ {[ "ftol" := _FTOL ]} ∪ {[ "step" := _STEP ]}
  | fmin_cg => {[ "gtol" := _GTOL ]}
  | fmin_bfgs => {[ "gtol" := _GTOL ]}
  | fmin_simplex => {[ "xtol" := _XTOL ]} ∪ {[ "ftol" := _FTOL ]}
  end.

Definition is_minimize (ev : event) : Prop :=
  match ev with Minimize _ _ _ _ => True | Print _ => False end.

(** [kwargs.setdefault(key, v)] *)
Definition setdefault (key : string) (v : value) (kwargs : gmap string value)
  : gmap string value :=
  match kwargs !! key with
  | Some _ => kwargs
  | None => <[key := v]> kwargs
  end.

(** Switching to the appropriate optimizer. *)
Definition optimizer (method : string) (kwargs : gmap string value)
  : result (minimizer * gmap string value) :=
  if String.eqb method "powell" then
    Ok (fmin_powell, setdefault "ftol" _FTOL (setdefault "xtol" _XTOL kwargs))
  else if String.eqb method "steepest" then
    Ok (fmin_steepest,
        setdefault "step" _STEP
          (setdefault "ftol" _FTOL (setdefault "xtol" _XTOL kwargs)))
  else if String.eqb method "cg" then
    Ok (fmin_cg, setdefault "gtol" _GTOL kwargs)
  else if String.eqb method "bfgs" then
    Ok (fmin_bfgs, setdefault "gtol" _GTOL kwargs)
  else if String.eqb method "simplex" then
    Ok (fmin_simplex, setdefault "ftol" _FTOL (setdefault "xtol" _XTOL kwargs))
  else Raise ValueError.

(** The cost function: minus the similarity at the parameters [tc]. *)
Definition cost (Tv : ChainTransform) (tc : list Q) (st : session * rng)
  : Q * (session * rng) :=
  let '(simi, st) := _eval st (chain_set_param Tv tc) in
  ((- simi)%Q, st).

(** [optimize(T, method, **kwargs)]: what it prints and calls, and the
    transform with the parameters that the minimiser returned. *)
Definition optimize (st : session * rng) (T : transform) (method : string)
  (kwargs : gmap string value)
  : list event * result (transform * (session * rng)) :=
  let cb := kwargs !! "callback" in
  let kwargs := delete "callback" kwargs in
  let Tv := Chain T (_from_affine (fst st)) (_to_inv_affine (fst st)) in
  let tc0 := chain_param Tv in
  let callback_is_None :=
    match cb with
    | Some f => is_None f
    | None => true
    end in
  let cb :=
    if callback_is_None then
      if DEBUG then Some debug_callback else None
    else option_map user_callback cb in
  let out := if DEBUG then [Print "Initial guess..."; Print "optimizable"] else [] in
  match optimizer method kwargs with
  | Raise e => (out, Raise e)
  | Ok (f, kwargs) =>
      let out := out ++ (if DEBUG then [Print "Optimizing using"] else []) in
      let '(tc, st) := fmin f (cost Tv) tc0 cb kwargs st in
      (out ++ [Minimize f tc0 cb kwargs], Ok (free (chain_set_param Tv tc), st))
  end.

End Session.

(** *** Construction and sub-sampling *)

Section Construction.

(** What the constructor works with and this file does not define: affine
    maps with [inverse_affine] and [subgrid_affine], Python values (a custom
    similarity function, a pdf) and the table [builtin_similarities] of the
    C extension, as its items. *)
Context {affine value : Type}.
Variable inverse_affine : affine -> affine.
Variable subgrid_affine :
  affine -> Subsampling.slice * Subsampling.slice * Subsampling.slice -> affine.
Variable builtin_similarities : list (string * Z).

Definition _NPOINTS : Z := 64 ^ 3.

(** An image-like, as far as the constructor reads it: [get_data()] and
    [affine]; its [shape] is the shape of the data. *)
Record image : Type := Image {
  get_data : array;
  image_affine : affine
}.

(** What [subsample] sets: [_from_data], [_from_npoints], [_from_affine] and
    [_vox_coords]. *)
Record field_of_view : Type := FieldOfView {
  fov_data : ndarray Z;
  fov_npoints : Z;
  fov_affine : affine;
  fov_coords : coords
}.

(** [slicer()]: the three slices of the bounding box. *)
Definition slicer (corner size : nat * nat * nat) (spacing : Z * Z * Z)
  : Subsampling.slice * Subsampling.slice * Subsampling.slice :=
  let '(c0, c1, c2) := corner in
  let '(z0, z1, z2) := size in
  let '(s0, s1, s2) := spacing in
  (Subsampling.Slice c0 (z0 + c0) s0, Subsampling.Slice c1 (z1 + c1) s1,
   Subsampling.Slice c2 (z2 + c2) s2).

(** [subsample(spacing, corner, size, npoints)] on the clamped image
    [_from_img = (data, affine)], with [fuel] passes for the loop of
    [ideal_spacing]. The corner and the size are not negative. An image of
    less than three axes cannot be sliced three times; one of more than
    three axes is sliced, and then fails in [ideal_spacing] or in the
    transposition of the coordinates. *)
Definition subsample (fuel : nat) (_from_img : ndarray Z * affine)
  (spacing : option (Z * Z * Z)) (corner : nat * nat * nat)
  (size : option (nat * nat * nat)) (npoints : Z)
  : option (result field_of_view) :=
  let '(spacing, npoints) :=
    match spacing with
    | None => ((1, 1, 1)%Z, Some npoints)
    | Some spacing => (spacing, None)
    end in
  match shape (fst _from_img) with
  | [n0; n1; n2] =>
      let size := default (n0, n1, n2) size in
      let getitem := Subsampling.getitem_slices n0 n1 n2 (flat (fst _from_img)) in
      match getitem (slicer corner size spacing) with
      | Raise e => Some (Raise e)
      | Ok fov_data =>
          let tuned :=
            match npoints with
            | Some n =>
                if (n =? 0)%Z then Some (Ok (spacing, fov_data))
                else
                  match Subsampling.ideal_spacing fuel fov_data n with
                  | None => None
                  | Some r =>
                      Some (spacing ← r;
                            fov_data ← getitem (slicer corner size spacing);
                            Ok (spacing, fov_data))
                  end
            | None => Some (Ok (spacing, fov_data))
            end in
          match tuned with
          | None => None
          | Some r =>
              Some ('(spacing, fov_data) ← r;
                    _vox_coords ← Subsampling.indices (shape fov_data);
                    Ok (FieldOfView fov_data
                          (Subsampling.count_nonneg (flat fov_data))
                          (subgrid_affine (snd _from_img) (slicer corner size spacing))
                          _vox_coords))
          end
      end
  | _ :: _ :: _ :: _ :: _ => Some (Raise ValueError)
  | _ => Some (Raise IndexError)
  end.

(** The attributes of the object beside those of [session]. *)
Record HistogramRegistration : Type := Registration {
  session_of : @session affine;
  _from_img : ndarray Z * affine;
  _from_npoints : Z;
  _from_hist : list Q;
  _to_hist : list Q;
  _similarity : Z;
  _similarity_func : option value;
  _pdf : option value
}.

(** The [similarity] property: a name of the table, or something else that
    is taken for a function. *)
Definition _set_similarity (r : HistogramRegistration)
  (similarity : string + value) (pdf : option value)
  : result HistogramRegistration :=
  '(c, f) ← match similarity with
            | inl name => c ← getitem builtin_similarities name; Ok (c, None)
            | inr f => c ← getitem builtin_similarities "custom"; Ok (c, Some f)
            end;
  Ok (Registration (session_of r) (_from_img r) (_from_npoints r) (_from_hist r)
        (_to_hist r) c f pdf).

Definition _get_similarity (r : HistogramRegistration)
  : result (string + option value) :=
  let builtins := values builtin_similarities in
  if bool_decide (_similarity r ∈ builtins) then
    i ← index builtins (_similarity r);
    name ← item (keys builtin_similarities) i;
    Ok (inl name)
  else Ok (inr (_similarity_func r)).

(** [1 <= i <= n]: the index [i] of the padded axis is not on the border. *)
Definition interior (n i : nat) : bool := (1 <=? i)%nat && (i <=? n)%nat.

(** [-np.ones(np.array(shape) + 2)] with [data] assigned to
    [[1:-1, 1:-1, 1:-1]]: every axis grows by two; past the third axis the
    assignment broadcasts, which asks for axes of length one. *)
Definition pad (data : ndarray Z) : result (ndarray Z) :=
  match shape data with
  | n0 :: n1 :: n2 :: rest =>
      if forallb (Nat.eqb 1) rest then
        Ok (NDArray (map (Nat.add 2) (shape data))
              (i ← seq 0 (2 + n0); j ← seq 0 (2 + n1); k ← seq 0 (2 + n2);
               replicate (size (map (Nat.add 2) rest))
                 (if interior n0 i && interior n1 j && interior n2 k
                  then nth (((i - 1) * n1 + (j - 1)) * n2 + (k - 1)) (flat data) 0%Z
                  else (-1)%Z)))
      else Raise ValueError
  | _ => Raise IndexError
  end.

(** [np.zeros([rows, columns])] and [np.zeros(n)]; a negative dimension
    raises. *)
Definition zeros (n : Z) : result (list Q) :=
  if (n <? 0)%Z then Raise ValueError else Ok (replicate (Z.to_nat n) 0%Q).

Definition zeros2 (rows columns : Z) : result (list (list Q)) :=
  if (rows <? 0)%Z || (columns <? 0)%Z then Raise ValueError
  else Ok (replicate (Z.to_nat rows) (replicate (Z.to_nat columns) 0%Q)).

(** [HistogramRegistration(from_img, to_img, from_bins, to_bins, from_mask,
    to_mask)], with [fuel] passes for the loop of [ideal_spacing]. The
    attributes that the two setters fill in start from a placeholder. *)
Definition __init__ (fuel : nat) (from_img to_img : image) (from_bins : Z)
  (to_bins : option Z) (from_mask to_mask : option (ndarray bool))
  : option (result HistogramRegistration) :=
  let to_bins := default from_bins to_bins in
  match Clamp.clamp (get_data from_img) from_bins from_mask with
  | Raise e => Some (Raise e)
  | Ok (data, from_bins) =>
      let _from_img := (data, image_affine from_img) in
      match subsample fuel _from_img None (0, 0, 0)%nat None _NPOINTS with
      | None => None
      | Some (Raise e) => Some (Raise e)
      | Some (Ok fov) =>
          Some ('(data, to_bins) ← Clamp.clamp (get_data to_img) to_bins to_mask;
                _to_data ← pad data;
                let _to_inv_affine := inverse_affine (image_affine to_img) in
                _joint_hist ← zeros2 from_bins to_bins;
                _from_hist ← zeros from_bins;
                _to_hist ← zeros to_bins;
                s ← _set_interp
                      (Session (fov_data fov) (fov_affine fov) (fov_coords fov)
                         _to_data _to_inv_affine _joint_hist 0%Z None) "pv";
                _set_similarity
                  (Registration s _from_img (fov_npoints fov) _from_hist _to_hist
                     0%Z None None)
                  (inl "cr") None)
      end
  end.

(** [self.subsample(spacing, corner, size, npoints)] on an object that
    exists: the four attributes are replaced, the others are kept. *)
Definition set_field_of_view (r : HistogramRegistration) (fov : field_of_view)
  : HistogramRegistration :=
  let s := session_of r in
  Registration
    (Session (fov_data fov) (fov_affine fov) (fov_coords fov) (_to_data s)
       (_to_inv_affine s) (_joint_hist s) (_interp s) (_Tv s))
    (_from_img r) (fov_npoints fov) (_from_hist r) (_to_hist r)
    (_similarity r) (_similarity_func r) (_pdf r).

Definition subsample_self (fuel : nat) (r : HistogramRegistration)
  (spacing : option (Z * Z * Z)) (corner : nat * nat * nat)
  (size : option (nat * nat * nat)) (npoints : Z)
  : option (result HistogramRegistration) :=
  match subsample fuel (_from_img r) spacing corner size npoints with
  | None => None
  | Some (Raise e) => Some (Raise e)
  | Some (Ok fov) => Some (Ok (set_field_of_view r fov))
  end.

(** The object after an evaluation that left the session [s]. *)
Definition set_session (r : HistogramRegistration) (s : @session affine)
  : HistogramRegistration :=
  Registration s (_from_img r) (_from_npoints r) (_from_hist r) (_to_hist r)
    (_similarity r) (_similarity_func r) (_pdf r).

(** The object is consistent: the joint histogram has a row for every bin of
    the moving image, clamped and sub-sampled, and a column for every bin of
    the reference image; the coordinates and the count go with the
    sub-sampled data. *)
Definition consistent (r : HistogramRegistration) : Prop :=
  let s := session_of r in
  exists rows columns : nat,
    (1 <= rows)%nat /\ (1 <= columns)%nat /\
    zeros_like (_joint_hist s) = replicate rows (replicate columns 0%Q) /\
    (exists n0 n1 n2, shape (fst (_from_img r)) = [n0; n1; n2]) /\
    Forall (fun v => (-1 <= v < Z.of_nat rows)%Z) (flat (fst (_from_img r))) /\
    Forall (fun v => (-1 <= v < Z.of_nat rows)%Z) (flat (_from_data s)) /\
    Forall (fun v => (-1 <= v < Z.of_nat columns)%Z) (flat (_to_data s)) /\
    length (_vox_coords s) = length (flat (_from_data s)) /\
    _from_npoints r = Subsampling.count_nonneg (flat (_from_data s)).

End Construction.

(** The offsets that the arguments of [explore] give to the parameter [k] of
    [n]: those of the last argument that names the axis [k], from the front
    or from the back, and [init] when there is none. *)
Definition axis_offsets (n k : nat) (init : list Q) (args : list (Z * list Q))
  : list Q :=
  foldl (fun cur a => if decide (Z.to_nat (fst a mod Z.of_nat n) = k) then snd a else cur)
    init args.

(** A session to run the definitions on. *)
Definition demo_session : @session unit :=
  Session (NDArray [1; 1; 2]%nat [0; 1]%Z) tt [(0, 0, 0)%Q; (0, 0, 1)%Q]
    (NDArray [3; 3; 4]%nat (replicate 36 (-1)%Z)) tt
    [[0; 0]%Q; [0; 0]%Q] 0 None.

(** Stand-ins for what the session leaves open: coordinates are left where
    they are, every pass adds one unit of weight to the bin [0, 0], the
    similarity is the content of that bin, the random generator counts, and
    of the numbers that stand for Python values zero is [None]. *)
Definition demo_apply : unit -> coords -> coords := fun _ c => c.
Definition demo_transform_apply : list Q -> coords -> coords := fun _ c => c.
Definition demo_weights : list Z -> ndarray Z -> coords -> Z -> list (nat * nat * Q) :=
  fun _ _ _ _ => [(0%nat, 0%nat, 1%Q)].
Definition demo_similarity : list (list Q) -> Q :=
  fun H => nth 0 (nth 0 H []) 0%Q.
Definition demo_randint : Z -> Z -> Z * Z := fun m g => ((g mod m)%Z, (g + 1)%Z).
Definition demo_is_None : Q -> bool := fun v => Qeq_bool v 0.
Definition demo_fmin : minimizer ->
  (list Q -> @session unit * Z -> Q * (@session unit * Z)) -> list Q ->
  option (@callback Q) -> gmap string Q -> @session unit * Z ->
  list Q * (@session unit * Z) :=
  fun _ _ x0 _ _ st => (x0, st).

(** Stand-ins for what the constructor leaves open: affine maps that are all
    the same, and a table of similarities with the two names that the code
    mentions. *)
Definition demo_inverse : unit -> unit := fun a => a.
Definition demo_subgrid
  : unit -> Subsampling.slice * Subsampling.slice * Subsampling.slice -> unit :=
  fun a _ => a.
Definition demo_similarities : list (string * Z) :=
  [("cc", 0%Z); ("cr", 1%Z); ("custom", 2%Z)].

(** Two small volumes: integers from 10 to 33, and floats. *)
Definition demo_moving : ndarray Z :=
  NDArray [2; 3; 4]%nat (map Z.of_nat (seq 10 24)).
Definition demo_reference : ndarray Q :=
  NDArray [1; 1; 3]%nat [7 # 2; 9 # 2; 4]%Q.

(** An object around [demo_session]. *)
Definition demo_registration : @HistogramRegistration unit Q :=
  Registration demo_session (NDArray [1; 1; 2]%nat [0; 1]%Z, tt) 2 [0; 0]%Q [0; 0]%Q
    1 None None.

End Registration.


(** * Facts about the float model *)

Module Float64Facts.
Import Float64.
Local Open Scope Q_scope.

Lemma pow2_pos (e : Z) : 0 < 2 ^ e.
Proof. apply Qpower_0_lt. reflexivity. Qed.

Lemma pow2_plus (a b : Z) : 2 ^ (a + b) == 2 ^ a * 2 ^ b.
Proof. apply Qpower_plus. discriminate. Qed.

Lemma pow2_succ (e : Z) : 2 ^ (e + 1) == 2 * 2 ^ e.
Proof. rewrite pow2_plus. change (2 ^ 1) with 2. ring. Qed.

Lemma pow2_le (a b : Z) : (a <= b)%Z -> 2 ^ a <= 2 ^ b.
Proof. intros H. apply Qpower_le_compat_l; [exact H | discriminate]. Qed.

Lemma pow2_lt_inv (a b : Z) : 2 ^ a < 2 ^ b -> (a < b)%Z.
Proof. intros H. apply (Qpower_lt_compat_l_inv 2); [exact H | reflexivity]. Qed.

Lemma pow2_inject (n : Z) : (0 <= n)%Z -> 2 ^ n == inject_Z (2 ^ n).
Proof. intros H. rewrite Zpower_Qpower by exact H. reflexivity. Qed.

Lemma num_pos (q : Q) : 0 < q -> (0 < Qnum q)%Z.
Proof. destruct q as [n d]. unfold Qlt. simpl. lia. Qed.

(** The binary exponent brackets its argument. *)
Lemma ilog2_spec (q : Q) :
  0 < q -> 2 ^ ilog2 q <= q /\ q < 2 ^ (ilog2 q + 1).
Proof.
  intros Hq. pose proof (num_pos q Hq) as Hn.
  destruct q as [n d]. simpl in Hn. unfold ilog2. simpl Qnum. simpl Qden.
  set (a := Z.log2 n). set (b := Z.log2 (Z.pos d)).
  assert (Ha : (0 <= a)%Z) by apply Z.log2_nonneg.
  assert (Hb : (0 <= b)%Z) by apply Z.log2_nonneg.
  destruct (Z.log2_spec n Hn) as [Ha1 Ha2]. fold a in Ha1, Ha2.
  destruct (Z.log2_spec (Z.pos d) eq_refl) as [Hb1 Hb2]. fold b in Hb1, Hb2.
  rewrite Zle_Qle in Ha1, Hb1. rewrite Zlt_Qlt in Ha2, Hb2.
  rewrite <- !Z.add_1_r in Ha2, Hb2.
  rewrite <- pow2_inject in Ha1, Hb1, Ha2, Hb2 by lia.
  rewrite pow2_succ in Ha2, Hb2.
  assert (Hk : 2 ^ a == 2 ^ (a - b) * 2 ^ b).
  { rewrite <- pow2_plus. replace (a - b + b)%Z with a by lia. reflexivity. }
  pose proof (pow2_pos (a - b)) as Kpos. pose proof (pow2_pos b) as Bpos.
  assert (Hd : 0 < inject_Z (Z.pos d)) by reflexivity.
  assert (Hq' : (n # d) * inject_Z (Z.pos d) == inject_Z n).
  { rewrite (Qmake_Qdiv n d). field. intros E. rewrite E in Hd. discriminate. }
  set (K := 2 ^ (a - b)) in *. set (B := 2 ^ b) in *. set (A := 2 ^ a) in *.
  set (D := inject_Z (Z.pos d)) in *. set (N := inject_Z n) in *.
  set (x := n # d) in *.
  assert (Hup : x < 2 * K).
  { apply (Qmult_lt_r _ _ D Hd). rewrite Hq'.
    apply Qlt_le_trans with (2 * A); [exact Ha2|].
    rewrite Hk. nra. }
  assert (Hlo : K < 2 * x).
  { apply (Qmult_lt_r _ _ D Hd).
    apply Qlt_le_trans with (2 * A).
    - rewrite Hk. nra.
    - assert (E : 2 * x * D == 2 * N) by (rewrite <- Hq'; ring).
      rewrite E. lra. }
  destruct (Qle_bool K x) eqn:E.
  - apply Qle_bool_iff in E. split; [exact E|]. rewrite pow2_succ. exact Hup.
  - assert (Hlt : x < K).
    { apply Qnot_le_lt. intros H. apply Qle_bool_iff in H. congruence. }
    replace (a - b - 1 + 1)%Z with (a - b)%Z by lia. fold K.
    split; [|exact Hlt].
    assert (E2 : K == 2 * 2 ^ (a - b - 1)).
    { unfold K. rewrite <- pow2_succ. replace (a - b - 1 + 1)%Z with (a - b)%Z by lia.
      reflexivity. }
    lra.
Qed.

Lemma ilog2_unique (q : Q) (k : Z) :
  2 ^ k <= q -> q < 2 ^ (k + 1) -> ilog2 q = k.
Proof.
  intros H1 H2.
  assert (Hq : 0 < q) by (pose proof (pow2_pos k); lra).
  destruct (ilog2_spec q Hq) as [S1 S2].
  assert ((k < ilog2 q + 1)%Z) by (apply pow2_lt_inv; lra).
  assert ((ilog2 q < k + 1)%Z) by (apply pow2_lt_inv; lra).
  lia.
Qed.

Lemma ilog2_mono (p q : Q) : 0 < p -> p <= q -> (ilog2 p <= ilog2 q)%Z.
Proof.
  intros Hp Hpq.
  destruct (ilog2_spec p Hp) as [P1 _].
  destruct (ilog2_spec q) as [_ Q2]; [lra|].
  assert ((ilog2 p < ilog2 q + 1)%Z) by (apply pow2_lt_inv; lra).
  lia.
Qed.

Lemma ilog2_proper (p q : Q) : 0 < p -> p == q -> ilog2 p = ilog2 q.
Proof.
  intros Hp E. destruct (ilog2_spec p Hp) as [P1 P2].
  symmetry. apply ilog2_unique; rewrite <- E; assumption.
Qed.

(** Rounding to the nearest integer. *)
Lemma rhe_range (q : Q) :
  (Qfloor q <= round_half_even q <= Qfloor q + 1)%Z.
Proof.
  unfold round_half_even.
  destruct (Qcompare (q - inject_Z (Qfloor q)) (1 # 2)); [|lia..].
  destruct (Z.even (Qfloor q)); lia.
Qed.

Lemma rhe_spec (q : Q) :
  inject_Z (round_half_even q) - (1 # 2) <= q /\
  q <= inject_Z (round_half_even q) + (1 # 2).
Proof.
  pose proof (Qfloor_le q) as H1. pose proof (Qlt_floor q) as H2.
  rewrite inject_Z_plus in H2. change (inject_Z 1) with 1 in H2.
  unfold round_half_even.
  destruct (Qcompare_spec (q - inject_Z (Qfloor q)) (1 # 2)) as [E|E|E].
  - destruct (Z.even (Qfloor q)).
    + lra.
    + rewrite inject_Z_plus. change (inject_Z 1) with 1. lra.
  - lra.
  - rewrite inject_Z_plus. change (inject_Z 1) with 1. lra.
Qed.

Lemma rhe_mono (p q : Q) :
  p <= q -> (round_half_even p <= round_half_even q)%Z.
Proof.
  intros Hpq. pose proof (Qfloor_resp_le p q Hpq) as Hf.
  destruct (Z.eq_dec (Qfloor p) (Qfloor q)) as [E|NE].
  - unfold round_half_even. rewrite E.
    destruct (Qcompare_spec (p - inject_Z (Qfloor q)) (1 # 2)) as [E1|E1|E1];
      destruct (Qcompare_spec (q - inject_Z (Qfloor q)) (1 # 2)) as [E2|E2|E2];
      try (destruct (Z.even (Qfloor q))); try lia; exfalso; lra.
  - pose proof (rhe_range p). pose proof (rhe_range q). lia.
Qed.

Lemma rhe_inject_Z (z : Z) : round_half_even (inject_Z z) = z.
Proof.
  unfold round_half_even. rewrite Qfloor_Z.
  destruct (Qcompare_spec (inject_Z z - inject_Z z) (1 # 2)) as [E|E|E];
    [exfalso; lra | reflexivity | exfalso; lra].
Qed.

Lemma rhe_proper (p q : Q) : p == q -> round_half_even p = round_half_even q.
Proof.
  intros E. unfold round_half_even.
  rewrite (Qfloor_comp p q E).
  assert (E' : p - inject_Z (Qfloor q) == q - inject_Z (Qfloor q)) by (rewrite E; reflexivity).
  rewrite (Qcompare_comp _ _ E' (1 # 2) (1 # 2) (Qeq_refl _)). reflexivity.
Qed.

Lemma rhe_le (q : Q) (z : Z) :
  q < inject_Z z + (1 # 2) -> (round_half_even q <= z)%Z.
Proof.
  intros H. destruct (rhe_spec q) as [H1 _].
  assert (L : inject_Z (round_half_even q) < inject_Z (z + 1)).
  { rewrite inject_Z_plus. change (inject_Z 1) with 1. lra. }
  rewrite <- Zlt_Qlt in L. lia.
Qed.


(** Rounding a positive rational to 53 significant bits. *)
Lemma scaled_range (q : Q) :
  0 < q ->
  2 ^ 52 <= q / 2 ^ (ilog2 q - 52) /\ q / 2 ^ (ilog2 q - 52) < 2 ^ 53.
Proof.
  intros Hq. destruct (ilog2_spec q Hq) as [H1 H2].
  pose proof (pow2_pos (ilog2 q - 52)) as He.
  assert (E1 : 2 ^ ilog2 q == 2 ^ 52 * 2 ^ (ilog2 q - 52)).
  { rewrite <- pow2_plus. replace (52 + (ilog2 q - 52))%Z with (ilog2 q) by lia.
    reflexivity. }
  assert (E2 : 2 ^ (ilog2 q + 1) == 2 ^ 53 * 2 ^ (ilog2 q - 52)).
  { rewrite <- pow2_plus.
    replace (53 + (ilog2 q - 52))%Z with (ilog2 q + 1)%Z by lia. reflexivity. }
  split.
  - apply Qle_shift_div_l; [exact He|]. rewrite <- E1. exact H1.
  - apply Qlt_shift_div_r; [exact He|]. rewrite <- E2. exact H2.
Qed.

Lemma scaled_mul (q : Q) (e : Z) : q / 2 ^ e * 2 ^ e == q.
Proof. field. pose proof (pow2_pos e). lra. Qed.

Lemma round_pos_error (q : Q) :
  0 < q ->
  q * (1 - (1 # 2 ^ 53)) <= round_pos q /\ round_pos q <= q * (1 + (1 # 2 ^ 53)).
Proof.
  intros Hq. destruct (scaled_range q Hq) as [R1 R2].
  pose proof (scaled_mul q (ilog2 q - 52)) as Eq.
  pose proof (pow2_pos (ilog2 q - 52)) as He.
  unfold round_pos.
  destruct (rhe_spec (q / 2 ^ (ilog2 q - 52))) as [M1 M2].
  set (r := q / 2 ^ (ilog2 q - 52)) in *.
  set (m := inject_Z (round_half_even r)) in *.
  set (E := 2 ^ (ilog2 q - 52)) in *.
  change (2 ^ 52) with (4503599627370496 # 1) in R1.
  change (1 # 2 ^ 53) with (1 # 9007199254740992).
  rewrite <- Eq.
  split.
  - assert (A : r * E * (1 - (1 # 9007199254740992))
                == r * (1 - (1 # 9007199254740992)) * E) by ring.
    rewrite A. apply Qmult_le_compat_r; lra.
  - assert (A : r * E * (1 + (1 # 9007199254740992))
                == r * (1 + (1 # 9007199254740992)) * E) by ring.
    rewrite A. apply Qmult_le_compat_r; lra.
Qed.

Lemma round_pos_bounds (q : Q) :
  0 < q -> 2 ^ ilog2 q <= round_pos q /\ round_pos q <= 2 ^ (ilog2 q + 1).
Proof.
  intros Hq. destruct (scaled_range q Hq) as [R1 R2].
  pose proof (pow2_pos (ilog2 q - 52)) as He.
  assert (E1 : 2 ^ ilog2 q == 2 ^ 52 * 2 ^ (ilog2 q - 52)).
  { rewrite <- pow2_plus. replace (52 + (ilog2 q - 52))%Z with (ilog2 q) by lia.
    reflexivity. }
  assert (E2 : 2 ^ (ilog2 q + 1) == 2 ^ 53 * 2 ^ (ilog2 q - 52)).
  { rewrite <- pow2_plus.
    replace (53 + (ilog2 q - 52))%Z with (ilog2 q + 1)%Z by lia. reflexivity. }
  unfold round_pos. rewrite E1, E2.
  set (r := q / 2 ^ (ilog2 q - 52)) in *.
  assert (M1 : (2 ^ 52 <= round_half_even r)%Z).
  { rewrite <- (rhe_inject_Z (2 ^ 52)). apply rhe_mono. exact R1. }
  assert (M2 : (round_half_even r <= 2 ^ 53)%Z).
  { rewrite <- (rhe_inject_Z (2 ^ 53)). apply rhe_mono. apply Qlt_le_weak. exact R2. }
  rewrite Zle_Qle in M1, M2.
  split; apply Qmult_le_compat_r; try lra; assumption.
Qed.

Lemma round_pos_mono (p q : Q) :
  0 < p -> p <= q -> round_pos p <= round_pos q.
Proof.
  intros Hp Hpq. assert (Hq : 0 < q) by lra.
  pose proof (ilog2_mono p q Hp Hpq) as Hk.
  destruct (Z.eq_dec (ilog2 p) (ilog2 q)) as [E|NE].
  - unfold round_pos. rewrite E.
    pose proof (pow2_pos (ilog2 q - 52)) as He.
    apply Qmult_le_compat_r; [|lra].
    rewrite <- Zle_Qle. apply rhe_mono.
    apply Qmult_le_compat_r; [exact Hpq|].
    apply Qlt_le_weak, Qinv_lt_0_compat, He.
  - destruct (round_pos_bounds p Hp) as [_ B1].
    destruct (round_pos_bounds q Hq) as [B2 _].
    assert (2 ^ (ilog2 p + 1) <= 2 ^ ilog2 q) by (apply pow2_le; lia).
    lra.
Qed.

Lemma round_pos_exact (q : Q) (z : Z) :
  0 < q -> q / 2 ^ (ilog2 q - 52) == inject_Z z -> round_pos q == q.
Proof.
  intros Hq E. unfold round_pos.
  rewrite (rhe_proper _ _ E), rhe_inject_Z, <- E. apply scaled_mul.
Qed.

Lemma round_pos_proper (p q : Q) :
  0 < p -> p == q -> round_pos p == round_pos q.
Proof.
  intros Hp E. unfold round_pos. rewrite (ilog2_proper p q Hp E).
  assert (E' : p / 2 ^ (ilog2 q - 52) == q / 2 ^ (ilog2 q - 52)) by (rewrite E; reflexivity).
  rewrite (rhe_proper _ _ E'). reflexivity.
Qed.

Lemma round_pos_gt0 (q : Q) : 0 < q -> 0 < round_pos q.
Proof.
  intros Hq. destruct (round_pos_bounds q Hq) as [B _].
  pose proof (pow2_pos (ilog2 q)). lra.
Qed.

(** The rounding function itself. *)
Lemma round_zero (q : Q) : q == 0 -> round q = 0.
Proof.
  intros E. unfold round. apply Qeq_alt in E. rewrite E. reflexivity.
Qed.

Lemma round_pos_case (q : Q) : 0 < q -> round q == round_pos q.
Proof.
  intros H. unfold round. rewrite Qred_correct.
  destruct (Qcompare_spec q 0); [exfalso; lra | exfalso; lra | reflexivity].
Qed.

Lemma round_neg_case (q : Q) : q < 0 -> round q == - round_pos (- q).
Proof.
  intros H. unfold round. rewrite Qred_correct.
  destruct (Qcompare_spec q 0); [exfalso; lra | reflexivity | exfalso; lra].
Qed.

Lemma round_proper (p q : Q) : p == q -> round p = round q.
Proof.
  intros E. unfold round. apply Qred_complete.
  rewrite (Qcompare_comp p q E 0 0 (Qeq_refl 0)).
  destruct (Qcompare_spec q 0) as [H|H|H].
  - reflexivity.
  - apply Qopp_comp. apply round_pos_proper; [lra | rewrite E; reflexivity].
  - apply round_pos_proper; [lra | exact E].
Qed.

Lemma round_canonical (p q : Q) : round p == q -> round p = Qred q.
Proof.
  intros E. unfold round in *. rewrite Qred_correct in E.
  apply Qred_complete. exact E.
Qed.

Lemma Qred_inject_Z (z : Z) : Qred (inject_Z z) = inject_Z z.
Proof.
  unfold inject_Z, Qred.
  pose proof (Z.ggcd_gcd z 1) as G. pose proof (Z.ggcd_correct_divisors z 1) as D.
  destruct (Z.ggcd z 1) as [g [a b]]. simpl in *.
  rewrite Z.gcd_1_r in G. subst g. destruct D as [Da Db].
  assert (Eb : b = 1%Z) by lia. assert (Ea : a = z) by lia.
  subst a b. reflexivity.
Qed.

Lemma round_nonneg (q : Q) : 0 <= q -> 0 <= round q.
Proof.
  intros H. destruct (Qcompare_spec q 0) as [E|E|E].
  - rewrite (round_zero q E). lra.
  - exfalso; lra.
  - rewrite (round_pos_case q E). apply Qlt_le_weak, round_pos_gt0, E.
Qed.

Lemma round_nonpos (q : Q) : q <= 0 -> round q <= 0.
Proof.
  intros H. destruct (Qcompare_spec q 0) as [E|E|E].
  - rewrite (round_zero q E). lra.
  - rewrite (round_neg_case q E).
    assert (0 < round_pos (- q)) by (apply round_pos_gt0; lra). lra.
  - exfalso; lra.
Qed.

(** Rounding is monotone. *)
Lemma round_mono (p q : Q) : p <= q -> round p <= round q.
Proof.
  intros Hpq.
  destruct (Qlt_le_dec 0 p) as [Hp|Hp].
  - rewrite (round_pos_case p Hp), (round_pos_case q) by lra.
    apply round_pos_mono; assumption.
  - destruct (Qlt_le_dec q 0) as [Hq|Hq].
    + rewrite (round_neg_case p), (round_neg_case q Hq) by lra.
      assert (round_pos (- q) <= round_pos (- p)) by (apply round_pos_mono; lra).
      lra.
    + apply Qle_trans with 0; [apply round_nonpos, Hp | apply round_nonneg, Hq].
Qed.

(** Rounding has relative error at most [2^-53]. *)
Lemma round_error (q : Q) :
  0 <= q ->
  q * (1 - (1 # 2 ^ 53)) <= round q /\ round q <= q * (1 + (1 # 2 ^ 53)).
Proof.
  intros H. destruct (Qcompare_spec q 0) as [E|E|E].
  - rewrite (round_zero q E), E. split; lra.
  - exfalso; lra.
  - rewrite (round_pos_case q E). apply round_pos_error, E.
Qed.

(** Integers of magnitude at most [2^53] are floats. *)
Lemma round_pos_int (z : Z) :
  (0 < z < 2 ^ 53)%Z -> round_pos (inject_Z z) == inject_Z z.
Proof.
  intros Hz.
  assert (Hq : 0 < inject_Z z) by (unfold Qlt; simpl; lia).
  destruct (Z.log2_spec z) as [L1 L2]; [lia|].
  assert (Hl : (0 <= Z.log2 z)%Z) by apply Z.log2_nonneg.
  assert (Hk : ilog2 (inject_Z z) = Z.log2 z).
  { apply ilog2_unique.
    - rewrite pow2_inject by lia. rewrite <- Zle_Qle. exact L1.
    - rewrite pow2_inject by lia. rewrite <- Zlt_Qlt.
      rewrite <- Z.add_1_r in L2. exact L2. }
  assert (Hl53 : (Z.log2 z < 53)%Z).
  { apply Z.log2_lt_pow2; lia. }
  apply (round_pos_exact _ (z * 2 ^ (52 - Z.log2 z))); [exact Hq|].
  rewrite Hk, inject_Z_mult, <- pow2_inject by lia.
  replace (Z.log2 z - 52)%Z with (- (52 - Z.log2 z))%Z by lia.
  rewrite Qpower_opp. field.
  pose proof (pow2_pos (52 - Z.log2 z)). lra.
Qed.

Lemma round_int (z : Z) :
  (Z.abs z <= 2 ^ 53)%Z -> round (inject_Z z) = inject_Z z.
Proof.
  intros Hz. rewrite <- (Qred_inject_Z z) at 2. apply round_canonical.
  destruct (Z.eq_dec z (2 ^ 53)) as [->|N1]; [reflexivity|].
  destruct (Z.eq_dec z (- 2 ^ 53)) as [->|N2]; [reflexivity|].
  destruct (Z.lt_trichotomy z 0) as [H|[->|H]].
  - assert (Hq : inject_Z z < 0) by (unfold Qlt; simpl; lia).
    rewrite (round_neg_case _ Hq).
    rewrite <- inject_Z_opp, (round_pos_int (- z)) by lia.
    rewrite inject_Z_opp. ring.
  - reflexivity.
  - assert (Hq : 0 < inject_Z z) by (unfold Qlt; simpl; lia).
    rewrite (round_pos_case _ Hq).
    apply round_pos_int. lia.
Qed.

(** The model on numbers whose float64 is known. *)
Example round_tenth : round (1 # 10) = 3602879701896397 # 36028797018963968.
Proof. vm_compute. reflexivity. Qed.

Example round_tie_to_even :
  of_int (2 ^ 53 + 1) = inject_Z (2 ^ 53) /\ of_int (2 ^ 53 + 3) = inject_Z (2 ^ 53 + 4).
Proof. split; vm_compute; reflexivity. Qed.

Example round_large : of_int (10 ^ 23) = inject_Z 99999999999999991611392.
Proof. vm_compute. reflexivity. Qed.

(** Further bounds, for the extreme values of a compression. *)
Lemma rhe_ge (q : Q) (z : Z) :
  inject_Z z - (1 # 2) < q -> (z <= round_half_even q)%Z.
Proof.
  intros H. destruct (rhe_spec q) as [_ H2].
  assert (L : inject_Z (z - 1) < inject_Z (round_half_even q)).
  { unfold Z.sub. rewrite inject_Z_plus. change (inject_Z (- (1))) with (- (1)). lra. }
  rewrite <- Zlt_Qlt in L. lia.
Qed.

Lemma round_gt0 (q : Q) : 0 < q -> 0 < round q.
Proof.
  intros H. destruct (round_error q) as [L _]; [lra|].
  assert (0 < q * (1 - (1 # 2 ^ 53))).
  { apply Qmult_lt_0_compat; [exact H | reflexivity]. }
  lra.
Qed.

Lemma round_eq0 (q : Q) : round q == 0 -> q == 0.
Proof.
  intros E. destruct (Qlt_le_dec 0 q) as [H|H].
  - pose proof (round_gt0 q H). lra.
  - destruct (Qlt_le_dec q 0) as [H'|H']; [|lra].
    assert (Hn : 0 < - q) by lra.
    pose proof (round_pos_gt0 _ Hn) as P.
    rewrite (round_neg_case _ H') in E. lra.
Qed.

End Float64Facts.

(** * Facts about arrays *)

Module ArrayFacts.

Section Broadcast.
Context {A : Type}.
Implicit Types (l src : list A) (s t : list nat).

Lemma Forall_chunks (P : A -> Prop) (n c : nat) l :
  Forall P l -> Forall (Forall P) (chunks n c l).
Proof.
  revert l. induction n as [|n IH]; intros l H; simpl; constructor.
  - apply Forall_take, H.
  - apply IH, Forall_drop, H.
Qed.

(** Broadcasting repeats elements of the source and invents none. *)
Lemma Forall_stretch (P : A -> Prop) s t src :
  Forall P src -> Forall P (stretch s t src).
Proof.
  revert t src. induction s as [|si s IH]; intros t src H; [exact H|].
  destruct t as [|ti t]; [exact H|]. simpl.
  destruct (si =? ti)%nat.
  - apply Forall_concat. apply Forall_map.
    eapply Forall_impl; [apply Forall_chunks, H|].
    intros c Hc. apply IH, Hc.
  - apply Forall_concat. apply Forall_replicate. apply IH, H.
Qed.

Lemma concat_chunks (n c : nat) l :
  length l = (n * c)%nat -> concat (chunks n c l) = l.
Proof.
  revert l. induction n as [|n IH]; intros l H; simpl.
  - destruct l; [reflexivity | discriminate].
  - rewrite IH; [apply take_drop|]. rewrite length_drop. simpl in H. lia.
Qed.

Lemma length_chunks (n c : nat) l :
  length l = (n * c)%nat -> Forall (fun b => length b = c) (chunks n c l).
Proof.
  revert l. induction n as [|n IH]; intros l H; simpl; constructor.
  - rewrite length_take. simpl in H. lia.
  - apply IH. rewrite length_drop. simpl in H. lia.
Qed.

(** A source of the destination's shape is copied as it is. *)
Lemma stretch_same s src : length src = size s -> stretch s s src = src.
Proof.
  revert src. induction s as [|si s IH]; intros src H; [reflexivity|].
  simpl. rewrite Nat.eqb_refl. simpl in H.
  rewrite <- (concat_chunks si (size s) src H) at 2. f_equal.
  pose proof (length_chunks si (size s) src H) as L.
  induction L as [|b bs Hb _ IHb]; simpl; [reflexivity|].
  rewrite IH by exact Hb. f_equal. exact IHb.
Qed.

Lemma compatible_refl s : compatible s s = true.
Proof. induction s as [|si s IH]; simpl; [reflexivity|]. rewrite Nat.eqb_refl. exact IH. Qed.

Lemma align_same s : align s s = Some s.
Proof. unfold align. rewrite Nat.ltb_irrefl, Nat.sub_diag. reflexivity. Qed.

Lemma assign_all_same (dst src : ndarray A) :
  shape dst = shape src -> well_formed src -> assign_all dst src = Ok src.
Proof.
  intros Hs Hw. unfold assign_all. rewrite Hs, align_same, compatible_refl.
  rewrite stretch_same by exact Hw. destruct src; reflexivity.
Qed.

Lemma Forall_assign_all (P : A -> Prop) (dst src y : ndarray A) :
  Forall P (flat src) -> assign_all dst src = Ok y -> Forall P (flat y).
Proof.
  intros H. unfold assign_all.
  destruct (align (shape src) (shape dst)) as [s|]; [|discriminate].
  destruct (compatible s (shape dst)); [|discriminate].
  intros [= <-]. simpl. apply Forall_stretch, H.
Qed.

Lemma Forall_scatter (P : A -> Prop) (m : list bool) l vs :
  Forall P l -> Forall P vs -> Forall P (scatter m l vs).
Proof.
  revert l vs. induction m as [|b m IH]; intros l vs Hl Hv; [destruct l; exact Hl|].
  destruct l as [|v l]; [destruct b; exact Hl|].
  apply Forall_cons in Hl as [Hv0 Hl].
  destruct b; simpl.
  - destruct vs as [|w vs]; [constructor; assumption|].
    apply Forall_cons in Hv as [Hw Hv]. constructor; [exact Hw|]. apply IH; assumption.
  - constructor; [exact Hv0|]. apply IH; assumption.
Qed.

Lemma Forall_setitem_mask (P : A -> Prop) (a v y : ndarray A) (mask : ndarray bool) :
  Forall P (flat a) -> Forall P (flat v) -> setitem_mask a mask v = Ok y ->
  Forall P (flat y).
Proof.
  intros Ha Hv. unfold setitem_mask.
  destruct (decide (shape mask = shape a)); [|discriminate].
  destruct (assign_all _ v) as [v'|] eqn:E; [|discriminate].
  intros [= <-]. simpl. apply Forall_scatter; [exact Ha|].
  eapply Forall_assign_all; eassumption.
Qed.

(** A source with two elements or more does not fit a one-dimensional
    destination that is shorter. *)
Lemma strip_ones_size (n : nat) s s' :
  strip_ones n s = Some s' -> size s' = size s /\ (length s = n + length s')%nat.
Proof.
  revert s. induction n as [|n IH]; intros s H; simpl in H.
  - injection H as <-. split; reflexivity.
  - destruct s as [|[|[|k]] s]; try discriminate.
    apply IH in H as [H1 H2]. simpl. split; lia.
Qed.

Lemma assign_all_short (k : nat) (dst src : ndarray A) :
  shape dst = [k] -> (k < size (shape src))%nat -> (2 <= size (shape src))%nat ->
  assign_all dst src = Raise ValueError.
Proof.
  intros Hd Hk Hn. unfold assign_all. rewrite Hd.
  destruct (align (shape src) [k]) as [s|] eqn:E; [|reflexivity].
  assert (Hs : compatible s [k] = false); [|rewrite Hs; reflexivity].
  unfold align in E. simpl length in E.
  destruct (1 <? length (shape src))%nat eqn:L.
  - apply strip_ones_size in E as [E1 E2].
    apply Nat.ltb_lt in L.
    destruct s as [|c [|c' s]]; [reflexivity| |simpl in E2; lia].
    simpl in E1. simpl.
    destruct (c =? k)%nat eqn:C1; [apply Nat.eqb_eq in C1; lia|].
    destruct (c =? 1)%nat eqn:C2; [apply Nat.eqb_eq in C2; lia|]. reflexivity.
  - apply Nat.ltb_ge in L. injection E as <-.
    destruct (shape src) as [|c [|c' s]]; simpl in *; [lia| |lia].
    destruct (c =? k)%nat eqn:C1; [apply Nat.eqb_eq in C1; lia|].
    destruct (c =? 1)%nat eqn:C2; [apply Nat.eqb_eq in C2; lia|]. reflexivity.
Qed.

End Broadcast.

End ArrayFacts.

(** * Clamping *)

Module ClampFacts.
Import Float64 Float64Facts ArrayFacts Clamp.
Local Open Scope Q_scope.

(** ** Minimum and maximum *)

Lemma foldr_Zmin_le (v : Z) (l : list Z) :
  Forall (fun w => (foldr Z.min v l <= w)%Z) (v :: l).
Proof.
  induction l as [|x l IH]; simpl.
  - constructor; [lia | constructor].
  - apply Forall_cons in IH as [Hv Hl]. constructor; [lia|].
    constructor; [lia|]. eapply Forall_impl; [exact Hl|]. simpl. intros; lia.
Qed.

Lemma foldr_Zmax_ge (v : Z) (l : list Z) :
  Forall (fun w => (w <= foldr Z.max v l)%Z) (v :: l).
Proof.
  induction l as [|x l IH]; simpl.
  - constructor; [lia | constructor].
  - apply Forall_cons in IH as [Hv Hl]. constructor; [lia|].
    constructor; [lia|]. eapply Forall_impl; [exact Hl|]. simpl. intros; lia.
Qed.

Lemma foldr_Qmin_le (v : Q) (l : list Q) :
  Forall (fun w => foldr Qmin v l <= w) (v :: l).
Proof.
  induction l as [|x l IH]; simpl.
  - constructor; [lra | constructor].
  - apply Forall_cons in IH as [Hv Hl].
    pose proof (Q.le_min_l x (foldr Qmin v l)).
    pose proof (Q.le_min_r x (foldr Qmin v l)).
    constructor; [lra|]. constructor; [lra|].
    eapply Forall_impl; [exact Hl|]. simpl. intros; lra.
Qed.

Lemma foldr_Qmax_ge (v : Q) (l : list Q) :
  Forall (fun w => w <= foldr Qmax v l) (v :: l).
Proof.
  induction l as [|x l IH]; simpl.
  - constructor; [lra | constructor].
  - apply Forall_cons in IH as [Hv Hl].
    pose proof (Q.le_max_l x (foldr Qmax v l)).
    pose proof (Q.le_max_r x (foldr Qmax v l)).
    constructor; [lra|]. constructor; [lra|].
    eapply Forall_impl; [exact Hl|]. simpl. intros; lra.
Qed.

Lemma of_int_mono (a b : Z) : (a <= b)%Z -> of_int a <= of_int b.
Proof. intros H. apply round_mono. rewrite <- Zle_Qle. exact H. Qed.

(** Every element, as a float, lies between the two bounds that [_clamp]
    computes. *)
Lemma amin_le (x : array) (xmin : Q) :
  amin x = Ok xmin -> Forall (fun v => xmin <= v) (to_float x).
Proof.
  destruct x as [[s l]|[s l]]; simpl; destruct l as [|v l]; try discriminate;
    intros [= <-].
  - apply Forall_map. eapply Forall_impl; [apply foldr_Zmin_le|].
    intros w Hw. apply of_int_mono, Hw.
  - apply foldr_Qmin_le.
Qed.

Lemma amax_ge (x : array) (xmax : Q) :
  amax x = Ok xmax -> Forall (fun v => v <= xmax) (to_float x).
Proof.
  destruct x as [[s l]|[s l]]; simpl; destruct l as [|v l]; try discriminate;
    intros [= <-].
  - apply Forall_map. eapply Forall_impl; [apply foldr_Zmax_ge|].
    intros w Hw. apply of_int_mono, Hw.
  - apply foldr_Qmax_ge.
Qed.

Lemma amin_amax (x : array) (xmin xmax : Q) :
  amin x = Ok xmin -> amax x = Ok xmax -> xmin <= xmax.
Proof.
  intros H1 H2. pose proof (amin_le x xmin H1) as L. pose proof (amax_ge x xmax H2) as U.
  destruct (to_float x) as [|v l] eqn:E.
  - destruct x as [[s [|? ?]]|[s [|? ?]]]; simpl in *; discriminate.
  - apply Forall_cons in L as [L _]. apply Forall_cons in U as [U _]. lra.
Qed.

(** ** Conversions *)

Lemma trunc_inject_Z (z : Z) : trunc (inject_Z z) = z.
Proof. unfold trunc. destruct (Qle_bool 0 (inject_Z z)); [apply Qfloor_Z | apply Qceiling_Z]. Qed.

Lemma trunc_nonneg (q : Q) : 0 <= q -> (0 <= trunc q)%Z.
Proof.
  intros H. unfold trunc. rewrite (proj2 (Qle_bool_iff 0 q) H).
  change 0%Z with (Qfloor 0). apply Qfloor_resp_le, H.
Qed.

Lemma trunc_mono (p q : Q) : 0 <= p -> p <= q -> (trunc p <= trunc q)%Z.
Proof.
  intros H0 H. unfold trunc.
  rewrite (proj2 (Qle_bool_iff 0 p) H0), (proj2 (Qle_bool_iff 0 q)) by lra.
  apply Qfloor_resp_le, H.
Qed.

Lemma trunc_le (q : Q) (z : Z) : 0 <= q -> q <= inject_Z z -> (trunc q <= z)%Z.
Proof.
  intros H0 H. rewrite <- (trunc_inject_Z z). apply trunc_mono; assumption.
Qed.

Lemma wrap_short_small (z : Z) : (- 32768 <= z <= 32767)%Z -> wrap_short z = z.
Proof.
  intros H. unfold wrap_short.
  change (2 ^ 15)%Z with 32768%Z. change (2 ^ 16)%Z with 65536%Z.
  rewrite Z.mod_small; lia.
Qed.

(** ** The two branches *)

(** The values of the shift: between zero and the dynamic. *)
Lemma shift_bound (xmin d v : Q) (dmax : Z) :
  (dmax <= 32767)%Z -> xmin <= v -> sub v xmin <= d -> d <= inject_Z dmax ->
  (0 <= cast_short (sub v xmin) <= trunc d)%Z.
Proof.
  intros Hd Hv Hs Hdm.
  assert (H0 : 0 <= sub v xmin) by (apply round_nonneg; lra).
  pose proof (trunc_nonneg _ H0) as T0.
  pose proof (trunc_mono _ _ H0 Hs) as T1.
  assert (T2 : (trunc d <= dmax)%Z) by (apply trunc_le; lra).
  unfold cast_short. rewrite wrap_short_small; lia.
Qed.

(** The values of the compression: between zero and [bins - 1]. *)
Lemma compress_bound (dmax : Z) (d t a : Q) :
  (0 <= dmax <= 32767)%Z -> 0 < d -> 0 <= t -> t <= d ->
  py_div dmax d = Ok a ->
  (0 <= cast_short (rint (mul a t)) <= dmax)%Z.
Proof.
  intros Hdm Hd Ht0 Ht. unfold py_div.
  destruct (Qeq_bool d 0); [discriminate|]. intros [= <-].
  unfold of_int. rewrite round_int by lia.
  set (D := inject_Z dmax).
  assert (HD0 : 0 <= D) by (unfold D, Qle; simpl; lia).
  assert (HD1 : D <= 32767) by (unfold D, Qle; simpl; lia).
  assert (Hq : 0 <= D / d).
  { apply Qle_shift_div_l; [exact Hd | lra]. }
  destruct (round_error (D / d) Hq) as [_ A1].
  pose proof (round_nonneg (D / d) Hq) as A0.
  set (a := round (D / d)) in *.
  assert (Hqd : D / d * d == D) by (field; lra).
  assert (Hat0 : 0 <= a * t) by (apply Qmult_le_0_compat; assumption).
  assert (Hat : a * t <= D * (1 + (1 # 2 ^ 53))).
  { apply Qle_trans with (a * d).
    - apply Qmult_le_compat_nonneg; split; lra.
    - rewrite <- Hqd at 1.
      assert (E : D / d * d * (1 + (1 # 2 ^ 53)) == D / d * (1 + (1 # 2 ^ 53)) * d) by ring.
      rewrite E. apply Qmult_le_compat_r; lra. }
  destruct (round_error (a * t) Hat0) as [_ P1].
  pose proof (round_nonneg (a * t) Hat0) as P0.
  unfold mul, rint, cast_short. rewrite trunc_inject_Z.
  set (p := round (a * t)) in *.
  assert (L : (0 <= round_half_even p)%Z).
  { rewrite <- (rhe_inject_Z 0). apply rhe_mono. exact P0. }
  assert (U : (round_half_even p <= dmax)%Z).
  { apply rhe_le. fold D.
    change (1 # 2 ^ 53) with (1 # 9007199254740992) in *.
    assert (p <= D * (1 + (1 # 9007199254740992)) * (1 + (1 # 9007199254740992))).
    { apply Qle_trans with (a * t * (1 + (1 # 9007199254740992))); [exact P1|].
      apply Qmult_le_compat_r; lra. }
    lra. }
  rewrite wrap_short_small; lia.
Qed.

(** What [_clamp] returns when it is asked for one bin at least: a number of
    bins between one and the number asked for, and bin indices below it. *)
Lemma _clamp_range (x : array) (y y' : ndarray Z) (bins bins' : Z) :
  (1 <= bins)%Z -> _clamp x y bins = Ok (y', bins') ->
  (1 <= bins' <= bins)%Z /\ Forall (fun v => (0 <= v <= bins' - 1)%Z) (flat y').
Proof.
  intros Hb. unfold _clamp.
  change (2 ^ (8 * itemsize - 1) - 1)%Z with 32767%Z.
  destruct (32767 <? bins - 1)%Z eqn:Hmax; [discriminate|].
  apply Z.ltb_ge in Hmax.
  destruct (amin x) as [xmin|] eqn:Emin; [|discriminate].
  destruct (amax x) as [xmax|] eqn:Emax; [|discriminate].
  cbn [mbind result_bind].
  pose proof (amin_amax x xmin xmax Emin Emax) as Hmm.
  assert (LU : Forall (fun v => xmin <= v /\ v <= xmax) (to_float x)).
  { apply Forall_and. split; [apply amin_le | apply amax_ge]; assumption. }
  set (d := sub xmax xmin).
  assert (Hd0 : 0 <= d) by (apply round_nonneg; lra).
  assert (Hsub : forall v, xmin <= v /\ v <= xmax -> 0 <= sub v xmin /\ sub v xmin <= d).
  { intros v [H1 H2]. split; [apply round_nonneg; lra | apply round_mono; lra]. }
  destruct (is_integer x && Qle_bool d (inject_Z (bins - 1))) eqn:B.
  - apply andb_true_iff in B as [_ B]. apply Qle_bool_iff in B.
    destruct (assign_all y _) as [y1|] eqn:A; [|discriminate].
    cbn [mbind result_bind]. intros [= <- <-].
    pose proof (trunc_nonneg d Hd0) as T0.
    pose proof (trunc_le d (bins - 1) Hd0 B) as T1.
    split; [lia|].
    eapply Forall_assign_all; [|exact A]. cbn [flat].
    apply Forall_map. eapply Forall_impl; [exact LU|].
    intros v Hv. destruct (Hsub v Hv) as [S0 S1].
    replace (trunc d + 1 - 1)%Z with (trunc d) by lia.
    apply (shift_bound xmin d v (bins - 1)); [lia | apply Hv | exact S1 | exact B].
  - destruct (py_div (bins - 1) d) as [a|] eqn:Ea; [|discriminate].
    assert (Hd : 0 < d).
    { unfold py_div in Ea. destruct (Qeq_bool d 0) eqn:E0; [discriminate|].
      apply Qeq_bool_neq in E0. apply Qle_lteq in Hd0 as [H|H]; [exact H|].
      exfalso. apply E0. symmetry. exact H. }
    cbn [mbind result_bind].
    destruct (assign_all y _) as [y1|] eqn:A; [|discriminate].
    cbn [mbind result_bind]. intros [= <- <-].
    split; [lia|].
    eapply Forall_assign_all; [|exact A]. cbn [flat].
    apply Forall_map. eapply Forall_impl; [exact LU|].
    intros v Hv. destruct (Hsub v Hv) as [S0 S1].
    apply (compress_bound (bins - 1) d (sub v xmin) a); try assumption. lia.
Qed.

Lemma Forall_full {A} (P : A -> Prop) (s : list nat) (v : A) :
  P v -> Forall P (flat (full s v)).
Proof. intros H. apply Forall_replicate, H. Qed.

(** C1 (as amended). Whenever [clamp] returns for a request of one bin at
    least, whatever the array and the mask, the number of bins that it returns
    is at most the number asked for, and every value of the clamped array is
    -1 or a bin index below the returned number. *)
Theorem clamp_range (x : array) (bins : Z) (mask : option (ndarray bool))
  (y : ndarray Z) (bins' : Z) :
  (1 <= bins)%Z -> clamp x bins mask = Ok (y, bins') ->
  (bins' <= bins)%Z /\ Forall (fun v => (-1 <= v <= bins' - 1)%Z) (flat y).
Proof.
  intros Hb. unfold clamp.
  destruct (short_max <? bins)%Z; [discriminate|].
  destruct mask as [m|].
  - destruct (array_getitem_mask x m) as [xm|]; [|discriminate].
    cbn [mbind result_bind].
    destruct (getitem_mask (full (array_shape x) (-1)%Z) m) as [ym|]; [|discriminate].
    cbn [mbind result_bind].
    destruct (_clamp x ym bins) as [[ym' b]|] eqn:E; [|discriminate].
    cbn [mbind result_bind].
    destruct (setitem_mask _ m ym') as [y1|] eqn:S; [|discriminate].
    cbn [mbind result_bind]. intros [= <- <-].
    destruct (_clamp_range x ym ym' bins b Hb E) as [Hbins Hy].
    split; [lia|].
    eapply Forall_setitem_mask; [| |exact S].
    + apply Forall_full. lia.
    + eapply Forall_impl; [exact Hy|]. simpl. intros; lia.
  - intros E. destruct (_clamp_range x _ y bins bins' Hb E) as [Hbins Hy].
    split; [lia|]. eapply Forall_impl; [exact Hy|]. simpl. intros; lia.
Qed.

Lemma clamp_range_witness :
  (1 <= 256)%Z /\
  clamp (IntArray (NDArray [1; 1; 3]%nat [3; 5; 1000]%Z)) 256 None
    = Ok (NDArray [1; 1; 3]%nat [0; 1; 255]%Z, 256%Z) /\
  ((256 <= 256)%Z /\ Forall (fun v => (-1 <= v <= 256 - 1)%Z) [0; 1; 255]%Z).
Proof.
  assert (H1 : (1 <= 256)%Z) by lia.
  assert (H2 : clamp (IntArray (NDArray [1; 1; 3]%nat [3; 5; 1000]%Z)) 256 None
               = Ok (NDArray [1; 1; 3]%nat [0; 1; 255]%Z, 256%Z))
    by (vm_compute; reflexivity).
  split; [exact H1|]. split; [exact H2|].
  exact (clamp_range _ 256 None _ 256%Z H1 H2).
Defined.

(** C1, the claim as it stands, fails for a request of no bin: the array
    [[0, 1]] is accepted with [bins = 0], zero bins are returned, and the
    clamped array holds a 0, which is outside [-1 .. -1]. *)
Lemma clamp_range_zero_bins :
  clamp (IntArray (NDArray [1; 1; 2]%nat [0; 1]%Z)) 0 None
    = Ok (NDArray [1; 1; 2]%nat [0; -1]%Z, 0%Z) /\
  ~ Forall (fun v => (-1 <= v <= 0 - 1)%Z) [0; -1]%Z.
Proof.
  split; [vm_compute; reflexivity|].
  intros H. apply Forall_cons in H as [H _]. lia.
Qed.

(** ** The shift of an integer volume *)

Lemma foldr_Zmin_bounds (a b v : Z) (l : list Z) :
  Forall (fun w => (a <= w <= b)%Z) (v :: l) -> (a <= foldr Z.min v l <= b)%Z.
Proof.
  induction l as [|x l IH]; intros H; simpl.
  - apply Forall_cons in H as [H _]. exact H.
  - apply Forall_cons in H as [Hv H]. apply Forall_cons in H as [Hx H].
    assert (a <= foldr Z.min v l <= b)%Z by (apply IH; constructor; assumption).
    lia.
Qed.

Lemma foldr_Zmax_bounds (a b v : Z) (l : list Z) :
  Forall (fun w => (a <= w <= b)%Z) (v :: l) -> (a <= foldr Z.max v l <= b)%Z.
Proof.
  induction l as [|x l IH]; intros H; simpl.
  - apply Forall_cons in H as [H _]. exact H.
  - apply Forall_cons in H as [Hv H]. apply Forall_cons in H as [Hx H].
    assert (a <= foldr Z.max v l <= b)%Z by (apply IH; constructor; assumption).
    lia.
Qed.

Lemma of_int_exact (z : Z) : (- 2 ^ 53 <= z <= 2 ^ 53)%Z -> of_int z = inject_Z z.
Proof. intros H. apply round_int. lia. Qed.

Lemma sub_int (a b : Z) :
  (- 2 ^ 53 <= a - b <= 2 ^ 53)%Z -> sub (inject_Z a) (inject_Z b) = inject_Z (a - b).
Proof.
  intros H. unfold sub.
  rewrite (round_proper (inject_Z a - inject_Z b) (inject_Z (a - b))).
  - apply round_int. lia.
  - unfold Z.sub. rewrite inject_Z_plus, inject_Z_opp. reflexivity.
Qed.

(** C9 (as amended). For a three-dimensional volume of integers that float64
    represents exactly (magnitude at most [2^53]), clamped without a mask with
    a number of bins
    that [clamp] accepts and that the dynamic [d = max - min] fits in
    ([d <= bins - 1]), the clamped value of every voxel is the voxel's value
    minus the minimum, so that adding the minimum gives the value back, and
    the number of bins returned is [d + 1]. *)
Theorem clamp_shift_lossless (n0 n1 n2 : nat) (v : Z) (l : list Z) (bins : Z) :
  let s := [n0; n1; n2] in
  let lo := foldr Z.min v l in
  let hi := foldr Z.max v l in
  length (v :: l) = size s ->
  Forall (fun w => (- 2 ^ 53 <= w <= 2 ^ 53)%Z) (v :: l) ->
  (hi - lo <= bins - 1)%Z -> (bins <= 32767)%Z ->
  exists y,
    clamp (IntArray (NDArray s (v :: l))) bins None = Ok (NDArray s y, (hi - lo + 1)%Z) /\
    Forall2 (fun yi xi => (yi + lo)%Z = xi) y (v :: l).
Proof.
  intros s lo hi Hlen Hrep Hd Hbins. clearbody s.
  pose proof (foldr_Zmin_bounds _ _ v l Hrep) as Blo. fold lo in Blo.
  pose proof (foldr_Zmax_bounds _ _ v l Hrep) as Bhi. fold hi in Bhi.
  pose proof (foldr_Zmin_le v l) as Hlo. fold lo in Hlo.
  pose proof (foldr_Zmax_ge v l) as Hhi. fold hi in Hhi.
  assert (Hlohi : (lo <= hi)%Z).
  { apply Forall_cons in Hlo as [Hlo _]. apply Forall_cons in Hhi as [Hhi _]. lia. }
  exists (map (fun w => (w - lo)%Z) (v :: l)). split.
  - unfold clamp, short_max.
    destruct (32767 <? bins)%Z eqn:E; [apply Z.ltb_lt in E; lia|].
    unfold _clamp. change (2 ^ (8 * itemsize - 1) - 1)%Z with 32767%Z.
    destruct (32767 <? bins - 1)%Z eqn:E'; [apply Z.ltb_lt in E'; lia|].
    cbn [amin amax flat]. fold lo hi.
    clearbody lo hi.
    rewrite (of_int_exact lo), (of_int_exact hi) by lia.
    cbn [mbind result_bind].
    rewrite (sub_int hi lo) by lia.
    assert (B : Qle_bool (inject_Z (hi - lo)) (inject_Z (bins - 1)) = true).
    { apply Qle_bool_iff. rewrite <- Zle_Qle. exact Hd. }
    cbn [is_integer andb]. rewrite B. rewrite trunc_inject_Z.
    assert (M : map (fun q => cast_short (sub q (inject_Z lo)))
                  (to_float (IntArray (NDArray s (v :: l))))
                = map (fun w => (w - lo)%Z) (v :: l)).
    { cbn [to_float flat]. rewrite map_map. apply map_ext_Forall.
      pose proof (conj Hrep (conj Hlo Hhi)) as H3.
      rewrite <- !Forall_and in H3.
      eapply Forall_impl; [exact H3|]. intros w (W1 & W2 & W3). simpl in *.
      rewrite (of_int_exact w) by lia. rewrite (sub_int w lo) by lia.
      unfold cast_short. rewrite trunc_inject_Z. apply wrap_short_small. lia. }
    rewrite M. rewrite assign_all_same.
    + reflexivity.
    + reflexivity.
    + unfold well_formed. cbn [flat shape array_shape]. rewrite length_map. exact Hlen.
  - clearbody lo hi. clear. induction (v :: l) as [|w ws IH]; simpl; constructor.
    + lia.
    + exact IH.
Qed.

Lemma clamp_shift_lossless_witness :
  let s := [1; 1; 3]%nat in
  let v := 3%Z in
  let l := [5; 100]%Z in
  let lo := foldr Z.min v l in
  let hi := foldr Z.max v l in
  length (v :: l) = size s /\
  Forall (fun w => (- 2 ^ 53 <= w <= 2 ^ 53)%Z) (v :: l) /\
  (hi - lo <= 256 - 1)%Z /\ (256 <= 32767)%Z /\
  exists y,
    clamp (IntArray (NDArray s (v :: l))) 256 None = Ok (NDArray s y, (hi - lo + 1)%Z) /\
    Forall2 (fun yi xi => (yi + lo)%Z = xi) y (v :: l).
Proof.
  intros s v l lo hi.
  assert (H1 : length (v :: l) = size s) by reflexivity.
  assert (H2 : Forall (fun w => (- 2 ^ 53 <= w <= 2 ^ 53)%Z) (v :: l)).
  { repeat constructor; vm_compute; discriminate. }
  assert (H3 : (hi - lo <= 256 - 1)%Z) by (vm_compute; discriminate).
  assert (H4 : (256 <= 32767)%Z) by lia.
  split; [exact H1|]. split; [exact H2|]. split; [exact H3|]. split; [exact H4|].
  exact (clamp_shift_lossless 1 1 3 v l 256 H1 H2 H3 H4).
Defined.

(** C9, the claim as it stands, fails above [2^53]: the volume
    [[2^53, 2^53 + 1]] has the dynamic 1, which fits 256 bins, but both voxels
    are clamped to 0 and one bin is returned, not two. *)
Lemma clamp_shift_lossy :
  let lo := (2 ^ 53)%Z in
  let x := [lo; lo + 1]%Z in
  clamp (IntArray (NDArray [1; 1; 2]%nat x)) 256 None
    = Ok (NDArray [1; 1; 2]%nat [0; 0]%Z, 1%Z) /\
  ~ Forall2 (fun yi xi => (yi + lo)%Z = xi) [0; 0]%Z x /\
  1%Z <> ((lo + 1) - lo + 1)%Z.
Proof.
  split; [vm_compute; reflexivity|]. split.
  - intros H. inversion H as [|? ? ? ? _ H']. inversion H' as [|? ? ? ? E _].
    vm_compute in E. discriminate.
  - vm_compute. discriminate.
Qed.

(** ** Constant volumes *)

Lemma map_replicate {A B} (f : A -> B) (n : nat) (a : A) :
  map f (replicate n a) = replicate n (f a).
Proof. induction n as [|n IH]; simpl; [reflexivity|]. rewrite IH. reflexivity. Qed.

Lemma foldr_Zmin_replicate (n : nat) (c : Z) : foldr Z.min c (replicate n c) = c.
Proof. induction n as [|n IH]; simpl; [reflexivity|]. rewrite IH. apply Z.min_id. Qed.

Lemma foldr_Zmax_replicate (n : nat) (c : Z) : foldr Z.max c (replicate n c) = c.
Proof. induction n as [|n IH]; simpl; [reflexivity|]. rewrite IH. apply Z.max_id. Qed.

Lemma Qmin_same (c : Q) : Qmin c c = c.
Proof.
  unfold Qmin, GenericMinMax.gmin.
  rewrite (proj1 (Qeq_alt c c) (Qeq_refl c)). reflexivity.
Qed.

Lemma Qmax_same (c : Q) : Qmax c c = c.
Proof.
  unfold Qmax, GenericMinMax.gmax.
  rewrite (proj1 (Qeq_alt c c) (Qeq_refl c)). reflexivity.
Qed.

Lemma foldr_Qmin_replicate (n : nat) (c : Q) : foldr Qmin c (replicate n c) = c.
Proof. induction n as [|n IH]; simpl; [reflexivity|]. rewrite IH. apply Qmin_same. Qed.

Lemma foldr_Qmax_replicate (n : nat) (c : Q) : foldr Qmax c (replicate n c) = c.
Proof. induction n as [|n IH]; simpl; [reflexivity|]. rewrite IH. apply Qmax_same. Qed.

Lemma sub_same (c : Q) : sub c c = 0.
Proof. apply round_zero. ring. Qed.

(** C3 (code bug). With [bins = 256] and no mask, a constant
    three-dimensional volume of integers is clamped to one bin and zeros; a
    constant volume of floats is not: the dynamic is zero, the branch that
    compresses divides by it and Python raises [ZeroDivisionError]. *)
Theorem clamp_constant (n0 n1 n2 n : nat) :
  size [n0; n1; n2] = S n ->
  (forall c : Z,
     clamp (IntArray (NDArray [n0; n1; n2] (replicate (S n) c))) 256 None
       = Ok (NDArray [n0; n1; n2] (replicate (S n) 0%Z), 1%Z)) /\
  (forall c : Q,
     clamp (FloatArray (NDArray [n0; n1; n2] (replicate (S n) c))) 256 None
       = Raise ZeroDivisionError).
Proof.
  remember [n0; n1; n2] as s eqn:Es. clear Es.
  intros Hs. split; intros c.
  - unfold clamp, _clamp. cbn [Z.ltb Z.compare short_max].
    change (32767 <? 256)%Z with false. cbn iota.
    change (2 ^ (8 * itemsize - 1) - 1 <? 256 - 1)%Z with false. cbn iota.
    cbn [amin amax flat replicate].
    rewrite foldr_Zmin_replicate, foldr_Zmax_replicate.
    cbn [mbind result_bind]. rewrite sub_same.
    cbn [is_integer andb]. change (Qle_bool 0 (inject_Z (256 - 1))) with true.
    cbn iota. cbn [to_float flat array_shape shape].
    change (c :: replicate n c) with (replicate (S n) c).
    rewrite map_map, map_replicate, sub_same.
    change (cast_short 0) with 0%Z.
    rewrite assign_all_same.
    + reflexivity.
    + reflexivity.
    + unfold well_formed. cbn [flat shape].
      rewrite length_replicate. symmetry. exact Hs.
  - unfold clamp, _clamp.
    change (short_max <? 256)%Z with false. cbn iota.
    change (2 ^ (8 * itemsize - 1) - 1 <? 256 - 1)%Z with false. cbn iota.
    cbn [amin amax flat replicate].
    rewrite foldr_Qmin_replicate, foldr_Qmax_replicate.
    cbn [mbind result_bind]. rewrite sub_same. reflexivity.
Qed.

Lemma clamp_constant_witness :
  size [2; 2; 2]%nat = 8%nat /\
  clamp (IntArray (NDArray [2; 2; 2]%nat (replicate 8 7%Z))) 256 None
    = Ok (NDArray [2; 2; 2]%nat (replicate 8 0%Z), 1%Z) /\
  clamp (FloatArray (NDArray [2; 2; 2]%nat (replicate 8 (7 # 2)))) 256 None
    = Raise ZeroDivisionError.
Proof.
  assert (H : size [2; 2; 2]%nat = 8%nat) by reflexivity.
  split; [exact H|].
  split; [exact (proj1 (clamp_constant 2 2 2 7 H) 7%Z)
         | exact (proj2 (clamp_constant 2 2 2 7 H) (7 # 2))].
Defined.

(** ** Masks *)

Lemma _clamp_short (x : array) (ym : ndarray Z) (k : nat) (bins : Z) :
  shape ym = [k] -> (k < size (array_shape x))%nat -> (2 <= size (array_shape x))%nat ->
  exists e, _clamp x ym bins = Raise e.
Proof.
  intros Hk Hlt Hn. unfold _clamp.
  destruct (_ <? _)%Z; [eexists; reflexivity|].
  destruct (amin x) as [xmin|]; [|eexists; reflexivity].
  destruct (amax x) as [xmax|]; [|eexists; reflexivity].
  cbn [mbind result_bind].
  destruct (is_integer x && _).
  - rewrite (assign_all_short k) by assumption. eexists; reflexivity.
  - destruct (py_div _ _) as [a|]; [|eexists; reflexivity].
    cbn [mbind result_bind].
    rewrite (assign_all_short k) by assumption. eexists; reflexivity.
Qed.

(** C2 (code bug). [clamp] hands the whole array [x], not [x[mask]], to
    [_clamp]: the minimum and the maximum are those of all voxels, and the
    values computed for all voxels are assigned to the selected ones. For a
    volume of two voxels or more and a mask of the volume's shape that leaves
    a voxel out, that assignment does not fit and [clamp] raises. *)
Theorem clamp_mask_raises (x : array) (bins : Z) (mask : ndarray bool) :
  shape mask = array_shape x ->
  (2 <= size (array_shape x))%nat ->
  (count_true (flat mask) < size (array_shape x))%nat ->
  exists e, clamp x bins (Some mask) = Raise e.
Proof.
  intros Hm Hn Hk. unfold clamp.
  destruct (short_max <? bins)%Z; [eexists; reflexivity|].
  destruct (array_getitem_mask x mask) as [xm|]; [|eexists; reflexivity].
  cbn [mbind result_bind].
  unfold getitem_mask at 1. cbn [shape full].
  rewrite decide_True by exact Hm.
  cbn [mbind result_bind].
  destruct (_clamp_short x
              (NDArray [count_true (flat mask)]
                 (select (flat mask) (flat (full (array_shape x) (-1)%Z))))
              (count_true (flat mask)) bins eq_refl Hk Hn) as [e' He].
  rewrite He. eexists; reflexivity.
Qed.

Lemma clamp_mask_raises_witness :
  shape (NDArray [1; 1; 3]%nat [true; true; false])
    = array_shape (IntArray (NDArray [1; 1; 3]%nat [3; 5; 100]%Z)) /\
  (2 <= size [1; 1; 3])%nat /\
  (count_true [true; true; false] < size [1; 1; 3])%nat /\
  exists e,
    clamp (IntArray (NDArray [1; 1; 3]%nat [3; 5; 100]%Z)) 256
      (Some (NDArray [1; 1; 3]%nat [true; true; false])) = Raise e.
Proof.
  assert (H1 : (2 <= size [1; 1; 3])%nat) by (vm_compute; lia).
  assert (H2 : (count_true [true; true; false] < size [1; 1; 3])%nat)
    by (vm_compute; lia).
  split; [reflexivity|]. split; [exact H1|]. split; [exact H2|].
  exact (clamp_mask_raises (IntArray (NDArray [1; 1; 3]%nat [3; 5; 100]%Z)) 256
           (NDArray [1; 1; 3]%nat [true; true; false]) eq_refl H1 H2).
Defined.

(** The same input, evaluated: the claim asks for [[0, 2, -1]] and three
    bins. *)
Lemma clamp_mask_example :
  clamp (IntArray (NDArray [1; 1; 3]%nat [3; 5; 100]%Z)) 256
    (Some (NDArray [1; 1; 3]%nat [true; true; false])) = Raise ValueError.
Proof. vm_compute. reflexivity. Qed.

(** ** Examples *)

Example clamp_shift :
  clamp (IntArray (NDArray [1; 1; 3]%nat [3; 5; 100]%Z)) 256 None
    = Ok (NDArray [1; 1; 3]%nat [0; 2; 97]%Z, 98%Z).
Proof. vm_compute. reflexivity. Qed.

Example clamp_compress :
  clamp (FloatArray (NDArray [1; 1; 3]%nat [7 # 2; 9 # 2; 4])) 256 None
    = Ok (NDArray [1; 1; 3]%nat [0; 255; 128]%Z, 256%Z).
Proof. vm_compute. reflexivity. Qed.

Example clamp_too_many_bins :
  clamp (IntArray (NDArray [1; 1; 3]%nat [3; 5; 100]%Z)) 32768 None = Raise ValueError.
Proof. vm_compute. reflexivity. Qed.

Example clamp_full_mask :
  clamp (IntArray (NDArray [1; 1; 3]%nat [3; 5; 100]%Z)) 256
    (Some (NDArray [1; 1; 3]%nat [true; true; true]))
    = Ok (NDArray [1; 1; 3]%nat [0; 2; 97]%Z, 98%Z).
Proof. vm_compute. reflexivity. Qed.

(** ** The clamped value of each voxel *)

Lemma lookup_map {A B} (f : A -> B) (l : list A) (i : nat) :
  map f l !! i = f <$> l !! i.
Proof. revert i. induction l as [|a l IH]; intros [|i]; simpl; auto. Qed.

Lemma to_float_length (x : array) :
  array_well_formed x -> length (to_float x) = size (array_shape x).
Proof. destruct x as [a|a]; simpl; [rewrite length_map|]; auto. Qed.

Lemma foldr_Zmin_elem (v : Z) (l : list Z) : foldr Z.min v l ∈ v :: l.
Proof.
  induction l as [|w l IH]; simpl; [left|].
  destruct (Z.min_spec w (foldr Z.min v l)) as [[_ ->]|[_ ->]].
  - right. left.
  - apply elem_of_cons in IH as [->|IH]; [left | right; right; exact IH].
Qed.

Lemma foldr_Zmax_elem (v : Z) (l : list Z) : foldr Z.max v l ∈ v :: l.
Proof.
  induction l as [|w l IH]; simpl; [left|].
  destruct (Z.max_spec w (foldr Z.max v l)) as [[_ ->]|[_ ->]].
  - apply elem_of_cons in IH as [->|IH]; [left | right; right; exact IH].
  - right. left.
Qed.

Lemma Qmin_cases (a b : Q) : Qmin a b = a \/ Qmin a b = b.
Proof. unfold Qmin, GenericMinMax.gmin. destruct (Qcompare a b); auto. Qed.

Lemma Qmax_cases (a b : Q) : Qmax a b = a \/ Qmax a b = b.
Proof. unfold Qmax, GenericMinMax.gmax. destruct (Qcompare a b); auto. Qed.

Lemma foldr_Qmin_elem (v : Q) (l : list Q) : foldr Qmin v l ∈ v :: l.
Proof.
  induction l as [|w l IH]; simpl; [left|].
  destruct (Qmin_cases w (foldr Qmin v l)) as [->| ->].
  - right. left.
  - apply elem_of_cons in IH as [->|IH]; [left | right; right; exact IH].
Qed.

Lemma foldr_Qmax_elem (v : Q) (l : list Q) : foldr Qmax v l ∈ v :: l.
Proof.
  induction l as [|w l IH]; simpl; [left|].
  destruct (Qmax_cases w (foldr Qmax v l)) as [->| ->].
  - right. left.
  - apply elem_of_cons in IH as [->|IH]; [left | right; right; exact IH].
Qed.

Lemma elem_of_map {A B} (f : A -> B) (l : list A) (a : A) : a ∈ l -> f a ∈ map f l.
Proof. induction 1; simpl; [left | right; assumption]. Qed.

(** The two bounds are values of the array. *)
Lemma amin_elem (x : array) (xmin : Q) : amin x = Ok xmin -> xmin ∈ to_float x.
Proof.
  destruct x as [[s l]|[s l]]; simpl; destruct l as [|v l]; try discriminate;
    intros [= <-].
  - apply (elem_of_map of_int (v :: l)), foldr_Zmin_elem.
  - apply foldr_Qmin_elem.
Qed.

Lemma amax_elem (x : array) (xmax : Q) : amax x = Ok xmax -> xmax ∈ to_float x.
Proof.
  destruct x as [[s l]|[s l]]; simpl; destruct l as [|v l]; try discriminate;
    intros [= <-].
  - apply (elem_of_map of_int (v :: l)), foldr_Zmax_elem.
  - apply foldr_Qmax_elem.
Qed.

Lemma amin_nonempty (x : array) : to_float x <> [] -> exists xmin, amin x = Ok xmin.
Proof.
  destruct x as [[s l]|[s l]]; simpl; destruct l as [|v l]; intros H;
    try (exfalso; apply H; reflexivity); eexists; reflexivity.
Qed.

Lemma amax_nonempty (x : array) : to_float x <> [] -> exists xmax, amax x = Ok xmax.
Proof.
  destruct x as [[s l]|[s l]]; simpl; destruct l as [|v l]; intros H;
    try (exfalso; apply H; reflexivity); eexists; reflexivity.
Qed.

(** The shift stores the truncated difference as it is. *)
Lemma shift_exact (xmin d v : Q) (dmax : Z) :
  (dmax <= 32767)%Z -> xmin <= v -> sub v xmin <= d -> d <= inject_Z dmax ->
  cast_short (sub v xmin) = trunc (sub v xmin).
Proof.
  intros Hd Hv Hs Hdm.
  assert (H0 : 0 <= sub v xmin) by (apply round_nonneg; lra).
  pose proof (trunc_nonneg _ H0) as T0.
  pose proof (trunc_mono _ _ H0 Hs) as T1.
  assert (T2 : (trunc d <= dmax)%Z) by (apply trunc_le; lra).
  unfold cast_short. rewrite wrap_short_small; lia.
Qed.

(** The compression stores the rounded product as it is; the product of the
    scale and the whole dynamic rounds to [bins - 1]. *)
Lemma compress_exact (dmax : Z) (d t a : Q) :
  (0 <= dmax <= 32767)%Z -> 0 < d -> 0 <= t -> t <= d ->
  py_div dmax d = Ok a ->
  0 <= a /\
  cast_short (rint (mul a t)) = round_half_even (mul a t) /\
  round_half_even (mul a d) = dmax.
Proof.
  intros Hdm Hd Ht0 Ht. unfold py_div.
  destruct (Qeq_bool d 0); [discriminate|]. intros [= <-].
  unfold of_int. rewrite round_int by lia.
  set (D := inject_Z dmax).
  assert (HD0 : 0 <= D) by (unfold D, Qle; simpl; lia).
  assert (HD1 : D <= 32767) by (unfold D, Qle; simpl; lia).
  assert (Hq : 0 <= D / d).
  { apply Qle_shift_div_l; [exact Hd | lra]. }
  destruct (round_error (D / d) Hq) as [A2 A1].
  pose proof (round_nonneg (D / d) Hq) as A0.
  set (a := round (D / d)) in *.
  assert (Hqd : D / d * d == D) by (field; lra).
  change (1 # 2 ^ 53) with (1 # 9007199254740992) in *.
  set (u := 1 # 9007199254740992) in *.
  assert (Hu : u == 1 # 9007199254740992) by reflexivity.
  assert (Had1 : a * d <= D * (1 + u)).
  { rewrite <- Hqd at 1.
    assert (E : D / d * d * (1 + u) == D / d * (1 + u) * d) by ring.
    rewrite E. apply Qmult_le_compat_r; lra. }
  assert (Had2 : D * (1 - u) <= a * d).
  { rewrite <- Hqd at 1.
    assert (E : D / d * d * (1 - u) == D / d * (1 - u) * d) by ring.
    rewrite E. apply Qmult_le_compat_r; lra. }
  assert (Hat0 : 0 <= a * t) by (apply Qmult_le_0_compat; assumption).
  assert (Hat : a * t <= a * d).
  { apply Qmult_le_compat_nonneg; split; lra. }
  split; [exact A0|].
  assert (Bp : forall s, 0 <= s -> s <= d ->
            (0 <= round_half_even (mul a s) <= dmax)%Z).
  { intros s Hs0 Hs.
    assert (Has0 : 0 <= a * s) by (apply Qmult_le_0_compat; assumption).
    assert (Has : a * s <= a * d) by (apply Qmult_le_compat_nonneg; split; lra).
    destruct (round_error (a * s) Has0) as [_ P1].
    pose proof (round_nonneg (a * s) Has0) as P0.
    unfold mul. fold u in P1. set (p := round (a * s)) in *.
    split.
    - rewrite <- (rhe_inject_Z 0). apply rhe_mono. exact P0.
    - apply rhe_le. fold D.
      assert (p <= D * (1 + u) * (1 + u)).
      { apply Qle_trans with (a * s * (1 + u)); [exact P1|].
        apply Qmult_le_compat_r; lra. }
      nra. }
  split.
  - unfold rint, cast_short. rewrite trunc_inject_Z.
    pose proof (Bp t Ht0 Ht). rewrite wrap_short_small; lia.
  - assert (Hd' : d <= d) by lra. assert (Hd0 : 0 <= d) by lra.
    pose proof (Bp d Hd0 Hd') as [_ U].
    assert (L : (dmax <= round_half_even (mul a d))%Z).
    { apply rhe_ge. fold D. unfold mul.
      assert (Had0 : 0 <= a * d) by (apply Qmult_le_0_compat; lra).
      destruct (round_error (a * d) Had0) as [P2 _]. fold u in P2.
      assert (D * (1 - u) * (1 - u) <= round (a * d)).
      { apply Qle_trans with (a * d * (1 - u)); [|exact P2].
        apply Qmult_le_compat_r; lra. }
      nra. }
    lia.
Qed.

(** Without a mask the clamped array is the image of the voxels, as floats,
    under one map: it does not decrease between the two bounds, it sends the
    minimum to 0 and the maximum to the last bin. *)
Lemma clamp_voxels (x : array) (bins : Z) (y : ndarray Z) (bins' : Z) :
  array_well_formed x -> (1 <= bins)%Z -> clamp x bins None = Ok (y, bins') ->
  exists (xmin xmax : Q) (f : Q -> Z),
    amin x = Ok xmin /\ amax x = Ok xmax /\
    y = NDArray (array_shape x) (map f (to_float x)) /\
    f xmin = 0%Z /\ f xmax = (bins' - 1)%Z /\
    (forall p q, xmin <= p -> p <= q -> q <= xmax ->
       (0 <= f p)%Z /\ (f p <= f q)%Z /\ (f q <= bins' - 1)%Z).
Proof.
  intros Hwf Hb. unfold clamp.
  destruct (short_max <? bins)%Z eqn:Hs; [discriminate|].
  apply Z.ltb_ge in Hs. unfold short_max in Hs.
  unfold _clamp. change (2 ^ (8 * itemsize - 1) - 1)%Z with 32767%Z.
  destruct (32767 <? bins - 1)%Z; [discriminate|].
  destruct (amin x) as [xmin|] eqn:Emin; [|discriminate].
  destruct (amax x) as [xmax|] eqn:Emax; [|discriminate].
  cbn [mbind result_bind].
  pose proof (amin_amax x xmin xmax Emin Emax) as Hmm.
  set (d := sub xmax xmin).
  assert (Hd0 : 0 <= d) by (apply round_nonneg; lra).
  assert (Hsub : forall v, xmin <= v -> v <= xmax -> 0 <= sub v xmin /\ sub v xmin <= d).
  { intros v H1 H2. split; [apply round_nonneg; lra | apply round_mono; lra]. }
  assert (Hassign : forall f : Q -> Z,
            assign_all (full (array_shape x) (-1)%Z)
              (NDArray (array_shape x) (map f (to_float x)))
            = Ok (NDArray (array_shape x) (map f (to_float x)))).
  { intros f. apply assign_all_same; [reflexivity|].
    unfold well_formed. cbn [flat shape]. rewrite length_map.
    apply to_float_length, Hwf. }
  destruct (is_integer x && Qle_bool d (inject_Z (bins - 1))) eqn:B.
  - apply andb_true_iff in B as [_ B]. apply Qle_bool_iff in B.
    rewrite Hassign. cbn [mbind result_bind]. intros [= <- <-].
    exists xmin, xmax, (fun v => cast_short (sub v xmin)).
    split; [reflexivity|]. split; [reflexivity|]. split; [reflexivity|].
    assert (Ex : forall v, xmin <= v -> v <= xmax ->
              cast_short (sub v xmin) = trunc (sub v xmin)).
    { intros v H1 H2. destruct (Hsub v H1 H2) as [_ S1].
      apply (shift_exact xmin d v (bins - 1)); [lia | exact H1 | exact S1 | exact B]. }
    split; [rewrite sub_same; reflexivity|].
    split; [rewrite Ex by lra; fold d; lia|].
    intros p q Hp Hpq Hq. rewrite !Ex by lra.
    destruct (Hsub p) as [P0 P1]; [lra..|]. destruct (Hsub q) as [Q0 Q1]; [lra..|].
    split; [apply trunc_nonneg, P0|].
    split; [apply trunc_mono; [exact P0 | apply round_mono; lra]|].
    pose proof (trunc_mono _ _ Q0 Q1). lia.
  - destruct (py_div (bins - 1) d) as [a|] eqn:Ea; [|discriminate].
    assert (Hd : 0 < d).
    { unfold py_div in Ea. destruct (Qeq_bool d 0) eqn:E0; [discriminate|].
      apply Qeq_bool_neq in E0. apply Qle_lteq in Hd0 as [H|H]; [exact H|].
      exfalso. apply E0. symmetry. exact H. }
    cbn [mbind result_bind]. rewrite Hassign. cbn [mbind result_bind].
    intros [= <- <-].
    exists xmin, xmax, (fun v => cast_short (rint (mul a (sub v xmin)))).
    split; [reflexivity|]. split; [reflexivity|]. split; [reflexivity|].
    assert (Hdm : (0 <= bins - 1 <= 32767)%Z) by lia.
    assert (Ex : forall v, xmin <= v -> v <= xmax ->
              cast_short (rint (mul a (sub v xmin))) = round_half_even (mul a (sub v xmin))).
    { intros v H1 H2. destruct (Hsub v H1 H2) as [S0 S1].
      apply (compress_exact (bins - 1) d (sub v xmin) a Hdm Hd S0 S1 Ea). }
    destruct (compress_exact (bins - 1) d d a Hdm Hd) as [Ha [_ Htop]];
      [lra | lra | exact Ea |].
    split.
    { rewrite sub_same. unfold mul. rewrite (round_zero (a * 0)) by ring. reflexivity. }
    split; [rewrite Ex by lra; exact Htop|].
    intros p q Hp Hpq Hq. rewrite !Ex by lra.
    destruct (Hsub p) as [P0 P1]; [lra..|]. destruct (Hsub q) as [Q0 Q1]; [lra..|].
    assert (M : forall s t, 0 <= s -> s <= t ->
              (round_half_even (mul a s) <= round_half_even (mul a t))%Z).
    { intros s t Hs0 Hst. apply rhe_mono, round_mono.
      apply Qmult_le_compat_nonneg; split; lra. }
    split.
    { rewrite <- (rhe_inject_Z 0). apply rhe_mono, round_nonneg.
      apply Qmult_le_0_compat; assumption. }
    split; [apply M; [exact P0 | apply round_mono; lra]|].
    rewrite <- Htop. apply M; assumption.
Qed.

Lemma voxel_le_float (x : array) (i j : nat) :
  voxel_le x i j ->
  exists p q, to_float x !! i = Some p /\ to_float x !! j = Some q /\ p <= q.
Proof.
  destruct x as [a|a]; simpl; intros (vi & vj & Hi & Hj & Hle).
  - exists (of_int vi), (of_int vj). rewrite !lookup_map, Hi, Hj.
    split; [reflexivity|]. split; [reflexivity|]. apply of_int_mono, Hle.
  - exists vi, vj. auto.
Qed.

(** X1. Clamping without a mask keeps the order of the voxels: where one
    voxel of the input is at most another, its clamped value is at most the
    other's. *)
Theorem clamp_monotone (x : array) (bins : Z) (y : ndarray Z) (bins' : Z) (i j : nat) :
  array_well_formed x -> (1 <= bins)%Z -> clamp x bins None = Ok (y, bins') ->
  voxel_le x i j ->
  exists yi yj, flat y !! i = Some yi /\ flat y !! j = Some yj /\ (yi <= yj)%Z.
Proof.
  intros Hwf Hb Hc Hle.
  destruct (clamp_voxels x bins y bins' Hwf Hb Hc)
    as (xmin & xmax & f & Emin & Emax & -> & _ & _ & Hf).
  destruct (voxel_le_float x i j Hle) as (p & q & Hi & Hj & Hpq).
  pose proof (amin_le x xmin Emin) as L. pose proof (amax_ge x xmax Emax) as U.
  rewrite Forall_lookup in L, U.
  exists (f p), (f q). cbn [flat]. rewrite !lookup_map, Hi, Hj.
  split; [reflexivity|]. split; [reflexivity|].
  apply (Hf p q); [apply (L i), Hi | exact Hpq | apply (U j), Hj].
Qed.

Lemma clamp_monotone_witness :
  let x := IntArray (NDArray [1; 1; 3]%nat [1000; 3; 5]%Z) in
  array_well_formed x /\ (1 <= 256)%Z /\
  clamp x 256 None = Ok (NDArray [1; 1; 3]%nat [255; 0; 1]%Z, 256%Z) /\
  voxel_le x 2 0 /\
  exists yi yj, [255; 0; 1]%Z !! 2%nat = Some yi /\ [255; 0; 1]%Z !! 0%nat = Some yj /\
                (yi <= yj)%Z.
Proof.
  intros x.
  assert (H1 : array_well_formed x) by reflexivity.
  assert (H2 : (1 <= 256)%Z) by lia.
  assert (H3 : clamp x 256 None = Ok (NDArray [1; 1; 3]%nat [255; 0; 1]%Z, 256%Z))
    by (vm_compute; reflexivity).
  assert (H4 : voxel_le x 2 0).
  { exists 5%Z, 1000%Z. split; [reflexivity|]. split; [reflexivity|]. lia. }
  split; [exact H1|]. split; [exact H2|]. split; [exact H3|]. split; [exact H4|].
  exact (clamp_monotone x 256 _ _ 2 0 H1 H2 H3 H4).
Defined.

(** The clamped array as a whole. *)
Lemma clamp_image (x : array) (bins : Z) (y : ndarray Z) (bins' : Z) :
  array_well_formed x -> (1 <= bins)%Z -> clamp x bins None = Ok (y, bins') ->
  shape y = array_shape x /\ well_formed y /\ (1 <= bins')%Z /\
  Forall (fun v => (0 <= v <= bins' - 1)%Z) (flat y) /\
  0%Z ∈ flat y /\ (bins' - 1)%Z ∈ flat y.
Proof.
  intros Hwf Hb Hc.
  destruct (clamp_voxels x bins y bins' Hwf Hb Hc)
    as (xmin & xmax & f & Emin & Emax & -> & H0 & H1 & Hf).
  pose proof (amin_le x xmin Emin) as L. pose proof (amax_ge x xmax Emax) as U.
  pose proof (amin_amax x xmin xmax Emin Emax) as Hmm.
  cbn [shape flat]. split; [reflexivity|].
  split; [unfold well_formed; cbn [shape flat]; rewrite length_map;
          apply to_float_length, Hwf|].
  split.
  { destruct (Hf xmin xmax) as (A & B & C); [lra..|]. lia. }
  split.
  { apply Forall_map. rewrite Forall_forall in L, U. apply Forall_forall.
    intros v Hv. destruct (Hf v v) as (A & B & C); [apply L, Hv | lra | apply U, Hv |].
    simpl. lia. }
  split.
  - rewrite <- H0. apply elem_of_map, amin_elem, Emin.
  - rewrite <- H1. apply elem_of_map, amax_elem, Emax.
Qed.

(** X2. Clamping a three-dimensional volume of integers (of a numpy integer
    type: between [-2^63] and [2^64]) without a mask keeps the shape, leaves
    no -1 and uses the whole range it reports: the values lie in
    [0 .. adjusted_bins - 1], the value 0 is taken (by the minimum) and so is
    [adjusted_bins - 1] (by the maximum). *)
Theorem clamp_spans (a : ndarray Z) (n0 n1 n2 : nat) (bins : Z) (y : ndarray Z) (bins' : Z) :
  shape a = [n0; n1; n2] -> well_formed a ->
  Forall (fun w => (- 2 ^ 63 <= w < 2 ^ 64)%Z) (flat a) ->
  (1 <= bins)%Z -> clamp (IntArray a) bins None = Ok (y, bins') ->
  shape y = [n0; n1; n2] /\ well_formed y /\ (1 <= bins')%Z /\
  Forall (fun v => (0 <= v <= bins' - 1)%Z) (flat y) /\
  0%Z ∈ flat y /\ (bins' - 1)%Z ∈ flat y.
Proof.
  intros Hs Hwf _ Hb Hc. rewrite <- Hs.
  apply (clamp_image (IntArray a) bins y bins' Hwf Hb Hc).
Qed.

Lemma clamp_spans_witness :
  let a := NDArray [1; 2; 2]%nat [3; 5; 1000; 40]%Z in
  let y := NDArray [1; 2; 2]%nat [0; 1; 255; 9]%Z in
  shape a = [1; 2; 2]%nat /\ well_formed a /\
  Forall (fun w => (- 2 ^ 63 <= w < 2 ^ 64)%Z) (flat a) /\
  (1 <= 256)%Z /\ clamp (IntArray a) 256 None = Ok (y, 256%Z) /\
  shape y = [1; 2; 2]%nat /\ well_formed y /\ (1 <= 256)%Z /\
  Forall (fun v => (0 <= v <= 256 - 1)%Z) (flat y) /\
  0%Z ∈ flat y /\ (256 - 1)%Z ∈ flat y.
Proof.
  intros a y.
  assert (H0 : shape a = [1; 2; 2]%nat) by reflexivity.
  assert (H1 : well_formed a) by reflexivity.
  assert (H2 : Forall (fun w => (- 2 ^ 63 <= w < 2 ^ 64)%Z) (flat a))
    by (repeat constructor; vm_compute; congruence).
  assert (H3 : (1 <= 256)%Z) by lia.
  assert (H4 : clamp (IntArray a) 256 None = Ok (y, 256%Z)) by (vm_compute; reflexivity).
  split; [exact H0|]. split; [exact H1|]. split; [exact H2|].
  split; [exact H3|]. split; [exact H4|].
  exact (clamp_spans a 1 2 2 256 y 256%Z H0 H1 H2 H3 H4).
Defined.

(** What [clamp] needs of an array to return, without a mask. *)
Lemma clamp_ok (x : array) (bins : Z) :
  array_well_formed x -> (1 <= bins <= 32767)%Z ->
  to_float x <> [] -> is_integer x = true \/ varies x ->
  exists y bins', clamp x bins None = Ok (y, bins').
Proof.
  intros Hwf Hb Hne Hv. unfold clamp.
  destruct (short_max <? bins)%Z eqn:Hs;
    [apply Z.ltb_lt in Hs; unfold short_max in Hs; lia|].
  unfold _clamp. change (2 ^ (8 * itemsize - 1) - 1)%Z with 32767%Z.
  destruct (32767 <? bins - 1)%Z eqn:Hs'; [apply Z.ltb_lt in Hs'; lia|].
  assert (Hassign : forall f : Q -> Z,
            assign_all (full (array_shape x) (-1)%Z)
              (NDArray (array_shape x) (map f (to_float x)))
            = Ok (NDArray (array_shape x) (map f (to_float x)))).
  { intros f. apply assign_all_same; [reflexivity|].
    unfold well_formed. cbn [flat shape]. rewrite length_map.
    apply to_float_length, Hwf. }
  destruct (amin_nonempty x Hne) as [xmin Emin].
  destruct (amax_nonempty x Hne) as [xmax Emax].
  rewrite Emin, Emax. cbn [mbind result_bind].
  pose proof (amin_amax x xmin xmax Emin Emax) as Hmm.
  destruct (is_integer x && Qle_bool (sub xmax xmin) (inject_Z (bins - 1))) eqn:B.
  - rewrite Hassign. cbn [mbind result_bind]. eauto.
  - assert (Hd : 0 < sub xmax xmin).
    { destruct Hv as [Hi|(v & w & Iv & Iw & Hvw)].
      - rewrite Hi in B. cbn [andb] in B.
        assert (N : ~ sub xmax xmin <= inject_Z (bins - 1)).
        { intros H. apply Qle_bool_iff in H. congruence. }
        assert (0 <= inject_Z (bins - 1)) by (unfold Qle; simpl; lia).
        apply Qnot_le_lt in N. lra.
      - pose proof (amin_le x xmin Emin) as L. pose proof (amax_ge x xmax Emax) as U.
        rewrite Forall_forall in L, U.
        pose proof (L v Iv). pose proof (L w Iw). pose proof (U v Iv). pose proof (U w Iw).
        apply round_gt0.
        destruct (Qlt_le_dec xmin xmax) as [H'|H']; [lra|].
        exfalso. apply Hvw. lra. }
    unfold py_div.
    destruct (Qeq_bool (sub xmax xmin) 0) eqn:E0;
      [apply Qeq_bool_iff in E0; lra|].
    cbn [mbind result_bind]. rewrite Hassign. cbn [mbind result_bind]. eauto.
Qed.

(** X3. For a bin count between 1 and 32767, clamping a well-formed
    three-dimensional array without a mask succeeds exactly when the array is
    not empty and is of an integer type or has two voxels that differ. *)
Theorem clamp_succeeds (x : array) (n0 n1 n2 : nat) (bins : Z) :
  array_shape x = [n0; n1; n2] -> array_well_formed x -> (1 <= bins <= 32767)%Z ->
  (exists y bins', clamp x bins None = Ok (y, bins')) <->
  to_float x <> [] /\ (is_integer x = true \/ varies x).
Proof.
  intros _ Hwf Hb. split; [|intros [Hne Hv]; apply clamp_ok; assumption].
  unfold clamp.
  destruct (short_max <? bins)%Z; [intros (? & ? & ?); discriminate|].
  unfold _clamp. change (2 ^ (8 * itemsize - 1) - 1)%Z with 32767%Z.
  destruct (32767 <? bins - 1)%Z; [intros (? & ? & ?); discriminate|].
  intros (y & bins' & E).
  destruct (amin x) as [xmin|] eqn:Emin; [|discriminate].
  destruct (amax x) as [xmax|] eqn:Emax; [|discriminate].
  cbn [mbind result_bind] in E.
  pose proof (amin_elem x xmin Emin) as Imin.
  pose proof (amax_elem x xmax Emax) as Imax.
  split; [intros N; rewrite N in Imin; inversion Imin|].
  destruct (is_integer x); [left; reflexivity|]. right.
  cbn [andb] in E.
  destruct (py_div (bins - 1) (sub xmax xmin)) as [a|] eqn:Ea; [|discriminate].
  unfold py_div in Ea. destruct (Qeq_bool (sub xmax xmin) 0) eqn:E0; [discriminate|].
  apply Qeq_bool_neq in E0.
  exists xmax, xmin. split; [exact Imax|]. split; [exact Imin|].
  intros Eq. apply E0. unfold sub. rewrite (round_zero (xmax - xmin)); [reflexivity|].
  rewrite Eq. ring.
Qed.

Lemma clamp_succeeds_witness :
  let x := FloatArray (NDArray [1; 1; 3]%nat [7 # 2; 9 # 2; 4]) in
  array_shape x = [1; 1; 3]%nat /\ array_well_formed x /\ (1 <= 256 <= 32767)%Z /\
  ((exists y bins', clamp x 256 None = Ok (y, bins')) <->
   to_float x <> [] /\ (is_integer x = true \/ varies x)).
Proof.
  intros x.
  assert (H0 : array_shape x = [1; 1; 3]%nat) by reflexivity.
  assert (H1 : array_well_formed x) by reflexivity.
  assert (H2 : (1 <= 256 <= 32767)%Z) by lia.
  split; [exact H0|]. split; [exact H1|]. split; [exact H2|].
  exact (clamp_succeeds x 1 1 3 256 H0 H1 H2).
Defined.

(** The clamped array of a call without a mask, for the constructor. *)
Lemma clamp_unmasked (x : array) (bins : Z) (y : ndarray Z) (bins' : Z) :
  array_well_formed x -> (1 <= bins)%Z -> clamp x bins None = Ok (y, bins') ->
  shape y = array_shape x /\ well_formed y /\ (1 <= bins' <= bins)%Z /\
  Forall (fun v => (0 <= v <= bins' - 1)%Z) (flat y).
Proof.
  intros Hwf Hb Hc.
  destruct (clamp_voxels x bins y bins' Hwf Hb Hc)
    as (xmin & xmax & f & _ & _ & Hy & _).
  assert (Hr : (1 <= bins' <= bins)%Z /\ Forall (fun v => (0 <= v <= bins' - 1)%Z) (flat y)).
  { unfold clamp in Hc. destruct (short_max <? bins)%Z; [discriminate|].
    apply (_clamp_range x _ y bins bins' Hb Hc). }
  destruct Hr as [Hbins Hall]. subst y. cbn [shape flat] in *.
  split; [reflexivity|].
  split; [unfold well_formed; cbn [shape flat]; rewrite length_map;
          apply to_float_length, Hwf|].
  split; assumption.
Qed.

(** ** Clamping what is clamped *)

(** A volume of integers that takes the value 0 and a largest value [top] is
    left as it is by a request for [top + 1] bins. *)
Lemma clamp_zero_based (s : list nat) (l : list Z) (top : Z) :
  length l = size s -> (top <= 32766)%Z ->
  Forall (fun w => (0 <= w <= top)%Z) l -> 0%Z ∈ l -> top ∈ l ->
  clamp (IntArray (NDArray s l)) (top + 1) None = Ok (NDArray s l, (top + 1)%Z).
Proof.
  intros Hlen Htop Hall H0 H1.
  destruct l as [|v l]; [inversion H0|].
  pose proof (foldr_Zmin_bounds _ _ v l Hall) as Blo.
  pose proof (foldr_Zmax_bounds _ _ v l Hall) as Bhi.
  pose proof (foldr_Zmin_le v l) as Hlo.
  pose proof (foldr_Zmax_ge v l) as Hhi.
  assert (Elo : foldr Z.min v l = 0%Z).
  { rewrite Forall_forall in Hlo. specialize (Hlo 0%Z H0). simpl in Hlo. lia. }
  assert (Ehi : foldr Z.max v l = top).
  { rewrite Forall_forall in Hhi. specialize (Hhi top H1). simpl in Hhi. lia. }
  unfold clamp, short_max.
  destruct (32767 <? top + 1)%Z eqn:E; [apply Z.ltb_lt in E; lia|].
  unfold _clamp. change (2 ^ (8 * itemsize - 1) - 1)%Z with 32767%Z.
  destruct (32767 <? top + 1 - 1)%Z eqn:E'; [apply Z.ltb_lt in E'; lia|].
  cbn [amin amax flat]. rewrite Elo, Ehi.
  assert (T0 : (0 <= top)%Z).
  { apply Forall_cons in Hall as [Hv _]. lia. }
  rewrite (of_int_exact 0), (of_int_exact top) by lia.
  cbn [mbind result_bind].
  rewrite (sub_int top 0) by lia. rewrite Z.sub_0_r.
  assert (B : Qle_bool (inject_Z top) (inject_Z (top + 1 - 1)) = true).
  { apply Qle_bool_iff. rewrite <- Zle_Qle. lia. }
  cbn [is_integer andb]. rewrite B. rewrite trunc_inject_Z.
  assert (M : map (fun q => cast_short (sub q (inject_Z 0)))
                (to_float (IntArray (NDArray s (v :: l))))
              = v :: l).
  { cbn [to_float flat]. rewrite map_map. rewrite <- (map_id (v :: l)) at 2.
    apply map_ext_Forall. eapply Forall_impl; [exact Hall|]. intros w W. simpl in *.
    rewrite (of_int_exact w) by lia. rewrite (sub_int w 0) by lia.
    unfold cast_short. rewrite trunc_inject_Z, Z.sub_0_r. apply wrap_short_small. lia. }
  rewrite M. rewrite assign_all_same; [reflexivity | reflexivity |].
  unfold well_formed. cbn [flat shape array_shape]. exact Hlen.
Qed.

(** X4. Clamping is idempotent on volumes of integers: what [clamp] returns
    without a mask for a three-dimensional volume of a numpy integer type is
    left as it is, bin count included, when it is clamped again with the
    adjusted number of bins. *)
Theorem clamp_idempotent (a : ndarray Z) (n0 n1 n2 : nat) (bins : Z) (y : ndarray Z) (bins' : Z) :
  shape a = [n0; n1; n2] -> well_formed a ->
  Forall (fun w => (- 2 ^ 63 <= w < 2 ^ 64)%Z) (flat a) ->
  (1 <= bins)%Z -> clamp (IntArray a) bins None = Ok (y, bins') ->
  clamp (IntArray y) bins' None = Ok (y, bins').
Proof.
  intros _ Hwf _ Hb Hc.
  destruct (clamp_image (IntArray a) bins y bins' Hwf Hb Hc)
    as (_ & Wy & _ & Hall & H0 & H1).
  destruct (clamp_unmasked (IntArray a) bins y bins' Hwf Hb Hc) as (_ & _ & Hbins & _).
  assert (Hmax : (bins <= 32767)%Z).
  { unfold clamp in Hc. destruct (Z.ltb_spec short_max bins); [discriminate|].
    unfold short_max in *. lia. }
  destruct y as [s l]. cbn [flat shape] in *.
  replace bins' with (bins' - 1 + 1)%Z at 1 2 by lia.
  apply clamp_zero_based; try assumption. lia.
Qed.

Lemma clamp_idempotent_witness :
  let a := NDArray [1; 2; 2]%nat [3; 5; 1000; 40]%Z in
  let y := NDArray [1; 2; 2]%nat [0; 1; 255; 9]%Z in
  shape a = [1; 2; 2]%nat /\ well_formed a /\
  Forall (fun w => (- 2 ^ 63 <= w < 2 ^ 64)%Z) (flat a) /\
  (1 <= 256)%Z /\ clamp (IntArray a) 256 None = Ok (y, 256%Z) /\
  clamp (IntArray y) 256 None = Ok (y, 256%Z).
Proof.
  intros a y.
  assert (H0 : shape a = [1; 2; 2]%nat) by reflexivity.
  assert (H1 : well_formed a) by reflexivity.
  assert (H2 : Forall (fun w => (- 2 ^ 63 <= w < 2 ^ 64)%Z) (flat a))
    by (repeat constructor; vm_compute; congruence).
  assert (H3 : (1 <= 256)%Z) by lia.
  assert (H4 : clamp (IntArray a) 256 None = Ok (y, 256%Z)) by (vm_compute; reflexivity).
  split; [exact H0|]. split; [exact H1|]. split; [exact H2|].
  split; [exact H3|]. split; [exact H4|].
  exact (clamp_idempotent a 1 2 2 256 y 256%Z H0 H1 H2 H3 H4).
Defined.

(** ** Masks on volumes *)

(** The values of a volume with more than one row or more than one plane do
    not fit a one-dimensional array. *)
Lemma assign_all_rank {A} (dst src : ndarray A) (k n0 n1 n2 : nat) :
  shape dst = [k] -> shape src = [n0; n1; n2] -> n0 <> 1%nat \/ n1 <> 1%nat ->
  assign_all dst src = Raise ValueError.
Proof.
  intros Hd Hs H. unfold assign_all, align. rewrite Hd, Hs. cbn.
  destruct n0 as [|[|n0]]; try reflexivity.
  destruct n1 as [|[|n1]]; try reflexivity.
  exfalso. destruct H as [H|H]; apply H; reflexivity.
Qed.

Lemma _clamp_rank (x : array) (ym : ndarray Z) (k n0 n1 n2 : nat) (bins : Z) :
  shape ym = [k] -> array_shape x = [n0; n1; n2] -> n0 <> 1%nat \/ n1 <> 1%nat ->
  exists e, _clamp x ym bins = Raise e.
Proof.
  intros Hk Hs H. unfold _clamp.
  destruct (_ <? _)%Z; [eexists; reflexivity|].
  destruct (amin x) as [xmin|]; [|eexists; reflexivity].
  destruct (amax x) as [xmax|]; [|eexists; reflexivity].
  cbn [mbind result_bind].
  destruct (is_integer x && _).
  - rewrite (assign_all_rank _ _ k n0 n1 n2) by assumption. eexists; reflexivity.
  - destruct (py_div _ _) as [a|]; [|eexists; reflexivity].
    cbn [mbind result_bind].
    rewrite (assign_all_rank _ _ k n0 n1 n2) by assumption. eexists; reflexivity.
Qed.

Lemma clamp_mask_rank (x : array) (bins : Z) (mask : ndarray bool) (n0 n1 n2 : nat) :
  array_shape x = [n0; n1; n2] -> n0 <> 1%nat \/ n1 <> 1%nat ->
  exists e, clamp x bins (Some mask) = Raise e.
Proof.
  intros Hs H. unfold clamp.
  destruct (short_max <? bins)%Z; [eexists; reflexivity|].
  destruct (array_getitem_mask x mask) as [xm|]; [|eexists; reflexivity].
  cbn [mbind result_bind].
  destruct (getitem_mask (full (array_shape x) (-1)%Z) mask) as [ym|] eqn:E;
    [|eexists; reflexivity].
  cbn [mbind result_bind].
  assert (Hsh : shape ym = [count_true (flat mask)]).
  { unfold getitem_mask in E. destruct (decide _); [|discriminate].
    injection E as <-. reflexivity. }
  destruct (_clamp_rank x ym _ n0 n1 n2 bins Hsh Hs H) as [e' He].
  rewrite He. eexists; reflexivity.
Qed.

(** X5. With a mask of the volume's shape, [clamp] raises on every volume that
    has more than one plane or more than one row, whatever the mask selects,
    the mask of all voxels included: the values of the three-dimensional [x]
    are assigned to the one-dimensional [y[mask]]. *)
Theorem clamp_mask_volume (x : array) (bins : Z) (mask : ndarray bool) (n0 n1 n2 : nat) :
  array_shape x = [n0; n1; n2] -> shape mask = [n0; n1; n2] ->
  n0 <> 1%nat \/ n1 <> 1%nat ->
  exists e, clamp x bins (Some mask) = Raise e.
Proof. intros Hs _ H. exact (clamp_mask_rank x bins mask n0 n1 n2 Hs H). Qed.

Lemma clamp_mask_volume_witness :
  let x := IntArray (NDArray [2; 1; 2]%nat [3; 5; 100; 7]%Z) in
  let mask := NDArray [2; 1; 2]%nat [true; true; true; true] in
  array_shape x = [2; 1; 2]%nat /\ shape mask = [2; 1; 2]%nat /\
  (2%nat <> 1%nat \/ 1%nat <> 1%nat) /\
  exists e, clamp x 256 (Some mask) = Raise e.
Proof.
  intros x mask.
  assert (H1 : array_shape x = [2; 1; 2]%nat) by reflexivity.
  assert (Hm : shape mask = [2; 1; 2]%nat) by reflexivity.
  assert (H2 : 2%nat <> 1%nat \/ 1%nat <> 1%nat) by (left; lia).
  split; [exact H1|]. split; [exact Hm|]. split; [exact H2|].
  exact (clamp_mask_volume x 256 mask 2 1 2 H1 Hm H2).
Defined.

(** ** Masks that select everything *)

Lemma count_true_le (m : list bool) : (count_true m <= length m)%nat.
Proof. unfold count_true. apply length_filter. Qed.

Lemma count_true_all (m : list bool) :
  count_true m = length m -> m = replicate (length m) true.
Proof.
  unfold count_true. induction m as [|b m IH]; [reflexivity|].
  rewrite filter_cons. destruct b.
  - destruct (decide (true = true)) as [_|N]; [|contradiction].
    simpl. intros [= H]. f_equal. apply IH, H.
  - destruct (decide (false = true)) as [E|_]; [discriminate|].
    intros H. pose proof (length_filter (fun b => b = true) m). simpl in H. lia.
Qed.

Lemma select_all {A} (l : list A) : select (replicate (length l) true) l = l.
Proof. induction l as [|a l IH]; simpl; [reflexivity|]. rewrite IH. reflexivity. Qed.

Lemma scatter_all {A} (l vs : list A) :
  length vs = length l -> scatter (replicate (length l) true) l vs = vs.
Proof.
  revert vs. induction l as [|a l IH]; intros [|v vs] H; simpl in *;
    try reflexivity; try discriminate.
  rewrite IH by lia. reflexivity.
Qed.

(** The values of a single row fit a one-dimensional array of its length. *)
Lemma assign_all_row {A} (dst src : ndarray A) (n : nat) :
  shape dst = [n] -> shape src = [1; 1; n]%nat -> length (flat src) = n ->
  assign_all dst src = Ok (NDArray [n] (flat src)).
Proof.
  intros Hd Hs Hl. unfold assign_all, align. rewrite Hd, Hs.
  change (length [n] <? length [1; 1; n])%nat with true. cbn iota.
  change (strip_ones (length [1; 1; n] - length [n]) [1; 1; n])%nat with (Some [n]).
  cbn iota beta. cbn [compatible]. rewrite Nat.eqb_refl. cbn [orb andb].
  rewrite stretch_same; [reflexivity|]. simpl. lia.
Qed.

Lemma _clamp_row (x : array) (dst : ndarray Z) (n : nat) (bins : Z) :
  array_well_formed x -> array_shape x = [1; 1; n]%nat -> shape dst = [n] ->
  _clamp x dst bins =
    match _clamp x (full (array_shape x) (-1)%Z) bins with
    | Ok (y, b) => Ok (NDArray [n] (flat y), b)
    | Raise e => Raise e
    end.
Proof.
  intros Hwf Hs Hd. unfold _clamp.
  destruct (_ <? _)%Z; [reflexivity|].
  destruct (amin x) as [xmin|]; [|reflexivity].
  destruct (amax x) as [xmax|]; [|reflexivity].
  cbn [mbind result_bind].
  assert (Hl : forall f : Q -> Z, length (map f (to_float x)) = n).
  { intros f. rewrite length_map, (to_float_length x Hwf), Hs. simpl. lia. }
  assert (A1 : forall f : Q -> Z,
            assign_all dst (NDArray (array_shape x) (map f (to_float x)))
            = Ok (NDArray [n] (map f (to_float x)))).
  { intros f.
    apply (assign_all_row dst (NDArray (array_shape x) (map f (to_float x))) n);
      [exact Hd | exact Hs | apply Hl]. }
  assert (A2 : forall f : Q -> Z,
            assign_all (full (array_shape x) (-1)%Z)
              (NDArray (array_shape x) (map f (to_float x)))
            = Ok (NDArray (array_shape x) (map f (to_float x)))).
  { intros f. apply assign_all_same; [reflexivity|].
    unfold well_formed. cbn [flat shape]. rewrite Hl, Hs. simpl. lia. }
  destruct (is_integer x && _).
  - rewrite A1, A2. reflexivity.
  - destruct (py_div _ _) as [a|]; [|reflexivity].
    cbn [mbind result_bind]. rewrite A1, A2. reflexivity.
Qed.

(** X6. A mask never helps: on a well-formed three-dimensional volume of two
    voxels or more, [clamp] with a mask of the volume's shape raises, or
    returns what it returns without the mask, and that only for a single row
    with every voxel selected. *)
Theorem clamp_mask_useless (x : array) (bins : Z) (mask : ndarray bool) (n0 n1 n2 : nat) :
  array_well_formed x -> array_shape x = [n0; n1; n2] -> (2 <= size [n0; n1; n2])%nat ->
  well_formed mask -> shape mask = [n0; n1; n2] ->
  (exists e, clamp x bins (Some mask) = Raise e) \/
  (clamp x bins (Some mask) = clamp x bins None /\
   n0 = 1%nat /\ n1 = 1%nat /\ flat mask = replicate n2 true).
Proof.
  intros Hwf Hs Hn Hm Hms. rewrite <- Hs in Hms.
  destruct (Nat.eq_dec n0 1) as [->|N0];
    [|left; apply (clamp_mask_rank x bins mask n0 n1 n2 Hs); left; exact N0].
  destruct (Nat.eq_dec n1 1) as [->|N1];
    [|left; apply (clamp_mask_rank x bins mask 1 n1 n2 Hs); right; exact N1].
  assert (Hsz : size (array_shape x) = n2) by (rewrite Hs; simpl; lia).
  pose proof (count_true_le (flat mask)) as Hle.
  unfold well_formed in Hm. rewrite Hms, Hsz in Hm.
  destruct (Nat.eq_dec (count_true (flat mask)) n2) as [Hc|Hc].
  2: { left. unfold clamp.
       destruct (short_max <? bins)%Z; [eexists; reflexivity|].
       destruct (array_getitem_mask x mask) as [xm|]; [|eexists; reflexivity].
       cbn [mbind result_bind].
       unfold getitem_mask. cbn [shape full flat].
       rewrite decide_True by exact Hms.
       cbn [mbind result_bind].
       destruct (_clamp_short x
                   (NDArray [count_true (flat mask)]
                      (select (flat mask) (replicate (size (array_shape x)) (-1)%Z)))
                   (count_true (flat mask)) bins) as [e He];
         [reflexivity | lia | rewrite Hs; exact Hn |].
       rewrite He. eexists; reflexivity. }
  assert (Em : flat mask = replicate n2 true).
  { rewrite <- Hm at 1. apply count_true_all. lia. }
  unfold clamp.
  destruct (short_max <? bins)%Z;
    [right; split; [reflexivity | split; [reflexivity | split; [reflexivity | exact Em]]]|].
  destruct (array_getitem_mask x mask) as [xm|]; [|left; eexists; reflexivity].
  cbn [mbind result_bind].
  unfold getitem_mask. cbn [shape full flat].
  rewrite decide_True by exact Hms.
  cbn [mbind result_bind].
  right. split; [|split; [reflexivity | split; [reflexivity | exact Em]]].
  rewrite (_clamp_row x _ n2 bins Hwf Hs) by (cbn [shape]; rewrite Hc; reflexivity).
  destruct (_clamp x (full (array_shape x) (-1)%Z) bins) as [[y b]|] eqn:E;
    [|reflexivity].
  cbn [mbind result_bind].
  assert (Hy : shape y = array_shape x /\ length (flat y) = n2).
  { unfold _clamp in E.
    destruct (_ <? _)%Z; [discriminate|].
    destruct (amin x) as [xmin|]; [|discriminate].
    destruct (amax x) as [xmax|]; [|discriminate].
    cbn [mbind result_bind] in E.
    assert (A2 : forall f : Q -> Z,
              assign_all (full (array_shape x) (-1)%Z)
                (NDArray (array_shape x) (map f (to_float x)))
              = Ok (NDArray (array_shape x) (map f (to_float x)))).
    { intros f. apply assign_all_same; [reflexivity|].
      unfold well_formed. cbn [flat shape]. rewrite length_map.
      apply to_float_length, Hwf. }
    destruct (is_integer x && _).
    - rewrite A2 in E. cbn [mbind result_bind] in E. injection E as <- _.
      cbn [shape flat]. rewrite length_map, (to_float_length x Hwf), Hsz. auto.
    - destruct (py_div _ _) as [a|]; [|discriminate].
      cbn [mbind result_bind] in E. rewrite A2 in E.
      cbn [mbind result_bind] in E. injection E as <- _.
      cbn [shape flat]. rewrite length_map, (to_float_length x Hwf), Hsz. auto. }
  destruct Hy as [Sy Ly].
  unfold setitem_mask. cbn [shape full flat].
  rewrite decide_True by exact Hms.
  rewrite assign_all_same;
    [|cbn [shape]; rewrite Hc; reflexivity
     |unfold well_formed; cbn [shape flat size foldr]; lia].
  cbn [flat mbind result_bind].
  assert (Em' : flat mask = replicate (length (replicate (size (array_shape x)) (-1)%Z)) true).
  { rewrite length_replicate, Hsz. exact Em. }
  rewrite Em', scatter_all by (rewrite length_replicate, Hsz; exact Ly).
  destruct y as [sy ly]. cbn [shape flat] in *. rewrite Sy. reflexivity.
Qed.

Lemma clamp_mask_useless_witness :
  let x := IntArray (NDArray [1; 1; 3]%nat [3; 5; 100]%Z) in
  let mask := NDArray [1; 1; 3]%nat [true; true; true] in
  array_well_formed x /\ array_shape x = [1; 1; 3]%nat /\ (2 <= size [1; 1; 3])%nat /\
  well_formed mask /\ shape mask = [1; 1; 3]%nat /\
  ((exists e, clamp x 256 (Some mask) = Raise e) \/
   (clamp x 256 (Some mask) = clamp x 256 None /\
    1%nat = 1%nat /\ 1%nat = 1%nat /\ flat mask = replicate 3 true)).
Proof.
  intros x mask.
  assert (H1 : array_well_formed x) by reflexivity.
  assert (H2 : array_shape x = [1; 1; 3]%nat) by reflexivity.
  assert (H3 : (2 <= size [1; 1; 3])%nat) by (simpl; lia).
  assert (H4 : well_formed mask) by reflexivity.
  assert (H5 : shape mask = [1; 1; 3]%nat) by reflexivity.
  split; [exact H1|]. split; [exact H2|]. split; [exact H3|]. split; [exact H4|].
  split; [exact H5|].
  exact (clamp_mask_useless x 256 mask 1 1 3 H1 H2 H3 H4 H5).
Defined.

(** ** The number of bins that comes back *)

(** X7. The adjusted number of bins: for a three-dimensional volume of
    integers of magnitude at most [2^52] it is the smaller of the number asked for and the dynamic
    [max - min] plus one; for a volume of floats it is the number asked for. *)
Theorem clamp_bins (bins : Z) :
  (1 <= bins <= 32767)%Z ->
  (forall (n0 n1 n2 : nat) (v : Z) (l : list Z),
     let s := [n0; n1; n2] in
     length (v :: l) = size s ->
     Forall (fun w => (- 2 ^ 52 <= w <= 2 ^ 52)%Z) (v :: l) ->
     exists y,
       clamp (IntArray (NDArray s (v :: l))) bins None
       = Ok (y, Z.min bins (foldr Z.max v l - foldr Z.min v l + 1))) /\
  (forall (a : ndarray Q) (y : ndarray Z) (bins' : Z),
     clamp (FloatArray a) bins None = Ok (y, bins') -> bins' = bins).
Proof.
  intros Hb. split.
  - intros n0 n1 n2 v l s Hlen Hrep. clearbody s.
    pose proof (foldr_Zmin_bounds _ _ v l Hrep) as Blo.
    pose proof (foldr_Zmax_bounds _ _ v l Hrep) as Bhi.
    pose proof (foldr_Zmin_le v l) as Hlo.
    pose proof (foldr_Zmax_ge v l) as Hhi.
    set (lo := foldr Z.min v l) in *. set (hi := foldr Z.max v l) in *.
    assert (Hlohi : (lo <= hi)%Z).
    { apply Forall_cons in Hlo as [Hlo _]. apply Forall_cons in Hhi as [Hhi _]. lia. }
    clear Hlo Hhi.
    unfold clamp, short_max.
    destruct (32767 <? bins)%Z eqn:E; [apply Z.ltb_lt in E; lia|].
    unfold _clamp. change (2 ^ (8 * itemsize - 1) - 1)%Z with 32767%Z.
    destruct (32767 <? bins - 1)%Z eqn:E'; [apply Z.ltb_lt in E'; lia|].
    cbn [amin amax flat]. fold lo hi. clearbody lo hi.
    rewrite (of_int_exact lo), (of_int_exact hi) by lia.
    cbn [mbind result_bind].
    rewrite (sub_int hi lo) by lia.
    assert (Hassign : forall f : Q -> Z,
              assign_all (full (array_shape (IntArray (NDArray s (v :: l)))) (-1)%Z)
                (NDArray (array_shape (IntArray (NDArray s (v :: l))))
                   (map f (to_float (IntArray (NDArray s (v :: l))))))
              = Ok (NDArray s (map f (map of_int (v :: l))))).
    { intros f. apply assign_all_same; [reflexivity|].
      unfold well_formed. cbn [flat shape array_shape to_float].
      rewrite !length_map. exact Hlen. }
    cbn [is_integer andb].
    destruct (Qle_bool (inject_Z (hi - lo)) (inject_Z (bins - 1))) eqn:B.
    + apply Qle_bool_iff in B. rewrite <- Zle_Qle in B.
      rewrite Hassign. cbn [mbind result_bind]. rewrite trunc_inject_Z.
      rewrite Z.min_r by lia. eauto.
    + assert (N : (bins - 1 < hi - lo)%Z).
      { destruct (Z_lt_le_dec (bins - 1) (hi - lo)) as [H|H]; [exact H|].
        rewrite Zle_Qle in H. apply Qle_bool_iff in H. congruence. }
      unfold py_div.
      destruct (Qeq_bool (inject_Z (hi - lo)) 0) eqn:E0.
      { apply Qeq_bool_iff in E0. unfold Qeq in E0. simpl in E0. lia. }
      cbn [mbind result_bind]. rewrite Hassign. cbn [mbind result_bind].
      rewrite Z.min_l by lia. eauto.
  - intros a y bins'. unfold clamp.
    destruct (short_max <? bins)%Z; [discriminate|].
    unfold _clamp. destruct (_ <? _)%Z; [discriminate|].
    destruct (amin _) as [xmin|]; [|discriminate].
    destruct (amax _) as [xmax|]; [|discriminate].
    cbn [mbind result_bind is_integer andb].
    destruct (py_div _ _) as [q|]; [|discriminate].
    cbn [mbind result_bind].
    destruct (assign_all _ _) as [y1|]; [|discriminate].
    cbn [mbind result_bind]. intros [= _ <-]. reflexivity.
Qed.

Lemma clamp_bins_witness :
  (1 <= 64 <= 32767)%Z /\
  length [3; 5; 100]%Z = size [1; 1; 3]%nat /\
  Forall (fun w => (- 2 ^ 52 <= w <= 2 ^ 52)%Z) [3; 5; 100]%Z /\
  exists y,
    clamp (IntArray (NDArray [1; 1; 3]%nat [3; 5; 100]%Z)) 64 None
    = Ok (y, Z.min 64 (foldr Z.max 3 [5; 100] - foldr Z.min 3 [5; 100] + 1)%Z).
Proof.
  assert (H1 : (1 <= 64 <= 32767)%Z) by lia.
  assert (H2 : length [3; 5; 100]%Z = size [1; 1; 3]%nat) by reflexivity.
  assert (H3 : Forall (fun w => (- 2 ^ 52 <= w <= 2 ^ 52)%Z) [3; 5; 100]%Z).
  { repeat constructor; lia. }
  split; [exact H1|]. split; [exact H2|]. split; [exact H3|].
  exact (proj1 (clamp_bins 64 H1) 1%nat 1%nat 3%nat 3%Z [5; 100]%Z H2 H3).
Defined.

End ClampFacts.

(** * Sub-sampling *)

Module SubsamplingFacts.
Import Float64 Float64Facts Subsampling.
Local Open Scope Q_scope.

(** ** The direction that is sub-sampled *)

(** [choose_dir] returns the first position of the largest of the three
    numbers. *)
Lemma choose_dir_argmax (d0 d1 d2 : Q) :
  let dd := [d0; d1; d2] in
  let dir := choose_dir (d0, d1, d2) in
  (dir < 3)%nat /\
  (forall j, (j < 3)%nat -> nth j dd 0 <= nth dir dd 0) /\
  (forall j, (j < dir)%nat -> nth j dd 0 < nth dir dd 0).
Proof.
  cbv zeta. unfold choose_dir.
  destruct (Qle_bool d1 d0) eqn:E10; destruct (Qle_bool d2 d0) eqn:E20;
    destruct (Qle_bool d2 d1) eqn:E21; cbn [andb negb];
    repeat match goal with
    | H : Qle_bool _ _ = true |- _ => apply Qle_bool_iff in H
    | H : Qle_bool ?a ?b = false |- _ =>
        assert (b < a) by (apply Qnot_le_lt; intros C; apply Qle_bool_iff in C; congruence);
        clear H
    end;
    (split; [lia|]); split; intros [|[|[|j]]] Hj; simpl; try lia; try lra.
Qed.

(** The quotient of two integers that float64 represents. *)
Lemma np_div_exact (n s : Z) :
  (0 <= n <= 2 ^ 53)%Z -> (1 <= s <= 2 ^ 53)%Z ->
  np_div n s = round (inject_Z n / inject_Z s).
Proof.
  intros Hn Hs. unfold np_div, of_int.
  rewrite (round_int n), (round_int s) by lia. reflexivity.
Qed.

Lemma inject_Z_pos (s : Z) : (1 <= s)%Z -> 0 < inject_Z s.
Proof. intros H. unfold Qlt. simpl. lia. Qed.

Lemma np_div_le_1 (n s : Z) :
  (0 <= n <= 2 ^ 53)%Z -> (1 <= s <= 2 ^ 53)%Z -> (n <= s)%Z -> np_div n s <= 1.
Proof.
  intros Hn Hs H. rewrite np_div_exact by assumption.
  change 1 with (round 1). apply round_mono.
  pose proof (inject_Z_pos s (proj1 Hs)).
  apply Qle_shift_div_r; [assumption|]. rewrite Qmult_1_l, <- Zle_Qle. exact H.
Qed.

Lemma np_div_gt_1 (n s : Z) :
  (0 <= n <= 2 ^ 53)%Z -> (1 <= s < 2 ^ 53 - 1)%Z -> (s < n)%Z -> 1 < np_div n s.
Proof.
  intros Hn Hs H. rewrite np_div_exact by lia.
  pose proof (inject_Z_pos s (proj1 Hs)) as Hs0.
  assert (Hq : inject_Z s + 1 <= inject_Z n).
  { change 1 with (inject_Z 1). rewrite <- inject_Z_plus, <- Zle_Qle. lia. }
  assert (Hs1 : inject_Z s + 1 < 9007199254740992).
  { change 1 with (inject_Z 1). rewrite <- inject_Z_plus.
    change 9007199254740992 with (inject_Z (2 ^ 53)). rewrite <- Zlt_Qlt. lia. }
  assert (Hq0 : 0 <= inject_Z n / inject_Z s).
  { apply Qle_shift_div_l; [assumption|]. lra. }
  destruct (round_error _ Hq0) as [L _].
  change (1 # 2 ^ 53) with (1 # 9007199254740992) in L.
  assert (Hq1 : (inject_Z s + 1) / inject_Z s <= inject_Z n / inject_Z s).
  { apply Qmult_le_compat_r; [exact Hq|]. apply Qlt_le_weak, Qinv_lt_0_compat, Hs0. }
  assert (E : (inject_Z s + 1) / inject_Z s == 1 + / inject_Z s) by (field; lra).
  rewrite E in Hq1.
  assert (Hinv : 1 # 9007199254740992 < / inject_Z s * (1 - (1 # 9007199254740992))).
  { assert (H1 : / inject_Z s * inject_Z s == 1) by (field; lra).
    apply (Qmult_lt_r _ _ (inject_Z s) Hs0).
    assert (E' : / inject_Z s * (1 - (1 # 9007199254740992)) * inject_Z s
                 == (1 - (1 # 9007199254740992)) * (/ inject_Z s * inject_Z s)) by ring.
    rewrite E', H1. lra. }
  set (q := inject_Z n / inject_Z s) in *. set (i := / inject_Z s) in *.
  apply Qlt_le_trans with ((1 + i) * (1 - (1 # 9007199254740992))); [|].
  - lra.
  - apply Qle_trans with (q * (1 - (1 # 9007199254740992))); [|exact L].
    apply Qmult_le_compat_r; lra.
Qed.

(** The number of samples on an axis is the quotient rounded up. *)
Lemma extent_le_iff (n s k : nat) :
  (1 <= s)%nat -> (extent n s <= k)%nat <-> (n <= k * s)%nat.
Proof.
  intros Hs. unfold extent.
  pose proof (Nat.div_mod_eq (n + s - 1) s) as E.
  pose proof (Nat.mod_upper_bound (n + s - 1) s) as U.
  split; intros H; nia.
Qed.

Lemma extent_le_n (n s : nat) : (1 <= s)%nat -> (extent n s <= n)%nat.
Proof. intros Hs. apply extent_le_iff; [exact Hs | nia]. Qed.

Lemma extent_small (n s : nat) : (1 <= s)%nat -> (n <= s)%nat -> (extent n s <= 1)%nat.
Proof. intros Hs H. apply extent_le_iff; [exact Hs | lia]. Qed.

(** An axis with the larger float quotient has at least as many samples. *)
Lemma np_div_extent (n0 n1 : nat) (s0 s1 : Z) :
  (Z.of_nat n0 < 2 ^ 53)%Z -> (Z.of_nat n1 < 2 ^ 53)%Z ->
  (1 <= s0 <= 2 ^ 53)%Z -> (1 <= s1 <= 2 ^ 53)%Z ->
  np_div (Z.of_nat n1) s1 <= np_div (Z.of_nat n0) s0 ->
  (extent n1 (Z.to_nat s1) <= extent n0 (Z.to_nat s0))%nat.
Proof.
  intros Hn0 Hn1 Hs0 Hs1 H.
  rewrite !np_div_exact in H by lia.
  destruct (Nat.le_gt_cases (extent n1 (Z.to_nat s1)) (extent n0 (Z.to_nat s0)))
    as [L|G]; [exact L|exfalso].
  set (m := extent n0 (Z.to_nat s0)) in *.
  assert (A0 : (n0 <= m * Z.to_nat s0)%nat).
  { apply extent_le_iff; [lia | unfold m; lia]. }
  assert (A1 : ~ (n1 <= m * Z.to_nat s1)%nat).
  { intros C. apply extent_le_iff in C; lia. }
  assert (Am : (m <= n0)%nat) by (apply extent_le_n; lia).
  assert (B0 : (Z.of_nat n0 <= Z.of_nat m * s0)%Z) by nia.
  assert (B1 : (Z.of_nat m * s1 + 1 <= Z.of_nat n1)%Z) by nia.
  clearbody m.
  pose proof (inject_Z_pos s0 (proj1 Hs0)) as P0.
  pose proof (inject_Z_pos s1 (proj1 Hs1)) as P1.
  rewrite Zle_Qle, inject_Z_mult in B0.
  rewrite Zle_Qle, inject_Z_plus, inject_Z_mult in B1. change (inject_Z 1) with 1 in B1.
  assert (Mn : 0 <= inject_Z (Z.of_nat m)) by (unfold Qle; simpl; lia).
  assert (N1 : inject_Z (Z.of_nat n1) < 9007199254740992).
  { change 9007199254740992 with (inject_Z (2 ^ 53)). rewrite <- Zlt_Qlt. exact Hn1. }
  set (M := inject_Z (Z.of_nat m)) in *.
  set (S0 := inject_Z s0) in *. set (S1 := inject_Z s1) in *.
  set (Q0 := inject_Z (Z.of_nat n0)) in *. set (Q1 := inject_Z (Z.of_nat n1)) in *.
  (* the smaller side *)
  assert (U : round (Q0 / S0) <= M).
  { unfold M. rewrite <- (round_int (Z.of_nat m)) by lia. fold M.
    apply round_mono. apply Qle_shift_div_r; assumption. }
  (* the larger side *)
  assert (Hq1 : 0 <= Q1 / S1).
  { apply Qle_shift_div_l; [assumption|].
    assert (0 <= M * S1) by (apply Qmult_le_0_compat; lra). lra. }
  destruct (round_error _ Hq1) as [L _].
  change (1 # 2 ^ 53) with (1 # 9007199254740992) in L.
  assert (G1 : M < Q1 / S1 * (1 - (1 # 9007199254740992))).
  { apply (Qmult_lt_r _ _ S1 P1).
    assert (E : Q1 / S1 * (1 - (1 # 9007199254740992)) * S1
                == Q1 * (1 - (1 # 9007199254740992))) by (field; lra).
    rewrite E. set (P := M * S1) in *. lra. }
  lra.
Qed.

(** ** Strided views *)

Lemma length_bind_const {A B} (f : A -> list B) (l : list A) (c : nat) :
  (forall x, length (f x) = c) -> length (l ≫= f) = (length l * c)%nat.
Proof.
  intros H. induction l as [|x l IH]; [reflexivity|].
  rewrite bind_cons, length_app, H, IH. simpl. lia.
Qed.

Lemma length_strided (n s : nat) : length (strided n s) = extent n s.
Proof. unfold strided. rewrite length_map, length_seq. reflexivity. Qed.

(** A view exists when no step is zero, and has as many elements as the
    product of the numbers of samples on the three axes. *)
Lemma view_length (data : ndarray Z) (n0 n1 n2 : nat) (s0 s1 s2 : Z) :
  shape data = [n0; n1; n2] -> s0 <> 0%Z -> s1 <> 0%Z -> s2 <> 0%Z ->
  exists v,
    view data (s0, s1, s2) = Ok v /\
    length v = (extent n0 (Z.to_nat s0) * (extent n1 (Z.to_nat s1) *
                  extent n2 (Z.to_nat s2)))%nat.
Proof.
  intros Hs H0 H1 H2. unfold view. rewrite Hs.
  rewrite (proj2 (Z.eqb_neq s0 0) H0), (proj2 (Z.eqb_neq s1 0) H1),
    (proj2 (Z.eqb_neq s2 0) H2). cbn [orb].
  eexists. split; [reflexivity|].
  rewrite (length_bind_const _ _ (extent n1 (Z.to_nat s1) * extent n2 (Z.to_nat s2))).
  - rewrite length_strided. reflexivity.
  - intros i. rewrite (length_bind_const _ _ (extent n2 (Z.to_nat s2))).
    + rewrite length_strided. reflexivity.
    + intros j. rewrite (length_bind_const _ _ 1).
      * rewrite length_strided. lia.
      * reflexivity.
Qed.

Lemma count_nonneg_le (l : list Z) : (count_nonneg l <= Z.of_nat (length l))%Z.
Proof. unfold count_nonneg. pose proof (length_filter (fun v => (0 <= v)%Z) l). lia. Qed.

(** With steps of one the view is the array itself. *)
Lemma extent_1 (n : nat) : extent n 1 = n.
Proof. unfold extent. rewrite Nat.div_1_r. lia. Qed.

Lemma strided_1 (n : nat) : strided n 1 = seq 0 n.
Proof.
  unfold strided. rewrite extent_1.
  rewrite (map_ext _ (fun q => q)); [apply map_id | intros; lia].
Qed.

Lemma take_1_drop {A} (l : list A) (i : nat) (d : A) :
  (i < length l)%nat -> take 1 (drop i l) = [nth i l d].
Proof.
  revert i. induction l as [|x l IH]; intros i H; simpl in H; [lia|].
  destruct i as [|i]; simpl; [reflexivity|]. apply IH. lia.
Qed.

Lemma bind_seq_take {A} (l : list A) (b c m : nat) (F : nat -> list A) :
  (forall j, (j < m)%nat -> F j = take c (drop (b + j * c) l)) ->
  seq 0 m ≫= F = take (m * c) (drop b l).
Proof.
  induction m as [|m IH]; intros H; [reflexivity|].
  rewrite seq_S, bind_app, IH by (intros j Hj; apply H; lia).
  change (0 + m)%nat with m. rewrite bind_singleton, H by lia.
  rewrite <- (drop_drop l (m * c) b).
  rewrite take_take_drop. f_equal. lia.
Qed.

Lemma view_ones (data : ndarray Z) (n0 n1 n2 : nat) :
  shape data = [n0; n1; n2] -> well_formed data ->
  view data (1, 1, 1)%Z = Ok (flat data).
Proof.
  intros Hs Hw. unfold well_formed in Hw. rewrite Hs in Hw. simpl in Hw.
  unfold view. rewrite Hs. cbn [Z.eqb orb].
  change (Z.to_nat 1) with 1%nat. rewrite !strided_1. f_equal.
  set (l := flat data) in *.
  rewrite (bind_seq_take l 0 (n1 * n2) n0).
  - rewrite drop_0. apply take_ge. lia.
  - intros i Hi. rewrite (bind_seq_take l (i * (n1 * n2)) n2 n1).
    + reflexivity.
    + intros j Hj. rewrite (bind_seq_take l (i * (n1 * n2) + j * n2) 1 n2).
      * rewrite Nat.mul_1_r. reflexivity.
      * intros k Hk.
        assert (B1 : (j * n2 + k < n1 * n2)%nat) by nia.
        assert (B2 : (i * (n1 * n2) + n1 * n2 <= n0 * (n1 * n2))%nat) by nia.
        rewrite (take_1_drop l _ 0%Z) by lia.
        do 2 f_equal. lia.
Qed.

(** ** The pass through the loop *)

Lemma body_eq (data : ndarray Z) (n0 n1 n2 : nat) (s0 s1 s2 : Z) :
  shape data = [n0; n1; n2] ->
  body data (s0, s1, s2) =
    (let dd := (np_div (Z.of_nat n0) s0, np_div (Z.of_nat n1) s1,
                np_div (Z.of_nat n2) s2) in
     let spacing' := increment (choose_dir dd) (s0, s1, s2) in
     subdata ← view data spacing'; Ok (spacing', count_nonneg subdata)).
Proof. intros Hs. unfold body, ddims. rewrite Hs. reflexivity. Qed.

(** C5 (as amended). On every pass the stride that is incremented is that of
    the first axis among those with the largest float quotient
    [dims[i] / spacing[i]]. No axis has more samples in the current view than
    this one (for axes and strides that float64 represents), but among axes
    with equally many samples the larger quotient decides before the lower
    index does. *)
Theorem body_direction (data : ndarray Z) (n0 n1 n2 : nat) (s0 s1 s2 : Z)
  (spacing' : Z * Z * Z) (c : Z) :
  shape data = [n0; n1; n2] ->
  body data (s0, s1, s2) = Ok (spacing', c) ->
  let dd := [np_div (Z.of_nat n0) s0; np_div (Z.of_nat n1) s1;
             np_div (Z.of_nat n2) s2] in
  let samples := [extent n0 (Z.to_nat s0); extent n1 (Z.to_nat s1);
                  extent n2 (Z.to_nat s2)] in
  exists dir,
    (dir < 3)%nat /\ spacing' = increment dir (s0, s1, s2) /\
    (forall j, (j < 3)%nat -> nth j dd 0 <= nth dir dd 0) /\
    (forall j, (j < dir)%nat -> nth j dd 0 < nth dir dd 0) /\
    (Forall (fun n => (Z.of_nat n < 2 ^ 53)%Z) [n0; n1; n2] ->
     Forall (fun s => (1 <= s <= 2 ^ 53)%Z) [s0; s1; s2] ->
     forall j, (j < 3)%nat -> (nth j samples 0 <= nth dir samples 0)%nat).
Proof.
  intros Hs Hb dd samples. rewrite (body_eq data n0 n1 n2) in Hb by exact Hs.
  cbv zeta in Hb.
  set (dir := choose_dir (np_div (Z.of_nat n0) s0, np_div (Z.of_nat n1) s1,
                          np_div (Z.of_nat n2) s2)) in *.
  destruct (view data _) as [v|]; [|discriminate].
  cbn [mbind result_bind] in Hb. injection Hb as <- <-.
  destruct (choose_dir_argmax (np_div (Z.of_nat n0) s0) (np_div (Z.of_nat n1) s1)
              (np_div (Z.of_nat n2) s2)) as (Hlt & Hmax & Hfirst).
  fold dir in Hlt, Hmax, Hfirst. fold dd in Hmax, Hfirst.
  exists dir. repeat split; try assumption.
  intros Hn Hsp j Hj.
  apply Forall_cons in Hn as [Hn0 Hn]. apply Forall_cons in Hn as [Hn1 Hn].
  apply Forall_cons in Hn as [Hn2 _].
  apply Forall_cons in Hsp as [Hs0 Hsp]. apply Forall_cons in Hsp as [Hs1 Hsp].
  apply Forall_cons in Hsp as [Hs2 _].
  specialize (Hmax j Hj). clearbody dir. unfold dd in Hmax. unfold samples.
  destruct dir as [|[|[|dir]]]; [| | |lia];
    destruct j as [|[|[|j]]]; try lia; cbn [nth] in *;
    apply np_div_extent; assumption.
Qed.

Lemma body_direction_witness :
  let data := full [4; 5; 6]%nat 0%Z in
  shape data = [4; 5; 6]%nat /\
  body data (1, 2, 2)%Z = Ok ((2, 2, 2)%Z, 18%Z) /\
  exists dir,
    (dir < 3)%nat /\ (2, 2, 2)%Z = increment dir (1, 2, 2)%Z /\
    (forall j, (j < 3)%nat ->
       nth j [np_div 4 1; np_div 5 2; np_div 6 2] 0
       <= nth dir [np_div 4 1; np_div 5 2; np_div 6 2] 0) /\
    (forall j, (j < dir)%nat ->
       nth j [np_div 4 1; np_div 5 2; np_div 6 2] 0
       < nth dir [np_div 4 1; np_div 5 2; np_div 6 2] 0) /\
    (Forall (fun n => (Z.of_nat n < 2 ^ 53)%Z) [4; 5; 6]%nat ->
     Forall (fun s => (1 <= s <= 2 ^ 53)%Z) [1; 2; 2]%Z ->
     forall j, (j < 3)%nat ->
       (nth j [extent 4 1; extent 5 2; extent 6 2] 0
        <= nth dir [extent 4 1; extent 5 2; extent 6 2] 0)%nat).
Proof.
  intros data.
  assert (H1 : shape data = [4; 5; 6]%nat) by reflexivity.
  assert (H2 : body data (1, 2, 2)%Z = Ok ((2, 2, 2)%Z, 18%Z))
    by (vm_compute; reflexivity).
  split; [exact H1|]. split; [exact H2|].
  exact (body_direction data 4 5 6 1 2 2 (2, 2, 2)%Z 18 H1 H2).
Defined.

(** C5, the claim as it stands, fails on the second pass over a volume of
    3 x 2 x 1 voxels: with the spacing [[2, 1, 1]] the axes 0 and 1 both have
    two samples, the claim names axis 0, and the quotients 1.5 and 2 make the
    code increment axis 1. *)
Lemma body_direction_tie :
  let data := full [3; 2; 1]%nat 0%Z in
  body data (1, 1, 1)%Z = Ok ((2, 1, 1)%Z, 4%Z) /\
  body data (2, 1, 1)%Z = Ok (increment 1 (2, 1, 1)%Z, 2%Z) /\
  ideal_spacing 2 data 3 = Some (Ok (2, 2, 1)%Z) /\
  [extent 3 2; extent 2 1; extent 1 1] = [2; 2; 1]%nat /\
  largest_extent_dir (3, 2, 1)%nat (2, 1, 1)%Z = 0%nat /\
  increment 1 (2, 1, 1)%Z <> increment (largest_extent_dir (3, 2, 1)%nat (2, 1, 1)%Z) (2, 1, 1)%Z.
Proof.
  cbv zeta. repeat split; try (vm_compute; reflexivity).
  vm_compute. discriminate.
Qed.

(** ** Termination *)

Section Termination.
Variables (data : ndarray Z) (n0 n1 n2 : nat).
Hypothesis Hshape : shape data = [n0; n1; n2].
Hypothesis Hn0 : (Z.of_nat n0 < 2 ^ 53 - 1)%Z.
Hypothesis Hn1 : (Z.of_nat n1 < 2 ^ 53 - 1)%Z.
Hypothesis Hn2 : (Z.of_nat n2 < 2 ^ 53 - 1)%Z.

Lemma quotient_cases (n : nat) (s : Z) :
  (Z.of_nat n < 2 ^ 53 - 1)%Z -> (1 <= s <= Z.max (Z.of_nat n) 1)%Z ->
  ((s < Z.of_nat n)%Z -> 1 < np_div (Z.of_nat n) s) /\
  ((Z.of_nat n <= s)%Z -> np_div (Z.of_nat n) s <= 1).
Proof.
  intros Hn Hs. split; intros H.
  - apply np_div_gt_1; lia.
  - apply np_div_le_1; lia.
Qed.

(** While an axis is longer than its stride, the axis that is chosen is. *)
Lemma chosen_axis_longer (s0 s1 s2 : Z) :
  in_range n0 n1 n2 (s0, s1, s2) ->
  (s0 < Z.of_nat n0 \/ s1 < Z.of_nat n1 \/ s2 < Z.of_nat n2)%Z ->
  let dir := choose_dir (np_div (Z.of_nat n0) s0, np_div (Z.of_nat n1) s1,
                         np_div (Z.of_nat n2) s2) in
  (nth dir [s0; s1; s2] 0 < nth dir [Z.of_nat n0; Z.of_nat n1; Z.of_nat n2] 0)%Z.
Proof.
  intros (R0 & R1 & R2) Hj dir.
  destruct (choose_dir_argmax (np_div (Z.of_nat n0) s0) (np_div (Z.of_nat n1) s1)
              (np_div (Z.of_nat n2) s2)) as (Hlt & Hmax & _).
  fold dir in Hlt, Hmax.
  destruct (quotient_cases n0 s0 Hn0 R0) as [G0 L0].
  destruct (quotient_cases n1 s1 Hn1 R1) as [G1 L1].
  destruct (quotient_cases n2 s2 Hn2 R2) as [G2 L2].
  pose proof (Hmax 0%nat ltac:(lia)) as M0.
  pose proof (Hmax 1%nat ltac:(lia)) as M1.
  pose proof (Hmax 2%nat ltac:(lia)) as M2.
  clearbody dir. cbn [nth] in M0, M1, M2.
  destruct dir as [|[|[|dir]]]; [| | |lia]; cbn [nth] in *.
  - destruct (Z.lt_ge_cases s0 (Z.of_nat n0)) as [H|H]; [exact H|exfalso].
    specialize (L0 ltac:(lia)).
    destruct Hj as [H0|[H1|H2]]; [lia | specialize (G1 H1); lra | specialize (G2 H2); lra].
  - destruct (Z.lt_ge_cases s1 (Z.of_nat n1)) as [H|H]; [exact H|exfalso].
    specialize (L1 ltac:(lia)).
    destruct Hj as [H0|[H1|H2]]; [specialize (G0 H0); lra | lia | specialize (G2 H2); lra].
  - destruct (Z.lt_ge_cases s2 (Z.of_nat n2)) as [H|H]; [exact H|exfalso].
    specialize (L2 ltac:(lia)).
    destruct Hj as [H0|[H1|H2]]; [specialize (G0 H0); lra | specialize (G1 H1); lra | lia].
Qed.

Lemma succ_uint_small (s : Z) : (0 <= s < 2 ^ 53)%Z -> succ_uint s = (s + 1)%Z.
Proof.
  intros H. unfold succ_uint, uint_modulus. apply Z.mod_small.
  change (2 ^ 64)%Z with 18446744073709551616%Z.
  change (2 ^ 53)%Z with 9007199254740992%Z in H. lia.
Qed.

(** A view of two elements or more has an axis longer than its stride. *)
Lemma view_two (s0 s1 s2 : Z) (v : list Z) :
  in_range n0 n1 n2 (s0, s1, s2) -> view data (s0, s1, s2) = Ok v -> (2 <= length v)%nat ->
  (s0 < Z.of_nat n0 \/ s1 < Z.of_nat n1 \/ s2 < Z.of_nat n2)%Z.
Proof.
  intros (R0 & R1 & R2) Hv Hl.
  destruct (view_length data n0 n1 n2 s0 s1 s2 Hshape) as (v' & Hv' & Hlen); try lia.
  rewrite Hv in Hv'. injection Hv' as <-.
  destruct (Z.lt_ge_cases s0 (Z.of_nat n0)) as [H0|H0]; [left; exact H0|].
  destruct (Z.lt_ge_cases s1 (Z.of_nat n1)) as [H1|H1]; [right; left; exact H1|].
  destruct (Z.lt_ge_cases s2 (Z.of_nat n2)) as [H2|H2]; [right; right; exact H2|].
  exfalso.
  pose proof (extent_small n0 (Z.to_nat s0) ltac:(lia) ltac:(lia)).
  pose proof (extent_small n1 (Z.to_nat s1) ltac:(lia) ltac:(lia)).
  pose proof (extent_small n2 (Z.to_nat s2) ltac:(lia) ltac:(lia)).
  set (e0 := extent n0 (Z.to_nat s0)) in *. set (e1 := extent n1 (Z.to_nat s1)) in *.
  set (e2 := extent n2 (Z.to_nat s2)) in *.
  assert (e1 * e2 <= 1)%nat by nia.
  assert (e0 * (e1 * e2) <= 1)%nat by nia.
  lia.
Qed.

(** A pass through the loop, while the view has two elements or more. *)
Lemma body_step (spacing : Z * Z * Z) (v : list Z) :
  in_range n0 n1 n2 spacing -> view data spacing = Ok v -> (2 <= length v)%nat ->
  exists spacing' v',
    body data spacing = Ok (spacing', count_nonneg v') /\
    view data spacing' = Ok v' /\ in_range n0 n1 n2 spacing' /\
    slack n0 n1 n2 spacing' = (slack n0 n1 n2 spacing - 1)%Z.
Proof.
  destruct spacing as [[s0 s1] s2]. intros R Hv Hl.
  pose proof (view_two s0 s1 s2 v R Hv Hl) as Hj.
  pose proof (chosen_axis_longer s0 s1 s2 R Hj) as Hdir. cbv zeta in Hdir.
  rewrite (body_eq data n0 n1 n2) by exact Hshape. cbv zeta.
  destruct (choose_dir_argmax (np_div (Z.of_nat n0) s0) (np_div (Z.of_nat n1) s1)
              (np_div (Z.of_nat n2) s2)) as (Hlt & _ & _).
  set (dir := choose_dir _) in *. clearbody dir.
  destruct R as (R0 & R1 & R2).
  destruct dir as [|[|[|dir]]]; [| | |lia]; cbn [nth increment] in *.
  - rewrite (succ_uint_small s0) by lia.
    destruct (view_length data n0 n1 n2 (s0 + 1) s1 s2 Hshape) as (v' & Hv' & _);
      try lia.
    exists (s0 + 1, s1, s2)%Z, v'. rewrite Hv'. cbn [mbind result_bind].
    split; [reflexivity|]. split; [reflexivity|].
    split; [unfold in_range; lia | unfold slack; lia].
  - rewrite (succ_uint_small s1) by lia.
    destruct (view_length data n0 n1 n2 s0 (s1 + 1) s2 Hshape) as (v' & Hv' & _);
      try lia.
    exists (s0, s1 + 1, s2)%Z, v'. rewrite Hv'. cbn [mbind result_bind].
    split; [reflexivity|]. split; [reflexivity|].
    split; [unfold in_range; lia | unfold slack; lia].
  - rewrite (succ_uint_small s2) by lia.
    destruct (view_length data n0 n1 n2 s0 s1 (s2 + 1) Hshape) as (v' & Hv' & _);
      try lia.
    exists (s0, s1, s2 + 1)%Z, v'. rewrite Hv'. cbn [mbind result_bind].
    split; [reflexivity|]. split; [reflexivity|].
    split; [unfold in_range; lia | unfold slack; lia].
Qed.

Lemma slack_nonneg (spacing : Z * Z * Z) : in_range n0 n1 n2 spacing -> (0 <= slack n0 n1 n2 spacing)%Z.
Proof. destruct spacing as [[s0 s1] s2]. intros (R0 & R1 & R2). simpl. lia. Qed.

(** The loop ends, with a view that is within the target. *)
Lemma tune_terminates (npoints : Z) (fuel : nat) :
  (1 <= npoints)%Z ->
  forall (spacing : Z * Z * Z) (v : list Z),
    in_range n0 n1 n2 spacing -> (slack n0 n1 n2 spacing <= Z.of_nat fuel)%Z ->
    view data spacing = Ok v ->
    exists spacing' v',
      tune fuel data npoints spacing (count_nonneg v) = Some (Ok spacing') /\
      view data spacing' = Ok v' /\ (count_nonneg v' <= npoints)%Z.
Proof.
  intros Hnp. induction fuel as [|fuel IH]; intros spacing v R Hsl Hv.
  - pose proof (slack_nonneg spacing R) as S0.
    unfold tune. destruct (npoints <? count_nonneg v)%Z eqn:E.
    + exfalso. apply Z.ltb_lt in E.
      pose proof (count_nonneg_le v) as Hc.
      destruct (body_step spacing v R Hv) as (sp' & v' & _ & _ & R' & Hs'); [lia|].
      pose proof (slack_nonneg sp' R'). lia.
    + apply Z.ltb_ge in E. exists spacing, v. repeat split; assumption.
  - cbn [tune]. destruct (npoints <? count_nonneg v)%Z eqn:E.
    + apply Z.ltb_lt in E. pose proof (count_nonneg_le v) as Hc.
      destruct (body_step spacing v R Hv) as (sp' & v' & Hb & Hv' & R' & Hs'); [lia|].
      rewrite Hb. apply (IH sp' v' R'); [lia | exact Hv'].
    + apply Z.ltb_ge in E. exists spacing, v. repeat split; assumption.
Qed.

End Termination.

(** A loop that has ended within some number of passes has ended within any
    larger number, with the same result. *)
Lemma tune_more_fuel (fuel : nat) (data : ndarray Z) (npoints : Z)
  (spacing : Z * Z * Z) (actual : Z) (r : result (Z * Z * Z)) :
  tune fuel data npoints spacing actual = Some r ->
  tune (S fuel) data npoints spacing actual = Some r.
Proof.
  revert spacing actual. induction fuel as [|fuel IH]; intros spacing actual.
  - cbn [tune]. destruct (npoints <? actual)%Z; [discriminate | trivial].
  - intros H. cbn [tune] in H. change (tune (S (S fuel)) data npoints spacing actual)
      with (if (npoints <? actual)%Z
            then match body data spacing with
                 | Ok (spacing', actual') => tune (S fuel) data npoints spacing' actual'
                 | Raise e => Some (Raise e)
                 end
            else Some (Ok spacing)).
    destruct (npoints <? actual)%Z; [|exact H].
    destruct (body data spacing) as [[sp' a']|e]; [|exact H].
    apply IH, H.
Qed.

Lemma tune_fuel_le (fuel fuel' : nat) (data : ndarray Z) (npoints : Z)
  (spacing : Z * Z * Z) (actual : Z) (r : result (Z * Z * Z)) :
  (fuel <= fuel')%nat ->
  tune fuel data npoints spacing actual = Some r ->
  tune fuel' data npoints spacing actual = Some r.
Proof.
  intros Hle H. induction Hle as [|m _ IH]; [exact H|].
  apply tune_more_fuel, IH.
Qed.

(** C4 (as amended). For every three-dimensional volume and every target of
    one voxel or more, the loop of [ideal_spacing] ends (after a number of
    passes that the lengths of the axes bound), and the view with the spacing
    that it returns has at most the target number of non-negative voxels. A
    volume without a non-negative voxel gets the spacing [[1, 1, 1]] without a
    pass through the loop. *)
Theorem ideal_spacing_terminates (data : ndarray Z) (n0 n1 n2 : nat) (npoints : Z) :
  shape data = [n0; n1; n2] -> well_formed data ->
  Forall (fun n => (Z.of_nat n < 2 ^ 53 - 1)%Z) [n0; n1; n2] ->
  (1 <= npoints)%Z ->
  (exists passes spacing v,
     (forall fuel, (passes <= fuel)%nat ->
        ideal_spacing fuel data npoints = Some (Ok spacing)) /\
     view data spacing = Ok v /\ (count_nonneg v <= npoints)%Z) /\
  (count_nonneg (flat data) = 0%Z ->
   ideal_spacing 0 data npoints = Some (Ok (1, 1, 1)%Z)).
Proof.
  intros Hs Hw Hn Hnp.
  apply Forall_cons in Hn as [Hn0 Hn]. apply Forall_cons in Hn as [Hn1 Hn].
  apply Forall_cons in Hn as [Hn2 _].
  pose proof (view_ones data n0 n1 n2 Hs Hw) as Hv.
  split.
  - assert (R : in_range n0 n1 n2 (1, 1, 1)%Z) by (unfold in_range; lia).
    pose proof (slack_nonneg n0 n1 n2 _ R) as S0.
    destruct (tune_terminates data n0 n1 n2 Hs Hn0 Hn1 Hn2 npoints
                (Z.to_nat (slack n0 n1 n2 (1, 1, 1)%Z)) Hnp (1, 1, 1)%Z (flat data) R)
      as (sp & v & Ht & Hv' & Hc); [lia | exact Hv |].
    exists (Z.to_nat (slack n0 n1 n2 (1, 1, 1)%Z)), sp, v.
    split; [|split; assumption].
    intros fuel Hfuel. unfold ideal_spacing.
    apply (tune_fuel_le _ _ _ _ _ _ _ Hfuel Ht).
  - intros H0. unfold ideal_spacing, tune. rewrite H0.
    destruct (npoints <? 0)%Z eqn:E; [apply Z.ltb_lt in E; lia | reflexivity].
Qed.

Lemma ideal_spacing_terminates_witness :
  let data := full [4; 5; 6]%nat 0%Z in
  shape data = [4; 5; 6]%nat /\ well_formed data /\
  Forall (fun n => (Z.of_nat n < 2 ^ 53 - 1)%Z) [4; 5; 6]%nat /\
  (1 <= 10)%Z /\
  (exists passes spacing v,
     (forall fuel, (passes <= fuel)%nat ->
        ideal_spacing fuel data 10 = Some (Ok spacing)) /\
     view data spacing = Ok v /\ (count_nonneg v <= 10)%Z) /\
  (count_nonneg (flat data) = 0%Z ->
   ideal_spacing 0 data 10 = Some (Ok (1, 1, 1)%Z)).
Proof.
  intros data.
  assert (H1 : shape data = [4; 5; 6]%nat) by reflexivity.
  assert (H2 : well_formed data) by reflexivity.
  assert (H3 : Forall (fun n => (Z.of_nat n < 2 ^ 53 - 1)%Z) [4; 5; 6]%nat)
    by (repeat constructor).
  assert (H4 : (1 <= 10)%Z) by lia.
  split; [exact H1|]. split; [exact H2|]. split; [exact H3|]. split; [exact H4|].
  exact (ideal_spacing_terminates data 4 5 6 10 H1 H2 H3 H4).
Defined.

(** C4, the claim as it stands, fails for the target zero: on a volume of one
    voxel with the value 0 every view holds that voxel, and the loop never
    returns a spacing. *)
Lemma tune_one_voxel (fuel : nat) (s0 s1 s2 : Z) (spacing : Z * Z * Z) :
  (1 <= s0)%Z -> (1 <= s1)%Z -> (1 <= s2)%Z ->
  tune fuel (full [1; 1; 1]%nat 0%Z) 0 (s0, s1, s2) 1 <> Some (Ok spacing).
Proof.
  revert s0 s1 s2. induction fuel as [|fuel IH]; intros s0 s1 s2 H0 H1 H2;
    [discriminate|].
  cbn [tune]. change (0 <? 1)%Z with true. cbn iota.
  rewrite (body_eq _ 1 1 1) by reflexivity. cbv zeta.
  assert (V : forall t0 t1 t2, (0 <= t0)%Z -> (0 <= t1)%Z -> (0 <= t2)%Z ->
            view (full [1; 1; 1]%nat 0%Z) (t0, t1, t2) = Raise ValueError \/
            ((1 <= t0)%Z /\ (1 <= t1)%Z /\ (1 <= t2)%Z /\
             view (full [1; 1; 1]%nat 0%Z) (t0, t1, t2) = Ok [0%Z])).
  { intros t0 t1 t2 T0 T1 T2. unfold view. cbn [shape full].
    destruct (Z.eqb_spec t0 0); [left; reflexivity|].
    destruct (Z.eqb_spec t1 0); [left; reflexivity|].
    destruct (Z.eqb_spec t2 0); [left; reflexivity|].
    right. repeat split; try lia. cbn [orb]. f_equal.
    assert (E : forall t, (1 <= t)%Z -> strided 1 (Z.to_nat t) = [0%nat]).
    { intros t Ht. unfold strided, extent.
      replace (1 + Z.to_nat t - 1)%nat with (Z.to_nat t) by lia.
      rewrite Nat.div_same by lia. reflexivity. }
    rewrite !E by lia. reflexivity. }
  assert (U : forall s, (0 <= succ_uint s)%Z).
  { intros s. unfold succ_uint, uint_modulus. apply Z.mod_pos_bound. reflexivity. }
  destruct (choose_dir _) as [|[|dir]]; cbn [increment].
  - destruct (V (succ_uint s0) s1 s2) as [E|(T0 & T1 & T2 & E)]; try lia; [apply U| |];
      rewrite E; cbn [mbind result_bind]; [discriminate|].
    apply IH; assumption.
  - destruct (V s0 (succ_uint s1) s2) as [E|(T0 & T1 & T2 & E)]; try lia; [apply U| |];
      rewrite E; cbn [mbind result_bind]; [discriminate|].
    apply IH; assumption.
  - destruct (V s0 s1 (succ_uint s2)) as [E|(T0 & T1 & T2 & E)]; try lia; [apply U| |];
      rewrite E; cbn [mbind result_bind]; [discriminate|].
    apply IH; assumption.
Qed.

Lemma ideal_spacing_zero_target :
  ~ exists fuel spacing,
      ideal_spacing fuel (full [1; 1; 1]%nat 0%Z) 0 = Some (Ok spacing).
Proof.
  intros (fuel & spacing & H). unfold ideal_spacing in H.
  change (count_nonneg (flat (full [1; 1; 1]%nat 0%Z))) with 1%Z in H.
  revert H. apply tune_one_voxel; lia.
Qed.

(** ** Examples *)

Example view_strided :
  view (NDArray [3; 2; 2]%nat [1; 2; 3; 4; 5; 6; 7; 8; 9; 10; 11; 12]%Z) (2, 1, 2)%Z
    = Ok [1; 3; 9; 11]%Z.
Proof. vm_compute. reflexivity. Qed.

Example ideal_spacing_4_5_6 :
  ideal_spacing 10 (full [4; 5; 6]%nat 0%Z) 10 = Some (Ok (2, 3, 3)%Z).
Proof. vm_compute. reflexivity. Qed.

Example ideal_spacing_masked :
  ideal_spacing 0 (full [3; 3; 3]%nat (-1)%Z) 64 = Some (Ok (1, 1, 1)%Z).
Proof. vm_compute. reflexivity. Qed.

(** ** The strides that come out *)

Section Strides.
Variables (data : ndarray Z) (n0 n1 n2 : nat).
Hypothesis Hshape : shape data = [n0; n1; n2].
Hypothesis Hn0 : (Z.of_nat n0 < 2 ^ 53 - 1)%Z.
Hypothesis Hn1 : (Z.of_nat n1 < 2 ^ 53 - 1)%Z.
Hypothesis Hn2 : (Z.of_nat n2 < 2 ^ 53 - 1)%Z.

(** The loop makes as many passes as the slack shrinks by, and is still
    running before the last of them. *)
Lemma tune_passes (npoints : Z) (fuel : nat) :
  (1 <= npoints)%Z ->
  forall (spacing : Z * Z * Z) (v : list Z),
    in_range n0 n1 n2 spacing -> (slack n0 n1 n2 spacing <= Z.of_nat fuel)%Z ->
    view data spacing = Ok v ->
    exists (k : nat) spacing' v',
      (forall f, (k <= f)%nat ->
         tune f data npoints spacing (count_nonneg v) = Some (Ok spacing')) /\
      (forall f, (f < k)%nat ->
         tune f data npoints spacing (count_nonneg v) = None) /\
      in_range n0 n1 n2 spacing' /\
      slack n0 n1 n2 spacing' = (slack n0 n1 n2 spacing - Z.of_nat k)%Z /\
      view data spacing' = Ok v' /\ (count_nonneg v' <= npoints)%Z.
Proof.
  intros Hnp.
  assert (Stop : forall spacing v,
            in_range n0 n1 n2 spacing -> view data spacing = Ok v ->
            (npoints <? count_nonneg v)%Z = false ->
            exists (k : nat) spacing' v',
              (forall f, (k <= f)%nat ->
                 tune f data npoints spacing (count_nonneg v) = Some (Ok spacing')) /\
              (forall f, (f < k)%nat ->
                 tune f data npoints spacing (count_nonneg v) = None) /\
              in_range n0 n1 n2 spacing' /\
              slack n0 n1 n2 spacing' = (slack n0 n1 n2 spacing - Z.of_nat k)%Z /\
              view data spacing' = Ok v' /\ (count_nonneg v' <= npoints)%Z).
  { intros spacing v R Hv E. exists 0%nat, spacing, v.
    split; [intros [|f] _; cbn [tune]; rewrite E; reflexivity|].
    split; [intros f Hf; lia|].
    split; [exact R|]. split; [simpl; lia|]. split; [exact Hv|].
    apply Z.ltb_ge, E. }
  induction fuel as [|fuel IH]; intros spacing v R Hsl Hv.
  - pose proof (slack_nonneg n0 n1 n2 spacing R) as S0.
    destruct (npoints <? count_nonneg v)%Z eqn:E; [|apply Stop; assumption].
    exfalso. apply Z.ltb_lt in E.
    pose proof (count_nonneg_le v) as Hc.
    destruct (body_step data n0 n1 n2 Hshape Hn0 Hn1 Hn2 spacing v R Hv)
      as (sp' & v' & _ & _ & R' & Hs'); [lia|].
    pose proof (slack_nonneg n0 n1 n2 sp' R'). lia.
  - destruct (npoints <? count_nonneg v)%Z eqn:E; [|apply Stop; assumption].
    pose proof E as E'. apply Z.ltb_lt in E'. pose proof (count_nonneg_le v) as Hc.
    destruct (body_step data n0 n1 n2 Hshape Hn0 Hn1 Hn2 spacing v R Hv)
      as (sp1 & v1 & Hb & Hv1 & R1 & Hs1); [lia|].
    destruct (IH sp1 v1 R1) as (k & sp' & v' & Hge & Hlt & R' & Hs' & Hv' & Hc');
      [lia | exact Hv1 |].
    exists (S k), sp', v'.
    split.
    { intros [|f] Hf; [lia|]. cbn [tune]. rewrite E, Hb. apply Hge. lia. }
    split.
    { intros [|f] Hf; cbn [tune]; rewrite E; [reflexivity|].
      rewrite Hb. apply Hlt. lia. }
    split; [exact R'|]. split; [lia|]. split; assumption.
Qed.

End Strides.

(** X8. For a target of one voxel at least, [ideal_spacing] makes exactly
    [s0 + s1 + s2 - 3] passes of its loop, where [s0, s1, s2] are the strides
    that it returns, and every stride lies between 1 and the length of its
    axis (1 for an axis of length zero). *)
Theorem ideal_spacing_strides (data : ndarray Z) (n0 n1 n2 : nat) (npoints : Z) :
  shape data = [n0; n1; n2] -> well_formed data ->
  Forall (fun n => (Z.of_nat n < 2 ^ 53 - 1)%Z) [n0; n1; n2] ->
  (1 <= npoints)%Z ->
  exists (passes : nat) (s0 s1 s2 : Z),
    (forall fuel, (passes <= fuel)%nat ->
       ideal_spacing fuel data npoints = Some (Ok (s0, s1, s2))) /\
    (forall fuel, (fuel < passes)%nat -> ideal_spacing fuel data npoints = None) /\
    in_range n0 n1 n2 (s0, s1, s2) /\
    Z.of_nat passes = (s0 + s1 + s2 - 3)%Z.
Proof.
  intros Hshape Hwf Hn Hnp.
  apply Forall_cons in Hn as [Hn0 Hn]. apply Forall_cons in Hn as [Hn1 Hn].
  apply Forall_cons in Hn as [Hn2 _].
  assert (R : in_range n0 n1 n2 (1, 1, 1)%Z) by (unfold in_range; lia).
  pose proof (slack_nonneg n0 n1 n2 _ R) as S0.
  destruct (tune_passes data n0 n1 n2 Hshape Hn0 Hn1 Hn2 npoints
              (Z.to_nat (slack n0 n1 n2 (1, 1, 1)%Z)) Hnp (1, 1, 1)%Z (flat data) R)
    as (k & [[s0 s1] s2] & v' & Hge & Hlt & R' & Hs' & _ & _);
    [lia | apply (view_ones data n0 n1 n2); assumption |].
  exists k, s0, s1, s2. unfold ideal_spacing.
  split; [exact Hge|]. split; [exact Hlt|]. split; [exact R'|].
  unfold slack in Hs'. lia.
Qed.

Lemma ideal_spacing_strides_witness :
  let data := full [4; 5; 6]%nat 0%Z in
  shape data = [4; 5; 6]%nat /\ well_formed data /\
  Forall (fun n => (Z.of_nat n < 2 ^ 53 - 1)%Z) [4; 5; 6]%nat /\ (1 <= 10)%Z /\
  exists (passes : nat) (s0 s1 s2 : Z),
    (forall fuel, (passes <= fuel)%nat ->
       ideal_spacing fuel data 10 = Some (Ok (s0, s1, s2))) /\
    (forall fuel, (fuel < passes)%nat -> ideal_spacing fuel data 10 = None) /\
    in_range 4 5 6 (s0, s1, s2) /\
    Z.of_nat passes = (s0 + s1 + s2 - 3)%Z.
Proof.
  intros data.
  assert (H1 : shape data = [4; 5; 6]%nat) by reflexivity.
  assert (H2 : well_formed data) by reflexivity.
  assert (H3 : Forall (fun n => (Z.of_nat n < 2 ^ 53 - 1)%Z) [4; 5; 6]%nat).
  { repeat constructor; simpl; lia. }
  assert (H4 : (1 <= 10)%Z) by lia.
  split; [exact H1|]. split; [exact H2|]. split; [exact H3|]. split; [exact H4|].
  exact (ideal_spacing_strides data 4 5 6 10 H1 H2 H3 H4).
Defined.

(** ** Targets below one *)

Lemma body_count (data : ndarray Z) (spacing spacing' : Z * Z * Z) (c : Z) :
  body data spacing = Ok (spacing', c) ->
  exists v, view data spacing' = Ok v /\ c = count_nonneg v.
Proof.
  unfold body. destruct (ddims (shape data) spacing) as [dd|]; [|discriminate].
  cbn [mbind result_bind].
  destruct (view data (increment (choose_dir dd) spacing)) as [v|] eqn:E; [|discriminate].
  cbn [mbind result_bind]. intros [= <- <-]. exists v. split; [exact E | reflexivity].
Qed.

Lemma count_nonneg_nonneg (l : list Z) : (0 <= count_nonneg l)%Z.
Proof. unfold count_nonneg. lia. Qed.

Lemma count_nonneg_head (x : Z) (l : list Z) : (0 <= x)%Z -> (1 <= count_nonneg (x :: l))%Z.
Proof.
  intros H. unfold count_nonneg. rewrite filter_cons.
  destruct (decide (0 <= x)%Z); [simpl; lia | contradiction].
Qed.

Lemma extent_pos (n s : nat) : (1 <= n)%nat -> (1 <= s)%nat -> (1 <= extent n s)%nat.
Proof.
  intros Hn Hs. unfold extent.
  apply Nat.div_le_lower_bound; lia.
Qed.

Lemma strided_head (n s : nat) :
  (1 <= n)%nat -> (1 <= s)%nat -> exists l, strided n s = 0%nat :: l.
Proof.
  intros Hn Hs. unfold strided. pose proof (extent_pos n s Hn Hs) as He.
  destruct (extent n s) as [|e]; [lia|]. simpl. eauto.
Qed.

(** Every view of a volume that has a voxel starts with the voxel [0, 0, 0]. *)
Lemma view_head (data : ndarray Z) (n0 n1 n2 : nat) (s0 s1 s2 : Z) (v : list Z) :
  shape data = [n0; n1; n2] -> (1 <= n0)%nat -> (1 <= n1)%nat -> (1 <= n2)%nat ->
  (0 <= s0)%Z -> (0 <= s1)%Z -> (0 <= s2)%Z ->
  view data (s0, s1, s2) = Ok v ->
  exists l, v = nth 0 (flat data) 0%Z :: l.
Proof.
  intros Hshape N0 N1 N2 S0 S1 S2. unfold view. rewrite Hshape.
  destruct (Z.eqb_spec s0 0); [discriminate|].
  destruct (Z.eqb_spec s1 0); [discriminate|].
  destruct (Z.eqb_spec s2 0); [discriminate|].
  cbn [orb]. intros [= <-].
  destruct (strided_head n0 (Z.to_nat s0)) as [l0 ->]; [lia..|].
  destruct (strided_head n1 (Z.to_nat s1)) as [l1 ->]; [lia..|].
  destruct (strided_head n2 (Z.to_nat s2)) as [l2 ->]; [lia..|].
  simpl. eauto.
Qed.

Lemma succ_uint_nonneg (s : Z) : (0 <= succ_uint s)%Z.
Proof. unfold succ_uint, uint_modulus. apply Z.mod_pos_bound. reflexivity. Qed.

Lemma increment_nonneg (dir : nat) (s0 s1 s2 : Z) :
  (0 <= s0)%Z -> (0 <= s1)%Z -> (0 <= s2)%Z ->
  let '(t0, t1, t2) := increment dir (s0, s1, s2) in
  (0 <= t0)%Z /\ (0 <= t1)%Z /\ (0 <= t2)%Z.
Proof.
  intros H0 H1 H2. pose proof succ_uint_nonneg.
  destruct dir as [|[|dir]]; cbn [increment]; auto.
Qed.

Lemma tune_negative (fuel : nat) (data : ndarray Z) (npoints : Z)
  (spacing sp : Z * Z * Z) (actual : Z) :
  (npoints < 0)%Z -> (0 <= actual)%Z ->
  tune fuel data npoints spacing actual <> Some (Ok sp).
Proof.
  intros Hn. revert spacing actual.
  induction fuel as [|fuel IH]; intros spacing actual Ha; cbn [tune];
    (destruct (npoints <? actual)%Z eqn:E; [|apply Z.ltb_ge in E; lia]);
    [discriminate|].
  destruct (body data spacing) as [[sp' c]|] eqn:B; [|discriminate].
  destruct (body_count _ _ _ _ B) as (v & _ & ->).
  apply IH, count_nonneg_nonneg.
Qed.

Lemma tune_zero (fuel : nat) (data : ndarray Z) (n0 n1 n2 : nat)
  (s0 s1 s2 : Z) (sp : Z * Z * Z) (actual : Z) :
  shape data = [n0; n1; n2] -> (1 <= n0)%nat -> (1 <= n1)%nat -> (1 <= n2)%nat ->
  (0 <= nth 0 (flat data) 0)%Z ->
  (0 <= s0)%Z -> (0 <= s1)%Z -> (0 <= s2)%Z -> (1 <= actual)%Z ->
  tune fuel data 0 (s0, s1, s2) actual <> Some (Ok sp).
Proof.
  intros Hshape N0 N1 N2 Hv. revert s0 s1 s2 actual.
  induction fuel as [|fuel IH]; intros s0 s1 s2 actual S0 S1 S2 Ha; cbn [tune];
    (destruct (0 <? actual)%Z eqn:E; [|apply Z.ltb_ge in E; lia]);
    [discriminate|].
  destruct (body data (s0, s1, s2)) as [[[[t0 t1] t2] c]|] eqn:B; [|discriminate].
  destruct (body_count _ _ _ _ B) as (v & Hview & ->).
  assert (T : (0 <= t0)%Z /\ (0 <= t1)%Z /\ (0 <= t2)%Z).
  { rewrite (body_eq data n0 n1 n2) in B by exact Hshape. cbv zeta in B.
    pose proof (increment_nonneg
                  (choose_dir (np_div (Z.of_nat n0) s0, np_div (Z.of_nat n1) s1,
                               np_div (Z.of_nat n2) s2)) s0 s1 s2 S0 S1 S2) as I.
    destruct (increment _ _) as [[u0 u1] u2].
    destruct (view data (u0, u1, u2)); [|discriminate].
    cbn [mbind result_bind] in B. injection B as <- <- <- _. exact I. }
  destruct T as (T0 & T1 & T2).
  destruct (view_head data n0 n1 n2 t0 t1 t2 v Hshape N0 N1 N2 T0 T1 T2 Hview) as [l ->].
  apply IH; try assumption. apply count_nonneg_head, Hv.
Qed.

(** X9. A target below one is never met: with a negative target, and with the
    target 0 on a volume whose voxel [0, 0, 0] is not masked, [ideal_spacing]
    returns no spacing, however many passes it is given. *)
Theorem ideal_spacing_no_return (data : ndarray Z) (npoints : Z) :
  (npoints < 0)%Z \/
  (npoints = 0%Z /\ well_formed data /\ (0 <= nth 0 (flat data) 0)%Z /\
   exists n0 n1 n2, shape data = [S n0; S n1; S n2]) ->
  forall fuel spacing, ideal_spacing fuel data npoints <> Some (Ok spacing).
Proof.
  intros [Hn|(-> & Hwf & Hv & n0 & n1 & n2 & Hshape)] fuel spacing; unfold ideal_spacing.
  - apply tune_negative; [exact Hn | apply count_nonneg_nonneg].
  - apply (tune_zero fuel data (S n0) (S n1) (S n2)); try assumption; try lia.
    unfold well_formed in Hwf. rewrite Hshape in Hwf.
    destruct (flat data) as [|x l]; [simpl in Hwf; lia|].
    apply count_nonneg_head, Hv.
Qed.

Lemma ideal_spacing_no_return_witness :
  let data := NDArray [1; 2; 2]%nat [3; -1; -1; -1]%Z in
  ((0 = 0)%Z /\ well_formed data /\ (0 <= nth 0 (flat data) 0)%Z /\
   exists n0 n1 n2, shape data = [S n0; S n1; S n2]) /\
  forall fuel spacing, ideal_spacing fuel data 0 <> Some (Ok spacing).
Proof.
  intros data.
  assert (H : (0 = 0)%Z /\ well_formed data /\ (0 <= nth 0 (flat data) 0)%Z /\
              exists n0 n1 n2, shape data = [S n0; S n1; S n2]).
  { split; [reflexivity|]. split; [reflexivity|]. split; [simpl; lia|].
    exists 0%nat, 1%nat, 1%nat. reflexivity. }
  split; [exact H|].
  exact (ideal_spacing_no_return data 0 (or_intror H)).
Defined.

(** ** Arrays that are enumerated by index *)

Lemma nth_bind_block {A B} (G : A -> list B) (l : list A) (c i k : nat) (a0 : A) (d : B) :
  (forall a, length (G a) = c) -> (i < length l)%nat -> (k < c)%nat ->
  nth (i * c + k) (l ≫= G) d = nth k (G (nth i l a0)) d.
Proof.
  intros HG. revert i. induction l as [|a l IH]; intros i Hi Hk; [simpl in Hi; lia|].
  change ((a :: l) ≫= G) with (G a ++ (l ≫= G)).
  destruct i as [|i].
  - simpl. apply app_nth1. rewrite HG. exact Hk.
  - rewrite app_nth2 by (rewrite HG; simpl; lia).
    rewrite HG. replace (S i * c + k - c)%nat with (i * c + k)%nat by (simpl; lia).
    simpl in Hi. rewrite IH by lia. reflexivity.
Qed.

Lemma index3_lt (m0 m1 m2 i j k : nat) :
  (i < m0)%nat -> (j < m1)%nat -> (k < m2)%nat ->
  ((i * m1 + j) * m2 + k < m0 * (m1 * m2))%nat.
Proof.
  intros Hi Hj Hk.
  assert (H1 : (i * m1 + j + 1 <= m0 * m1)%nat) by nia.
  assert (H2 : ((i * m1 + j + 1) * m2 <= m0 * m1 * m2)%nat)
    by (apply Nat.mul_le_mono_r; exact H1).
  lia.
Qed.

Section Enumerate.
Context {B : Type}.
Variables (F : nat -> nat -> nat -> B) (r0 r1 r2 : list nat).
Abbreviation enumerate := (enumerate F r0 r1 r2).

Lemma length_row (i j : nat) : length (k ← r2; [F i j k]) = length r2.
Proof. rewrite (length_bind_const _ _ 1%nat) by reflexivity. lia. Qed.

Lemma length_plane (i : nat) :
  length (j ← r1; k ← r2; [F i j k]) = (length r1 * length r2)%nat.
Proof. apply length_bind_const. intros j. apply length_row. Qed.

Lemma length_enumerate : length enumerate = (length r0 * (length r1 * length r2))%nat.
Proof. apply length_bind_const. intros i. apply length_plane. Qed.

Lemma nth_enumerate (i j k : nat) (d : B) :
  (i < length r0)%nat -> (j < length r1)%nat -> (k < length r2)%nat ->
  nth ((i * length r1 + j) * length r2 + k) enumerate d
  = F (nth i r0 0%nat) (nth j r1 0%nat) (nth k r2 0%nat).
Proof.
  intros Hi Hj Hk. unfold Subsampling.enumerate.
  replace ((i * length r1 + j) * length r2 + k)%nat
    with (i * (length r1 * length r2) + (j * length r2 + k))%nat by lia.
  rewrite (nth_bind_block _ r0 (length r1 * length r2) i _ 0%nat);
    [|intros a; apply length_plane | exact Hi | nia].
  rewrite (nth_bind_block _ r1 (length r2) j _ 0%nat);
    [|intros a; apply length_row | exact Hj | exact Hk].
  replace k with (k * 1 + 0)%nat at 1 by lia.
  rewrite (nth_bind_block _ r2 1 k 0 0%nat); [reflexivity | reflexivity | exact Hk | lia].
Qed.

Lemma lookup_enumerate (i j k : nat) :
  (i < length r0)%nat -> (j < length r1)%nat -> (k < length r2)%nat ->
  enumerate !! ((i * length r1 + j) * length r2 + k)%nat
  = Some (F (nth i r0 0%nat) (nth j r1 0%nat) (nth k r2 0%nat)).
Proof.
  intros Hi Hj Hk.
  assert (L : ((i * length r1 + j) * length r2 + k < length enumerate)%nat).
  { rewrite length_enumerate. apply index3_lt; assumption. }
  destruct (lookup_lt_is_Some_2 _ _ L) as [x Hx]. rewrite Hx. f_equal.
  rewrite <- (nth_enumerate i j k x Hi Hj Hk). symmetry.
  apply nth_lookup_Some with (d := x) in Hx. exact Hx.
Qed.

End Enumerate.

Lemma bind_ext_in {A B} (f g : A -> list B) (l : list A) :
  (forall x, x ∈ l -> f x = g x) -> l ≫= f = l ≫= g.
Proof.
  induction l as [|a l IH]; intros H; [reflexivity|].
  change ((a :: l) ≫= f) with (f a ++ (l ≫= f)).
  change ((a :: l) ≫= g) with (g a ++ (l ≫= g)).
  rewrite H by left. rewrite IH; [reflexivity|].
  intros x Hx. apply H. right. exact Hx.
Qed.

Lemma bind_map {A B C} (h : A -> B) (f : B -> list C) (l : list A) :
  map h l ≫= f = l ≫= (fun x => f (h x)).
Proof.
  induction l as [|a l IH]; [reflexivity|].
  change (map h (a :: l) ≫= f) with (f (h a) ++ (map h l ≫= f)).
  rewrite IH. reflexivity.
Qed.

(** ** Slices *)

Lemma strided_lt (m s x : nat) : x ∈ strided m s -> (x < m)%nat.
Proof.
  unfold strided. intros H. apply list_elem_of_In, in_map_iff in H as (q & <- & Hq).
  apply in_seq in Hq. destruct s as [|s].
  - unfold extent in Hq. simpl in Hq. lia.
  - destruct (Nat.lt_ge_cases (q * S s) m) as [L|L]; [exact L|].
    assert (extent m (S s) <= q)%nat by (apply extent_le_iff; lia). lia.
Qed.

Lemma slice_indices_strided (n : nat) (sl : slice) :
  slice_indices n sl =
    map (fun t => (Nat.min (slice_start sl) n + t)%nat)
      (strided (Nat.min (slice_stop sl) n - Nat.min (slice_start sl) n)
         (Z.to_nat (slice_step sl))).
Proof. unfold slice_indices, strided. rewrite map_map. reflexivity. Qed.

Lemma length_slice_indices (n : nat) (sl : slice) :
  length (slice_indices n sl) =
    extent (Nat.min (slice_stop sl) n - Nat.min (slice_start sl) n)
      (Z.to_nat (slice_step sl)).
Proof. unfold slice_indices. rewrite length_map, length_seq. reflexivity. Qed.

Lemma nth_slice_indices (n : nat) (sl : slice) (q : nat) :
  (q < length (slice_indices n sl))%nat ->
  nth q (slice_indices n sl) 0%nat
  = (Nat.min (slice_start sl) n + q * Z.to_nat (slice_step sl))%nat.
Proof.
  intros Hq. rewrite length_slice_indices in Hq. unfold slice_indices.
  set (g := fun q => (Nat.min (slice_start sl) n + q * Z.to_nat (slice_step sl))%nat).
  rewrite (nth_indep _ 0%nat (g 0%nat)) by (rewrite length_map, length_seq; exact Hq).
  rewrite map_nth, seq_nth by exact Hq. reflexivity.
Qed.

(** The indices of a slice are indices of the axis. *)
Lemma slice_indices_lt (n : nat) (sl : slice) (x : nat) :
  x ∈ slice_indices n sl -> (x < n)%nat.
Proof.
  rewrite slice_indices_strided. intros H.
  apply list_elem_of_In, in_map_iff in H as (t & <- & Ht).
  apply list_elem_of_In, strided_lt in Ht. lia.
Qed.

(** A slice of step one is the interval between its bounds. *)
Lemma slice_indices_1 (n a b : nat) :
  slice_indices n (Slice a b 1) = map (fun t => (Nat.min a n + t)%nat)
                                      (seq 0 (Nat.min b n - Nat.min a n)).
Proof. rewrite slice_indices_strided. cbn [slice_start slice_stop slice_step].
  change (Z.to_nat 1) with 1%nat. rewrite strided_1. reflexivity. Qed.

Lemma getitem_slices_ok (n0 n1 n2 : nat) (l : list Z) (a0 a1 a2 : slice) :
  slice_step a0 <> 0%Z -> slice_step a1 <> 0%Z -> slice_step a2 <> 0%Z ->
  getitem_slices n0 n1 n2 l (a0, a1, a2) =
    Ok (NDArray [length (slice_indices n0 a0); length (slice_indices n1 a1);
                 length (slice_indices n2 a2)]
          (enumerate (fun i j k => nth ((i * n1 + j) * n2 + k) l 0%Z)
             (slice_indices n0 a0) (slice_indices n1 a1) (slice_indices n2 a2))).
Proof.
  intros H0 H1 H2. unfold getitem_slices.
  rewrite (proj2 (Z.eqb_neq _ 0) H0), (proj2 (Z.eqb_neq _ 0) H1),
    (proj2 (Z.eqb_neq _ 0) H2).
  reflexivity.
Qed.

Lemma getitem_slices_zero (n0 n1 n2 : nat) (l : list Z) (a0 a1 a2 : slice) :
  slice_step a0 = 0%Z \/ slice_step a1 = 0%Z \/ slice_step a2 = 0%Z ->
  getitem_slices n0 n1 n2 l (a0, a1, a2) = Raise ValueError.
Proof.
  intros H. unfold getitem_slices.
  destruct (Z.eqb_spec (slice_step a0) 0); [reflexivity|].
  destruct (Z.eqb_spec (slice_step a1) 0); [reflexivity|].
  destruct (Z.eqb_spec (slice_step a2) 0); [reflexivity|].
  exfalso. tauto.
Qed.

(** What [getitem_slices] returns has the elements that its shape says. *)
Lemma getitem_slices_well_formed (n0 n1 n2 : nat) (l : list Z)
  (sl : slice * slice * slice) (fov : ndarray Z) :
  getitem_slices n0 n1 n2 l sl = Ok fov ->
  well_formed fov /\ exists d0 d1 d2, shape fov = [d0; d1; d2].
Proof.
  destruct sl as [[a0 a1] a2]. unfold getitem_slices.
  destruct (_ || _ || _)%bool; [discriminate|]. intros [= <-].
  split; [|eauto]. unfold well_formed. cbn [shape flat size foldr].
  rewrite (length_enumerate _ (slice_indices n0 a0) (slice_indices n1 a1)
             (slice_indices n2 a2)).
  lia.
Qed.

(** The values of a slicing are values of the array, or the 0 that a lookup
    past the elements gives. *)
Lemma Forall_getitem_slices (P : Z -> Prop) (n0 n1 n2 : nat) (l : list Z)
  (sl : slice * slice * slice) (fov : ndarray Z) :
  Forall P l -> P 0%Z -> getitem_slices n0 n1 n2 l sl = Ok fov -> Forall P (flat fov).
Proof.
  intros Hl H0. destruct sl as [[a0 a1] a2]. unfold getitem_slices.
  destruct (_ || _ || _)%bool; [discriminate|]. intros [= <-]. cbn [flat].
  assert (N : forall i, P (nth i l 0%Z)).
  { intros i. destruct (Nat.lt_ge_cases i (length l)) as [L|L].
    - rewrite Forall_forall in Hl. apply Hl, list_elem_of_In, nth_In, L.
    - rewrite nth_overflow by exact L. exact H0. }
  unfold enumerate. apply Forall_bind. apply Forall_forall. intros i _.
  apply Forall_bind. apply Forall_forall. intros j _.
  apply Forall_bind. apply Forall_forall. intros k _.
  constructor; [apply N | constructor].
Qed.

(** Slicing the bounding box with a stride is a strided view of the box. *)
Lemma view_getitem_slices (n0 n1 n2 : nat) (l : list Z) (c0 e0 c1 e1 c2 e2 : nat)
  (s0 s1 s2 : Z) (crop : ndarray Z) :
  getitem_slices n0 n1 n2 l (Slice c0 e0 1, Slice c1 e1 1, Slice c2 e2 1) = Ok crop ->
  s0 <> 0%Z -> s1 <> 0%Z -> s2 <> 0%Z ->
  exists fov,
    getitem_slices n0 n1 n2 l (Slice c0 e0 s0, Slice c1 e1 s1, Slice c2 e2 s2) = Ok fov /\
    view crop (s0, s1, s2) = Ok (flat fov).
Proof.
  intros Hc H0 H1 H2.
  rewrite getitem_slices_ok in Hc by (cbn [slice_step]; lia). injection Hc as <-.
  rewrite getitem_slices_ok by (cbn [slice_step]; assumption).
  eexists. split; [reflexivity|]. cbn [flat].
  unfold view. cbn [shape flat].
  rewrite (proj2 (Z.eqb_neq _ 0) H0), (proj2 (Z.eqb_neq _ 0) H1),
    (proj2 (Z.eqb_neq _ 0) H2).
  cbn [orb]. f_equal.
  set (F := fun i j k => nth ((i * n1 + j) * n2 + k) l 0%Z).
  set (r0 := slice_indices n0 (Slice c0 e0 1)).
  set (r1 := slice_indices n1 (Slice c1 e1 1)).
  set (r2 := slice_indices n2 (Slice c2 e2 1)).
  assert (L : forall n c e, length (slice_indices n (Slice c e 1))
                            = (Nat.min e n - Nat.min c n)%nat).
  { intros n c e. rewrite length_slice_indices. cbn [slice_start slice_stop slice_step].
    change (Z.to_nat 1) with 1%nat. apply extent_1. }
  assert (N : forall n c e q, (q < length (slice_indices n (Slice c e 1)))%nat ->
            nth q (slice_indices n (Slice c e 1)) 0%nat = (Nat.min c n + q)%nat).
  { intros n c e q Hq. rewrite nth_slice_indices by exact Hq.
    cbn [slice_start slice_step]. change (Z.to_nat 1) with 1%nat. lia. }
  rewrite !slice_indices_strided. cbn [slice_start slice_stop slice_step].
  rewrite <- (L n0 c0 e0), <- (L n1 c1 e1), <- (L n2 c2 e2). fold r0 r1 r2.
  unfold enumerate at 2. rewrite bind_map.
  apply bind_ext_in. intros i Hi. rewrite bind_map.
  apply bind_ext_in. intros j Hj. rewrite bind_map.
  apply bind_ext_in. intros k Hk. f_equal.
  apply strided_lt in Hi, Hj, Hk.
  rewrite (nth_enumerate F r0 r1 r2 i j k 0%Z Hi Hj Hk).
  unfold r0, r1, r2. rewrite !N by assumption. reflexivity.
Qed.

(** ** Targets compared *)

Lemma succ_uint_below (s : Z) : (0 <= s < 2 ^ 64 - 1)%Z -> succ_uint s = (s + 1)%Z.
Proof. intros H. unfold succ_uint, uint_modulus. apply Z.mod_small. lia. Qed.

Section Targets.
Variables (data : ndarray Z) (n0 n1 n2 : nat).
Hypothesis Hshape : shape data = [n0; n1; n2].
Hypothesis Hn0 : (Z.of_nat n0 < 2 ^ 53 - 1)%Z.
Hypothesis Hn1 : (Z.of_nat n1 < 2 ^ 53 - 1)%Z.
Hypothesis Hn2 : (Z.of_nat n2 < 2 ^ 53 - 1)%Z.

Lemma spacing_le_refl (a : Z * Z * Z) : spacing_le a a.
Proof. destruct a as [[a0 a1] a2]. simpl. lia. Qed.

Lemma spacing_le_trans (a b c : Z * Z * Z) :
  spacing_le a b -> spacing_le b c -> spacing_le a c.
Proof.
  destruct a as [[a0 a1] a2], b as [[b0 b1] b2], c as [[c0 c1] c2]. simpl. lia.
Qed.

(** A pass makes no stride shorter. *)
Lemma body_increases (spacing spacing' : Z * Z * Z) (c : Z) :
  in_range n0 n1 n2 spacing -> body data spacing = Ok (spacing', c) ->
  spacing_le spacing spacing'.
Proof.
  destruct spacing as [[s0 s1] s2]. intros (R0 & R1 & R2).
  rewrite (body_eq data n0 n1 n2) by exact Hshape. cbv zeta.
  destruct (choose_dir _) as [|[|dir]]; cbn [increment];
    rewrite succ_uint_below by lia;
    (destruct (view data _); [|discriminate]);
    cbn [mbind result_bind]; intros [= <- _]; simpl; lia.
Qed.

(** With a larger target the loop ends no later, at strides that are no
    longer. *)
Lemma tune_monotone (npoints npoints' : Z) (fuel : nat) :
  (1 <= npoints <= npoints')%Z ->
  forall (spacing r : Z * Z * Z) (v : list Z),
    in_range n0 n1 n2 spacing -> view data spacing = Ok v ->
    tune fuel data npoints spacing (count_nonneg v) = Some (Ok r) ->
    exists r',
      tune fuel data npoints' spacing (count_nonneg v) = Some (Ok r') /\
      spacing_le spacing r' /\ spacing_le r' r.
Proof.
  intros Hnp.
  assert (Stop : forall f spacing v,
            (npoints' <? count_nonneg v)%Z = false ->
            tune f data npoints' spacing (count_nonneg v) = Some (Ok spacing)).
  { intros [|f] spacing v E; cbn [tune]; rewrite E; reflexivity. }
  induction fuel as [|fuel IH]; intros spacing r v R Hv; cbn [tune].
  - destruct (npoints <? count_nonneg v)%Z eqn:E; [discriminate|].
    intros [= <-]. apply Z.ltb_ge in E.
    destruct (npoints' <? count_nonneg v)%Z eqn:E'; [apply Z.ltb_lt in E'; lia|].
    exists spacing. split; [reflexivity|]. split; apply spacing_le_refl.
  - destruct (npoints <? count_nonneg v)%Z eqn:E.
    + apply Z.ltb_lt in E. pose proof (count_nonneg_le v) as Hc.
      destruct (body_step data n0 n1 n2 Hshape Hn0 Hn1 Hn2 spacing v R Hv)
        as (sp1 & v1 & Hb & Hv1 & R1 & _); [lia|].
      rewrite Hb. intros Ht.
      destruct (IH sp1 r v1 R1 Hv1 Ht) as (r1 & E1 & L1 & L2).
      pose proof (body_increases spacing sp1 _ R Hb) as L0.
      destruct (npoints' <? count_nonneg v)%Z eqn:E'.
      * exists r1. split; [exact E1|].
        split; [eapply spacing_le_trans; eassumption | exact L2].
      * exists spacing. split; [reflexivity|]. split; [apply spacing_le_refl|].
        eapply spacing_le_trans; [exact L0|]. eapply spacing_le_trans; eassumption.
    + intros [= <-]. apply Z.ltb_ge in E.
      destruct (npoints' <? count_nonneg v)%Z eqn:E'; [apply Z.ltb_lt in E'; lia|].
      exists spacing. split; [reflexivity|]. split; apply spacing_le_refl.
Qed.

End Targets.

(** X10. A larger target never gives a coarser sub-sampling: the loop of
    [ideal_spacing] ends no later, and no stride that it returns is longer
    than for the smaller target. *)
Theorem ideal_spacing_monotone (data : ndarray Z) (n0 n1 n2 : nat)
  (npoints npoints' : Z) :
  shape data = [n0; n1; n2] -> well_formed data ->
  Forall (fun n => (Z.of_nat n < 2 ^ 53 - 1)%Z) [n0; n1; n2] ->
  (1 <= npoints <= npoints')%Z ->
  exists (passes : nat) (spacing spacing' : Z * Z * Z),
    (forall fuel, (passes <= fuel)%nat ->
       ideal_spacing fuel data npoints = Some (Ok spacing) /\
       ideal_spacing fuel data npoints' = Some (Ok spacing')) /\
    spacing_le spacing' spacing.
Proof.
  intros Hshape Hwf Hn Hnp.
  apply Forall_cons in Hn as [Hn0 Hn]. apply Forall_cons in Hn as [Hn1 Hn].
  apply Forall_cons in Hn as [Hn2 _].
  assert (R : in_range n0 n1 n2 (1, 1, 1)%Z) by (unfold in_range; lia).
  pose proof (slack_nonneg n0 n1 n2 _ R) as S0.
  pose proof (view_ones data n0 n1 n2 Hshape Hwf) as V.
  destruct (tune_passes data n0 n1 n2 Hshape Hn0 Hn1 Hn2 npoints
              (Z.to_nat (slack n0 n1 n2 (1, 1, 1)%Z)) ltac:(lia) (1, 1, 1)%Z (flat data) R)
    as (k & sp & v' & Hge & _); [lia | exact V |].
  destruct (tune_monotone data n0 n1 n2 Hshape Hn0 Hn1 Hn2 npoints npoints' k Hnp
              (1, 1, 1)%Z sp (flat data) R V (Hge k (Nat.le_refl k)))
    as (sp' & E' & _ & L).
  exists k, sp, sp'. split; [|exact L].
  intros fuel Hf. unfold ideal_spacing. split; [apply Hge, Hf|].
  apply (tune_fuel_le k fuel); assumption.
Qed.

Lemma ideal_spacing_monotone_witness :
  let data := full [4; 5; 6]%nat 0%Z in
  shape data = [4; 5; 6]%nat /\ well_formed data /\
  Forall (fun n => (Z.of_nat n < 2 ^ 53 - 1)%Z) [4; 5; 6]%nat /\ (1 <= 10 <= 30)%Z /\
  exists (passes : nat) (spacing spacing' : Z * Z * Z),
    (forall fuel, (passes <= fuel)%nat ->
       ideal_spacing fuel data 10 = Some (Ok spacing) /\
       ideal_spacing fuel data 30 = Some (Ok spacing')) /\
    spacing_le spacing' spacing.
Proof.
  intros data.
  assert (H1 : shape data = [4; 5; 6]%nat) by reflexivity.
  assert (H2 : well_formed data) by reflexivity.
  assert (H3 : Forall (fun n => (Z.of_nat n < 2 ^ 53 - 1)%Z) [4; 5; 6]%nat).
  { repeat constructor; simpl; lia. }
  assert (H4 : (1 <= 10 <= 30)%Z) by lia.
  split; [exact H1|]. split; [exact H2|]. split; [exact H3|]. split; [exact H4|].
  exact (ideal_spacing_monotone data 4 5 6 10 30 H1 H2 H3 H4).
Defined.

End SubsamplingFacts.

(** * The registration object *)

Module RegistrationFacts.
Import Registration.

(** ** The [interp] property *)

Section Interp.
Context {affine : Type}.
Implicit Types s : @session affine.

Lemma index_elem_of (l : list Z) (c : Z) (i : nat) :
  index l c = Ok i -> c ∈ l.
Proof.
  revert i. induction l as [|w l IH]; simpl; intros i H; [discriminate|].
  destruct (w =? c)%Z eqn:E.
  - apply Z.eqb_eq in E. subst w. left.
  - right. destruct (index l c) as [j|] eqn:Ej; [|discriminate].
    apply (IH j). reflexivity.
Qed.

(** The items of a Python 2 dictionary come in an arbitrary order, the same
    for [keys()] and [values()]: whatever the order, the position of a value
    that occurs once is the position of its key. *)
Lemma getitem_index (d : list (string * Z)) (key : string) (c : Z) :
  NoDup (values d) ->
  getitem d key = Ok c ->
  exists i, index (values d) c = Ok i /\ item (keys d) i = Ok key.
Proof.
  unfold keys, values.
  induction d as [|[k v] d IH]; simpl; intros ND H; [discriminate|].
  apply NoDup_cons in ND as [Hv ND].
  destruct (String.eqb k key) eqn:E.
  - apply String.eqb_eq in E. injection H as ->. subst k.
    rewrite Z.eqb_refl. exists 0%nat. split; reflexivity.
  - specialize (IH ND H) as (i & Hi & Hk).
    destruct (v =? c)%Z eqn:Ev.
    + apply Z.eqb_eq in Ev. subst v. exfalso. apply Hv.
      apply (index_elem_of _ _ i Hi).
    + exists (S i). rewrite Hi. split; [reflexivity|]. exact Hk.
Qed.

(** C10. Setting [interp] to 'pv', 'tri' or 'rand' and reading it back gives
    the same name: the codes of [interp_methods] are pairwise different and
    the getter looks the code up again. *)
Theorem interp_set_get s (name : string) :
  name ∈ ["pv"; "tri"; "rand"] ->
  exists s', _set_interp s name = Ok s' /\ _get_interp s' = Ok name.
Proof.
  intros Hname.
  assert (Hc : exists c, getitem interp_methods name = Ok c).
  { repeat (apply elem_of_cons in Hname as [->|Hname]; [eexists; reflexivity|]).
    inversion Hname. }
  destruct Hc as [c Hc].
  exists (set_interp_code s c). unfold _set_interp, _get_interp. rewrite Hc.
  split; [reflexivity|].
  change (_interp (set_interp_code s c)) with c.
  destruct (getitem_index interp_methods name c) as (i & Hi & Hk); [|exact Hc|].
  - apply (bool_decide_unpack _). reflexivity.
  - rewrite Hi. exact Hk.
Qed.

End Interp.

Lemma interp_set_get_witness :
  "tri" ∈ ["pv"; "tri"; "rand"] /\
  exists s', _set_interp demo_session "tri" = Ok s' /\ _get_interp s' = Ok "tri".
Proof.
  assert (H : "tri" ∈ ["pv"; "tri"; "rand"]).
  { apply list_elem_of_further, list_elem_of_here. }
  split; [exact H | exact (interp_set_get demo_session "tri" H)].
Defined.

(** ** Optimisation *)

Section Optimize.
Context {affine rng value : Type}.
Variable affine_apply : affine -> coords -> coords.
Variable transform_apply : list Q -> coords -> coords.
Variable weights : list Z -> ndarray Z -> coords -> Z -> list (nat * nat * Q).
Variable similarity_measure : list (list Q) -> Q.
Variable randint : Z -> rng -> Z * rng.
Variables _XTOL _FTOL _GTOL _STEP : value.
Variable is_None : value -> bool.
Variable fmin :
  minimizer -> (list Q -> @session affine * rng -> Q * (@session affine * rng)) ->
  list Q -> option (@callback value) -> gmap string value ->
  @session affine * rng -> list Q * (@session affine * rng).

Abbreviation optimizer := (optimizer _XTOL _FTOL _GTOL _STEP).
Abbreviation optimize :=
  (optimize affine_apply transform_apply weights similarity_measure randint
     _XTOL _FTOL _GTOL _STEP is_None fmin).

Abbreviation default_tolerances :=
  (default_tolerances _XTOL _FTOL _GTOL _STEP).

(** [setdefault] keeps what the caller gave and fills in what is absent. *)
Lemma setdefault_union (key : string) (v : value) (kwargs : gmap string value) :
  setdefault key v kwargs = kwargs ∪ {[ key := v ]}.
Proof.
  unfold setdefault. apply map_eq. intros k.
  destruct (kwargs !! key) as [w|] eqn:E.
  - rewrite lookup_union. destruct (decide (k = key)) as [->|N].
    + rewrite E, lookup_singleton_eq. reflexivity.
    + rewrite lookup_singleton_ne by congruence.
      destruct (kwargs !! k); reflexivity.
  - rewrite lookup_union. destruct (decide (k = key)) as [->|N].
    + rewrite lookup_insert_eq, E, lookup_singleton_eq. reflexivity.
    + rewrite lookup_insert_ne, lookup_singleton_ne by congruence.
      destruct (kwargs !! k); reflexivity.
Qed.

Lemma optimizer_known (method : string) (f : minimizer) (kwargs : gmap string value) :
  (method, f) ∈ minimizers ->
  optimizer method kwargs = Ok (f, kwargs ∪ default_tolerances f).
Proof.
  intros H. unfold minimizers in H.
  repeat (apply elem_of_cons in H as [H|H];
          [injection H as -> ->; unfold Registration.optimizer; simpl;
           rewrite !setdefault_union, <- ?(assoc_L (∪)); reflexivity|]).
  inversion H.
Qed.

Lemma optimizer_unknown (method : string) (kwargs : gmap string value) :
  method ∉ map fst minimizers -> optimizer method kwargs = Raise ValueError.
Proof.
  intros H. unfold Registration.optimizer.
  repeat match goal with
  | |- (if String.eqb ?a ?b then _ else _) = _ =>
      destruct (String.eqb_spec a b) as [->|?];
        [exfalso; apply H; simpl; set_solver|]
  end.
  reflexivity.
Qed.

(** C8. [optimize] takes the five method names and no other. For each of the
    five it runs that method's minimiser once, with the caller's keyword
    arguments and, for the tolerances that the caller did not give, the
    method's defaults. For any other name it raises [ValueError] and no
    minimiser has run. *)
Theorem optimize_methods (st : @session affine * rng) (T : transform)
  (method : string) (kwargs : gmap string value) :
  (forall f, (method, f) ∈ minimizers ->
     exists out cb r,
       optimize st T method kwargs =
         (out ++ [Minimize f (param T) cb
                    (delete "callback" kwargs ∪ default_tolerances f)], Ok r)
       /\ Forall (fun ev => ~ is_minimize ev) out) /\
  (method ∉ map fst minimizers ->
     exists out,
       optimize st T method kwargs = (out, Raise ValueError)
       /\ Forall (fun ev => ~ is_minimize ev) out).
Proof.
  split.
  - intros f Hf. unfold Registration.optimize.
    rewrite (optimizer_known method f _ Hf).
    destruct (fmin _ _ _ _ _ _) as [tc st'].
    eexists _, _, _. split; [reflexivity|].
    repeat constructor; simpl; tauto.
  - intros H. unfold Registration.optimize.
    rewrite (optimizer_unknown method _ H).
    eexists. split; [reflexivity|].
    repeat constructor; simpl; tauto.
Qed.

End Optimize.

(** ** Evaluation *)

Section Eval.
Context {affine rng : Type}.
Variable affine_apply : affine -> coords -> coords.
Variable transform_apply : list Q -> coords -> coords.
Variable weights : list Z -> ndarray Z -> coords -> Z -> list (nat * nat * Q).
Variable similarity_measure : list (list Q) -> Q.
Variable randint : Z -> rng -> Z * rng.
Implicit Types (s : @session affine) (g : rng) (Tv : @ChainTransform affine).

Abbreviation _eval :=
  (_eval affine_apply transform_apply weights similarity_measure randint).
Abbreviation eval :=
  (eval affine_apply transform_apply weights similarity_measure randint).
Abbreviation explore :=
  (explore affine_apply transform_apply weights similarity_measure randint).
Abbreviation _joint_histogram := (_joint_histogram weights).
Abbreviation chain_apply := (chain_apply affine_apply transform_apply).

(** Filling the histogram does not change its dimensions. *)
Lemma zeros_like_add_at (H : list (list Q)) (c : nat * nat * Q) :
  zeros_like (add_at H c) = zeros_like H.
Proof.
  destruct c as [[i j] w]. unfold zeros_like, add_at.
  revert i. induction H as [|row H IH]; intros [|i]; simpl; try reflexivity.
  - f_equal. clear. revert j. induction row as [|h row IH]; intros [|j]; simpl;
      try reflexivity. f_equal. apply IH.
  - f_equal. apply IH.
Qed.

Lemma zeros_like_foldl (ws : list (nat * nat * Q)) (H : list (list Q)) :
  zeros_like (foldl add_at H ws) = zeros_like H.
Proof.
  revert H. induction ws as [|c ws IH]; intros H; simpl; [reflexivity|].
  rewrite IH. apply zeros_like_add_at.
Qed.

Lemma zeros_like_idem (H : list (list Q)) : zeros_like (zeros_like H) = zeros_like H.
Proof.
  unfold zeros_like. rewrite map_map. apply map_ext. intros row.
  rewrite map_map. reflexivity.
Qed.

Lemma zeros_like_joint_histogram (H : list (list Q)) l to_data c interp :
  zeros_like (_joint_histogram H l to_data c interp) = zeros_like H.
Proof.
  unfold Registration._joint_histogram.
  rewrite zeros_like_foldl. apply zeros_like_idem.
Qed.

(** The result of an evaluation in a mode that is not random. *)
Lemma _eval_fixed s g Tv :
  (0 <= _interp s)%Z ->
  _eval (s, g) Tv =
    (let H := _joint_histogram (_joint_hist s) (flat (_from_data s)) (_to_data s)
                (chain_apply Tv (_vox_coords s)) (_interp s) in
     (similarity_measure H, (set_joint_hist (set_Tv s Tv) H, g))).
Proof.
  intros Hi. unfold Registration._eval. simpl.
  destruct (_interp s <? 0)%Z eqn:E; [apply Z.ltb_lt in E; lia|]. reflexivity.
Qed.

(** The result of an evaluation in random mode. *)
Lemma _eval_random s g Tv :
  (_interp s < 0)%Z ->
  _eval (s, g) Tv =
    (let H := _joint_histogram (_joint_hist s) (flat (_from_data s)) (_to_data s)
                (chain_apply Tv (_vox_coords s)) (- fst (randint maxint g)) in
     (similarity_measure H, (set_joint_hist (set_Tv s Tv) H, snd (randint maxint g)))).
Proof.
  intros Hi. unfold Registration._eval. simpl.
  destruct (_interp s <? 0)%Z eqn:E; [|apply Z.ltb_ge in E; lia].
  destruct (randint maxint g). reflexivity.
Qed.

Lemma _eval_same_setup s g Tv : same_setup s (fst (snd (_eval (s, g) Tv))).
Proof.
  destruct (Z.lt_ge_cases (_interp s) 0) as [Hi|Hi].
  - rewrite _eval_random by exact Hi. simpl. repeat split.
    symmetry. apply zeros_like_joint_histogram.
  - rewrite _eval_fixed by exact Hi. simpl. repeat split.
    symmetry. apply zeros_like_joint_histogram.
Qed.

Lemma _joint_histogram_zeros (H H' : list (list Q)) l to_data c interp :
  zeros_like H = zeros_like H' ->
  _joint_histogram H l to_data c interp = _joint_histogram H' l to_data c interp.
Proof. intros E. unfold Registration._joint_histogram. rewrite E. reflexivity. Qed.

(** Outside random mode the score and the histogram of an evaluation depend
    on the transform and on the setup, and on nothing else. *)
Lemma _eval_setup s g s' g' Tv :
  (0 <= _interp s)%Z -> same_setup s s' ->
  fst (_eval (s, g) Tv) = fst (_eval (s', g') Tv) /\
  _joint_hist (fst (snd (_eval (s, g) Tv))) =
    _joint_hist (fst (snd (_eval (s', g') Tv))).
Proof.
  intros Hi (E1 & E2 & E3 & E4 & E5 & E6 & E7).
  rewrite !_eval_fixed by lia. simpl.
  rewrite <- E1, <- E3, <- E4, <- E6.
  rewrite (_joint_histogram_zeros _ _ _ _ _ _ E7). split; reflexivity.
Qed.

(** The codes behind the names of the interpolation modes. *)
Lemma get_interp_code s (name : string) :
  _get_interp s = Ok name ->
  (name = "pv" /\ _interp s = 0%Z) \/ (name = "tri" /\ _interp s = 1%Z) \/
  (name = "rand" /\ _interp s = (-1)%Z).
Proof.
  unfold _get_interp, values, keys, interp_methods.
  cbn [map fst snd index].
  destruct (Z.eqb_spec 0 (_interp s)) as [E0|N0].
  { intros H. cbv in H. injection H as <-. left. split; congruence. }
  destruct (Z.eqb_spec 1 (_interp s)) as [E1|N1].
  { intros H. cbv in H. injection H as <-. right. left. split; congruence. }
  destruct (Z.eqb_spec (-1) (_interp s)) as [E2|N2].
  { intros H. cbv in H. injection H as <-. right. right. split; congruence. }
  cbv. discriminate.
Qed.

(** C6. With the mode 'pv' or 'tri', two calls of [eval] in a row with the
    same transform give the same similarity and leave the same joint
    histogram, and the random generator is not touched. With the mode 'rand'
    every call draws a number from the generator and hands its opposite to the
    accumulation pass. *)
Theorem eval_twice s g (T : transform) :
  (_get_interp s = Ok "pv" \/ _get_interp s = Ok "tri" ->
   let r1 := eval (s, g) T in
   let r2 := eval (snd r1) T in
   fst r1 = fst r2 /\
   _joint_hist (fst (snd r1)) = _joint_hist (fst (snd r2)) /\
   snd (snd r1) = g /\ snd (snd r2) = g) /\
  (_get_interp s = Ok "rand" ->
   let Tv := Chain T (_from_affine s) (_to_inv_affine s) in
   let r1 := eval (s, g) T in
   snd (snd r1) = snd (randint maxint g) /\
   _joint_hist (fst (snd r1)) =
     _joint_histogram (_joint_hist s) (flat (_from_data s)) (_to_data s)
       (chain_apply Tv (_vox_coords s)) (- fst (randint maxint g))).
Proof.
  split.
  - intros Hm.
    assert (Hi : (0 <= _interp s)%Z).
    { destruct Hm as [Hm|Hm]; apply get_interp_code in Hm;
        destruct Hm as [[? ?]|[[? ?]|[? ?]]]; try discriminate; lia. }
    unfold Registration.eval. cbn zeta. change (fst (s, g)) with s.
    set (Tv := Chain T (_from_affine s) (_to_inv_affine s)).
    rewrite (_eval_fixed s g Tv Hi). cbn [fst snd].
    cbn [_from_affine _to_inv_affine set_joint_hist set_Tv]. fold Tv.
    rewrite _eval_fixed by exact Hi. cbn [fst snd].
    cbn [_joint_hist _from_data _to_data _vox_coords _interp set_joint_hist set_Tv].
    rewrite (_joint_histogram_zeros
               (_joint_histogram (_joint_hist s) (flat (_from_data s)) (_to_data s)
                  (chain_apply Tv (_vox_coords s)) (_interp s))
               (_joint_hist s)) by apply zeros_like_joint_histogram.
    repeat split; reflexivity.
  - intros Hm. apply get_interp_code in Hm.
    destruct Hm as [[? ?]|[[? ?]|[? Hi]]]; try discriminate.
    unfold Registration.eval. cbn zeta. change (fst (s, g)) with s.
    rewrite _eval_random by lia. simpl. split; reflexivity.
Qed.

(** ** Grid exploration *)

Lemma make_deltas_axis0 (n : nat) (l : list Q) :
  make_deltas (S n) [(0%Z, l)] = Ok (l :: replicate n [0%Q]).
Proof.
  unfold make_deltas. cbn [foldl fst snd mbind result_bind].
  unfold setitem. rewrite length_replicate.
  destruct ((0 <? - Z.of_nat (S n)) || (Z.of_nat (S n) <=? 0))%Z eqn:E.
  - apply orb_true_iff in E as [E|E]; [apply Z.ltb_lt in E|apply Z.leb_le in E]; lia.
  - rewrite Z.mod_0_l by lia. reflexivity.
Qed.

(** C7. [explore] on a transform with one parameter [p] and the argument
    [(0, [-1, 0, 1])] returns three scores and the three parameter vectors
    [p - 1], [p], [p + 1] that they were computed at. The scores are those of
    three evaluations in a row, at these parameters and in this order, each on
    the session that the one before left: the middle score is what [eval]
    gives at the unmodified transform. In a mode that is not random each score
    is the score of [eval] at its parameter before the call. Every axis that
    no argument names keeps the offsets [[0]]. *)
Theorem explore_axis0 s g (p : Q) :
  Float64.round p = p ->
  let T0 := Transform [p] in
  let Tminus := Transform [Float64.round (p + -1)] in
  let Tplus := Transform [Float64.round (p + 1)] in
  let r0 := eval (s, g) Tminus in
  let r1 := eval (snd r0) T0 in
  let r2 := eval (snd r1) Tplus in
  explore (s, g) T0 [(0%Z, [-1; 0; 1]%Q)] =
    Ok (([fst r0; fst r1; fst r2],
         [[Float64.round (p + -1); p; Float64.round (p + 1)]]), snd r2) /\
  ((0 <= _interp s)%Z ->
   fst r1 = fst (eval (s, g) T0) /\ fst r2 = fst (eval (s, g) Tplus)) /\
  (forall n i : nat, (0 < i < n)%nat ->
     exists deltas, make_deltas n [(0%Z, [-1; 0; 1]%Q)] = Ok deltas /\
                    deltas !! i = Some [0%Q]).
Proof.
  intros Hp T0 Tminus Tplus r0 r1 r2.
  set (Tv := Chain T0 (_from_affine s) (_to_inv_affine s)).
  assert (Hmid : add_offsets [p] [0%Q] = [p]).
  { unfold add_offsets. simpl. f_equal. rewrite <- Hp at 2.
    apply Float64Facts.round_proper. ring. }
  pose proof (_eval_same_setup s g (Chain Tminus (_from_affine s) (_to_inv_affine s)))
    as S1.
  change (_eval (s, g) (Chain Tminus (_from_affine s) (_to_inv_affine s)))
    with r0 in S1.
  assert (S2 : same_setup (fst (snd r0)) (fst (snd r1))).
  { unfold r1, Registration.eval. destruct (snd r0) as [s1 g1]. apply _eval_same_setup. }
  assert (E1 : _eval (snd r0) (Chain T0 (_from_affine s) (_to_inv_affine s)) = r1).
  { unfold r1, Registration.eval.
    destruct S1 as (_ & A & _ & _ & B & _). rewrite <- A, <- B. reflexivity. }
  assert (E2 : _eval (snd r1) (Chain Tplus (_from_affine s) (_to_inv_affine s)) = r2).
  { unfold r2, Registration.eval.
    destruct S1 as (_ & A & _ & _ & B & _). destruct S2 as (_ & A' & _ & _ & B' & _).
    rewrite <- A', <- B', <- A, <- B. reflexivity. }
  split; [|split].
  - unfold Registration.explore. cbn [param T0 length].
    rewrite make_deltas_axis0. cbn [replicate mbind result_bind].
    change (fst (s, g)) with s. fold Tv.
    unfold chain_param, cartesian. cbn [free param Tv T0 mbind list_bind foldr app concat map].
    cbn [explore_loop]. rewrite Hmid.
    change (add_offsets [p] [(-1)%Q]) with [Float64.round (p + -1)].
    change (add_offsets [p] [1%Q]) with [Float64.round (p + 1)].
    change (chain_set_param Tv [Float64.round (p + -1)])
      with (Chain Tminus (_from_affine s) (_to_inv_affine s)).
    change (_eval (s, g) (Chain Tminus (_from_affine s) (_to_inv_affine s))) with r0.
    destruct r0 as [v0 st1] eqn:R0. cbn [snd fst] in *.
    change (chain_set_param (Chain Tminus (_from_affine s) (_to_inv_affine s)) [p])
      with (Chain T0 (_from_affine s) (_to_inv_affine s)).
    rewrite E1.
    destruct r1 as [v1 st2] eqn:R1. cbn [snd fst] in *.
    change (chain_set_param (Chain T0 (_from_affine s) (_to_inv_affine s))
              [Float64.round (p + 1)])
      with (Chain Tplus (_from_affine s) (_to_inv_affine s)).
    rewrite E2.
    destruct r2 as [v2 st3]. reflexivity.
  - intros Hi.
    assert (I1 : (0 <= _interp (fst (snd r0)))%Z).
    { destruct S1 as (_ & _ & _ & _ & _ & <- & _). exact Hi. }
    assert (I2 : (0 <= _interp (fst (snd r1)))%Z).
    { destruct S2 as (_ & _ & _ & _ & _ & <- & _). exact I1. }
    assert (S1' : same_setup (fst (snd r0)) s).
    { unfold same_setup in *. intuition congruence. }
    assert (S2' : same_setup (fst (snd r1)) s).
    { unfold same_setup in *. intuition congruence. }
    split.
    + rewrite <- E1. unfold Registration.eval. cbn [fst]. fold Tv.
      destruct (snd r0) as [s1 g1]. cbn [fst] in *.
      apply (_eval_setup s1 g1 s g Tv I1 S1').
    + rewrite <- E2. unfold Registration.eval. cbn [fst].
      destruct (snd r1) as [s2 g2]. cbn [fst] in *.
      apply (_eval_setup s2 g2 s g _ I2 S2').
  - intros n i Hi. destruct n as [|n]; [lia|].
    rewrite make_deltas_axis0. eexists. split; [reflexivity|].
    destruct i as [|i]; [lia|]. cbn [lookup list_lookup].
    apply lookup_replicate. split; [reflexivity | lia].
Qed.

End Eval.

(** ** The theorems on a session at hand *)

Abbreviation demo_eval :=
  (eval demo_apply demo_transform_apply demo_weights demo_similarity demo_randint).
Abbreviation demo_explore :=
  (explore demo_apply demo_transform_apply demo_weights demo_similarity demo_randint).
Abbreviation demo_optimize :=
  (optimize demo_apply demo_transform_apply demo_weights demo_similarity
     demo_randint (1 # 1000)%Q (1 # 100)%Q (1 # 10)%Q 1%Q demo_is_None demo_fmin).

Lemma eval_twice_witness :
  let s := demo_session in
  let s' := set_interp_code demo_session (-1) in
  let T := Transform [1%Q] in
  ((_get_interp s = Ok "pv" \/ _get_interp s = Ok "tri") /\
   let r1 := demo_eval (s, 7%Z) T in
   let r2 := demo_eval (snd r1) T in
   fst r1 = fst r2 /\
   _joint_hist (fst (snd r1)) = _joint_hist (fst (snd r2)) /\
   snd (snd r1) = 7%Z /\ snd (snd r2) = 7%Z) /\
  (_get_interp s' = Ok "rand" /\
   let Tv := Chain T (_from_affine s') (_to_inv_affine s') in
   let r1 := demo_eval (s', 7%Z) T in
   snd (snd r1) = snd (demo_randint maxint 7%Z) /\
   _joint_hist (fst (snd r1)) =
     _joint_histogram demo_weights (_joint_hist s') (flat (_from_data s'))
       (_to_data s') (chain_apply demo_apply demo_transform_apply Tv (_vox_coords s'))
       (- fst (demo_randint maxint 7%Z))).
Proof.
  intros s s' T.
  assert (H1 : _get_interp s = Ok "pv" \/ _get_interp s = Ok "tri")
    by (left; reflexivity).
  assert (H2 : _get_interp s' = Ok "rand") by reflexivity.
  split.
  - split; [exact H1|].
    exact (proj1 (eval_twice demo_apply demo_transform_apply demo_weights
                    demo_similarity demo_randint s 7%Z T) H1).
  - split; [exact H2|].
    exact (proj2 (eval_twice demo_apply demo_transform_apply demo_weights
                    demo_similarity demo_randint s' 7%Z T) H2).
Defined.

Lemma explore_axis0_witness :
  let s := demo_session in
  let p := (1 # 2)%Q in
  Float64.round p = p /\
  let T0 := Transform [p] in
  let Tminus := Transform [Float64.round (p + -1)] in
  let Tplus := Transform [Float64.round (p + 1)] in
  let r0 := demo_eval (s, 7%Z) Tminus in
  let r1 := demo_eval (snd r0) T0 in
  let r2 := demo_eval (snd r1) Tplus in
  demo_explore (s, 7%Z) T0 [(0%Z, [-1; 0; 1]%Q)] =
    Ok (([fst r0; fst r1; fst r2],
         [[Float64.round (p + -1); p; Float64.round (p + 1)]]), snd r2) /\
  ((0 <= _interp s)%Z ->
   fst r1 = fst (demo_eval (s, 7%Z) T0) /\
   fst r2 = fst (demo_eval (s, 7%Z) Tplus)) /\
  (forall n i : nat, (0 < i < n)%nat ->
     exists deltas, make_deltas n [(0%Z, [-1; 0; 1]%Q)] = Ok deltas /\
                    deltas !! i = Some [0%Q]).
Proof.
  intros s p.
  assert (H : Float64.round p = p) by (vm_compute; reflexivity).
  split; [exact H|].
  exact (explore_axis0 demo_apply demo_transform_apply demo_weights
           demo_similarity demo_randint s 7%Z p H).
Defined.

Lemma optimize_methods_witness :
  let st := (demo_session, 7%Z) in
  let T := Transform [1%Q] in
  let kwargs : gmap string Q := {[ "xtol" := (1 # 2)%Q ]} in
  let tol := default_tolerances (1 # 1000)%Q (1 # 100)%Q (1 # 10)%Q 1%Q in
  ((("powell", fmin_powell) ∈ minimizers) /\
   exists out cb r,
     demo_optimize st T "powell" kwargs =
       (out ++ [Minimize fmin_powell (param T) cb
                  (delete "callback" kwargs ∪ tol fmin_powell)], Ok r)
     /\ Forall (fun ev => ~ is_minimize ev) out) /\
  (("newton" ∉ map fst minimizers) /\
   exists out,
     demo_optimize st T "newton" kwargs = (out, Raise ValueError)
     /\ Forall (fun ev => ~ is_minimize ev) out).
Proof.
  intros st T kwargs tol.
  assert (H1 : ("powell", fmin_powell) ∈ minimizers).
  { apply list_elem_of_further, list_elem_of_here. }
  assert (H2 : "newton" ∉ map fst minimizers).
  { intros C. repeat (apply elem_of_cons in C as [C|C]; [discriminate|]).
    inversion C. }
  split.
  - split; [exact H1|].
    exact (proj1 (optimize_methods demo_apply demo_transform_apply demo_weights
                    demo_similarity demo_randint (1 # 1000)%Q (1 # 100)%Q
                    (1 # 10)%Q 1%Q demo_is_None demo_fmin st T "powell" kwargs)
             fmin_powell H1).
  - split; [exact H2|].
    exact (proj2 (optimize_methods demo_apply demo_transform_apply demo_weights
                    demo_similarity demo_randint (1 # 1000)%Q (1 # 100)%Q
                    (1 # 10)%Q 1%Q demo_is_None demo_fmin st T "newton" kwargs) H2).
Defined.

(** ** Sub-sampling and construction *)

Section Construction.
Context {affine value : Type}.
Variable inverse_affine : affine -> affine.
Variable subgrid_affine :
  affine -> Subsampling.slice * Subsampling.slice * Subsampling.slice -> affine.
Variable builtin_similarities : list (string * Z).

Abbreviation subsample := (subsample subgrid_affine).
Abbreviation __init__ :=
  (@__init__ affine value inverse_affine subgrid_affine builtin_similarities).
Abbreviation _set_similarity := (@_set_similarity affine value builtin_similarities).
Abbreviation _get_similarity := (@_get_similarity affine value builtin_similarities).

Import Subsampling SubsamplingFacts.

Lemma indices_length (d0 d1 d2 : nat) (c : coords) :
  indices [d0; d1; d2] = Ok c -> length c = (d0 * (d1 * d2))%nat.
Proof.
  intros [= <-]. rewrite length_enumerate, !length_seq. reflexivity.
Qed.

Lemma slice_extent_le (n : nat) (sl : slice) :
  (length (slice_indices n sl) <= n)%nat.
Proof.
  rewrite length_slice_indices.
  destruct (Z.to_nat (slice_step sl)) as [|s] eqn:E.
  - unfold extent. simpl. lia.
  - etransitivity; [apply extent_le_n; lia|]. lia.
Qed.

(** Sub-sampling towards a target of one voxel at least: the loop ends and
    what is left is a slicing of the image that is within the target. *)
Lemma subsample_tuned (img : ndarray Z) (aff : affine) (n0 n1 n2 : nat)
  (corner : nat * nat * nat) (size : option (nat * nat * nat)) (npoints : Z) :
  shape img = [n0; n1; n2] ->
  Forall (fun n => (Z.of_nat n < 2 ^ 53 - 1)%Z) [n0; n1; n2] ->
  (1 <= npoints)%Z ->
  exists (passes : nat) (fov : field_of_view),
    (forall fuel, (passes <= fuel)%nat ->
       subsample fuel (img, aff) None corner size npoints = Some (Ok fov)) /\
    fov_npoints fov = count_nonneg (flat (fov_data fov)) /\
    (fov_npoints fov <= npoints)%Z /\
    well_formed (fov_data fov) /\
    length (fov_coords fov) = length (flat (fov_data fov)) /\
    exists sl, getitem_slices n0 n1 n2 (flat img) sl = Ok (fov_data fov).
Proof.
  intros Hshape Hn Hnp.
  apply Forall_cons in Hn as [Hn0 Hn]. apply Forall_cons in Hn as [Hn1 Hn].
  apply Forall_cons in Hn as [Hn2 _].
  unfold Registration.subsample. cbn [fst snd]. rewrite Hshape.
  destruct corner as [[c0 c1] c2].
  destruct (default (n0, n1, n2) size) as [[z0 z1] z2].
  cbn [slicer].
  destruct (getitem_slices n0 n1 n2 (flat img)
              (Slice c0 (z0 + c0) 1, Slice c1 (z1 + c1) 1, Slice c2 (z2 + c2) 1))
    as [crop|] eqn:Ecrop;
    [|rewrite getitem_slices_ok in Ecrop by (cbn [slice_step]; lia); discriminate].
  pose proof Ecrop as Ecrop'.
  rewrite getitem_slices_ok in Ecrop' by (cbn [slice_step]; lia).
  destruct (getitem_slices_well_formed _ _ _ _ _ _ Ecrop) as [Hwf _].
  set (m0 := length (slice_indices n0 (Slice c0 (z0 + c0) 1))) in *.
  set (m1 := length (slice_indices n1 (Slice c1 (z1 + c1) 1))) in *.
  set (m2 := length (slice_indices n2 (Slice c2 (z2 + c2) 1))) in *.
  assert (Hcs : shape crop = [m0; m1; m2]) by (injection Ecrop' as <-; reflexivity).
  pose proof (slice_extent_le n0 (Slice c0 (z0 + c0) 1)) as B0.
  pose proof (slice_extent_le n1 (Slice c1 (z1 + c1) 1)) as B1.
  pose proof (slice_extent_le n2 (Slice c2 (z2 + c2) 1)) as B2.
  fold m0 in B0. fold m1 in B1. fold m2 in B2.
  assert (R : in_range m0 m1 m2 (1, 1, 1)%Z) by (unfold in_range; lia).
  pose proof (slack_nonneg m0 m1 m2 _ R) as S0.
  destruct (tune_passes crop m0 m1 m2 Hcs ltac:(lia) ltac:(lia) ltac:(lia) npoints
              (Z.to_nat (slack m0 m1 m2 (1, 1, 1)%Z)) Hnp (1, 1, 1)%Z (flat crop) R)
    as (k & [[s0 s1] s2] & v' & Hge & _ & R' & _ & Hv' & Hc');
    [lia | apply (view_ones crop m0 m1 m2); assumption |].
  destruct R' as (R0 & R1 & R2).
  destruct (view_getitem_slices n0 n1 n2 (flat img) c0 (z0 + c0) c1 (z1 + c1)
              c2 (z2 + c2) s0 s1 s2 crop Ecrop) as (fov & Efov & Hview); [lia..|].
  rewrite Hview in Hv'. injection Hv' as <-.
  destruct (getitem_slices_well_formed _ _ _ _ _ _ Efov) as [Hwf' (d0 & d1 & d2 & Hfs)].
  destruct (indices (shape fov)) as [c|] eqn:Ec; [|rewrite Hfs in Ec; discriminate].
  exists k, (FieldOfView fov (count_nonneg (flat fov))
               (subgrid_affine aff (Slice c0 (z0 + c0) s0, Slice c1 (z1 + c1) s1,
                                    Slice c2 (z2 + c2) s2)) c).
  split.
  { intros fuel Hf.
    destruct (Z.eqb_spec npoints 0) as [E0|_]; [lia|].
    unfold ideal_spacing. rewrite (Hge fuel Hf).
    cbn [mbind result_bind slicer]. rewrite Efov. cbn [mbind result_bind].
    rewrite Ec. reflexivity. }
  cbn [fov_npoints fov_data fov_coords].
  split; [reflexivity|]. split; [exact Hc'|]. split; [exact Hwf'|].
  split; [|eexists; exact Efov].
  rewrite Hfs in Ec. rewrite (indices_length _ _ _ _ Ec).
  unfold well_formed in Hwf'. rewrite Hwf', Hfs. simpl. lia.
Qed.


(** X11. Sub-sampling towards a target of one voxel at least ends, for any
    bounding box, and leaves at most the target number of voxels that are not
    masked; [_from_npoints] counts them and [_vox_coords] has one row for
    each voxel of [_from_data]. *)
Theorem subsample_budget (img : ndarray Z) (aff : affine) (n0 n1 n2 : nat)
  (corner : nat * nat * nat) (size : option (nat * nat * nat)) (npoints : Z) :
  shape img = [n0; n1; n2] ->
  Forall (fun n => (Z.of_nat n < 2 ^ 53 - 1)%Z) [n0; n1; n2] ->
  (1 <= npoints)%Z ->
  exists (passes : nat) (fov : field_of_view),
    (forall fuel, (passes <= fuel)%nat ->
       subsample fuel (img, aff) None corner size npoints = Some (Ok fov)) /\
    fov_npoints fov = count_nonneg (flat (fov_data fov)) /\
    (fov_npoints fov <= npoints)%Z /\
    well_formed (fov_data fov) /\
    length (fov_coords fov) = length (flat (fov_data fov)).
Proof.
  intros Hshape Hn Hnp.
  destruct (subsample_tuned img aff n0 n1 n2 corner size npoints Hshape Hn Hnp)
    as (passes & fov & H1 & H2 & H3 & H4 & H5 & _).
  exists passes, fov. auto.
Qed.

Lemma nth_slice_index (n c e : nat) (s : Z) (q : nat) :
  (q < length (slice_indices n (Slice c e s)))%nat ->
  nth q (slice_indices n (Slice c e s)) 0%nat = (c + q * Z.to_nat s)%nat /\
  (c + q * Z.to_nat s < n)%nat.
Proof.
  intros Hq. pose proof (nth_slice_indices n (Slice c e s) q Hq) as E.
  cbn [slice_start slice_step] in E.
  assert (I : nth q (slice_indices n (Slice c e s)) 0%nat ∈ slice_indices n (Slice c e s)).
  { apply list_elem_of_In, nth_In, Hq. }
  apply slice_indices_lt in I. rewrite E in *. lia.
Qed.

(** X12. With a spacing given, [subsample] runs no loop and ignores [npoints];
    the bounding box is cut at the border of the image, the voxel [i, j, k] of
    [_from_data] is the voxel of the image at the corner plus [i, j, k] times
    the spacing, and the row of [_vox_coords] at its position in row-major
    order is [i, j, k]. *)
Theorem subsample_voxels (img : ndarray Z) (aff : affine) (n0 n1 n2 : nat)
  (s0 s1 s2 : Z) (c0 c1 c2 : nat) (size : option (nat * nat * nat)) :
  shape img = [n0; n1; n2] -> well_formed img ->
  (1 <= s0)%Z -> (1 <= s1)%Z -> (1 <= s2)%Z ->
  let '(z0, z1, z2) := default (n0, n1, n2) size in
  let d0 := extent (Nat.min (z0 + c0) n0 - Nat.min c0 n0) (Z.to_nat s0) in
  let d1 := extent (Nat.min (z1 + c1) n1 - Nat.min c1 n1) (Z.to_nat s1) in
  let d2 := extent (Nat.min (z2 + c2) n2 - Nat.min c2 n2) (Z.to_nat s2) in
  exists fov : field_of_view,
    (forall fuel npoints,
       subsample fuel (img, aff) (Some (s0, s1, s2)) (c0, c1, c2) size npoints
       = Some (Ok fov)) /\
    shape (fov_data fov) = [d0; d1; d2] /\
    forall i j k, (i < d0)%nat -> (j < d1)%nat -> (k < d2)%nat ->
      exists v,
        getitem3 (fov_data fov) i j k = Some v /\
        getitem3 img (c0 + i * Z.to_nat s0) (c1 + j * Z.to_nat s1)
          (c2 + k * Z.to_nat s2) = Some v /\
        fov_coords fov !! ((i * d1 + j) * d2 + k)%nat
        = Some (inject_Z (Z.of_nat i), inject_Z (Z.of_nat j), inject_Z (Z.of_nat k)).
Proof.
  intros Hshape Hwf H0 H1 H2.
  unfold Registration.subsample. cbn [fst snd]. rewrite Hshape.
  destruct (default (n0, n1, n2) size) as [[z0 z1] z2].
  cbn [slicer]. rewrite getitem_slices_ok by (cbn [slice_step]; lia).
  set (r0 := slice_indices n0 (Slice c0 (z0 + c0) s0)).
  set (r1 := slice_indices n1 (Slice c1 (z1 + c1) s1)).
  set (r2 := slice_indices n2 (Slice c2 (z2 + c2) s2)).
  set (F := fun i j k => nth ((i * n1 + j) * n2 + k) (flat img) 0%Z).
  set (G := fun i j k : nat =>
              (inject_Z (Z.of_nat i), inject_Z (Z.of_nat j), inject_Z (Z.of_nat k))).
  cbn [mbind result_bind shape indices flat].
  assert (D0 : extent (Nat.min (z0 + c0) n0 - Nat.min c0 n0) (Z.to_nat s0) = length r0)
    by (unfold r0; rewrite length_slice_indices; reflexivity).
  assert (D1 : extent (Nat.min (z1 + c1) n1 - Nat.min c1 n1) (Z.to_nat s1) = length r1)
    by (unfold r1; rewrite length_slice_indices; reflexivity).
  assert (D2 : extent (Nat.min (z2 + c2) n2 - Nat.min c2 n2) (Z.to_nat s2) = length r2)
    by (unfold r2; rewrite length_slice_indices; reflexivity).
  rewrite D0, D1, D2.
  eexists.
  split; [intros fuel npoints; reflexivity|].
  cbn [fov_data fov_coords shape flat]. split; [reflexivity|].
  intros i j k Hi Hj Hk. exists (F (nth i r0 0%nat) (nth j r1 0%nat) (nth k r2 0%nat)).
  destruct (nth_slice_index n0 c0 (z0 + c0) s0 i Hi) as [E0 L0].
  destruct (nth_slice_index n1 c1 (z1 + c1) s1 j Hj) as [E1 L1].
  destruct (nth_slice_index n2 c2 (z2 + c2) s2 k Hk) as [E2 L2].
  fold r0 in E0. fold r1 in E1. fold r2 in E2.
  split.
  { unfold getitem3. cbn [shape flat].
    rewrite (proj2 (Nat.ltb_lt _ _) Hi), (proj2 (Nat.ltb_lt _ _) Hj),
      (proj2 (Nat.ltb_lt _ _) Hk).
    cbn [andb]. apply lookup_enumerate; assumption. }
  split.
  { unfold getitem3. rewrite Hshape.
    rewrite (proj2 (Nat.ltb_lt _ _) L0), (proj2 (Nat.ltb_lt _ _) L1),
      (proj2 (Nat.ltb_lt _ _) L2).
    cbn [andb]. rewrite E0, E1, E2. unfold F.
    pose proof (index3_lt n0 n1 n2 _ _ _ L0 L1 L2) as L.
    unfold well_formed in Hwf. rewrite Hshape in Hwf. simpl in Hwf.
    assert (L' : (((c0 + i * Z.to_nat s0) * n1 + (c1 + j * Z.to_nat s1)) * n2 +
                  (c2 + k * Z.to_nat s2) < length (flat img))%nat) by lia.
    destruct (lookup_lt_is_Some_2 _ _ L') as [x Hx]. rewrite Hx. f_equal.
    symmetry. apply nth_lookup_Some with (d := 0%Z) in Hx. exact Hx. }
  pose proof (lookup_enumerate G (seq 0 (length r0)) (seq 0 (length r1))
                (seq 0 (length r2)) i j k) as E.
  rewrite !length_seq in E. specialize (E Hi Hj Hk).
  rewrite !seq_nth in E by assumption. exact E.
Qed.

(** Whatever the arguments, what [subsample] returns is a slicing of the
    image, with its count and its coordinates. *)
Lemma subsample_result (fuel : nat) (img : ndarray Z) (aff : affine)
  (spacing : option (Z * Z * Z)) (corner : nat * nat * nat)
  (size : option (nat * nat * nat)) (npoints : Z) (fov : field_of_view)
  (n0 n1 n2 : nat) :
  shape img = [n0; n1; n2] ->
  subsample fuel (img, aff) spacing corner size npoints = Some (Ok fov) ->
  (exists sl, getitem_slices n0 n1 n2 (flat img) sl = Ok (fov_data fov)) /\
  fov_npoints fov = count_nonneg (flat (fov_data fov)) /\
  length (fov_coords fov) = length (flat (fov_data fov)).
Proof.
  intros Hshape. unfold Registration.subsample. cbn [fst snd]. rewrite Hshape.
  set (sz := default (n0, n1, n2) size).
  assert (Fin : forall (sp : Z * Z * Z) (d : ndarray Z),
            (exists sl, getitem_slices n0 n1 n2 (flat img) sl = Ok d) ->
            Some (_vox_coords ← indices (shape d);
                  Ok (FieldOfView d (count_nonneg (flat d))
                        (subgrid_affine aff (slicer corner sz sp)) _vox_coords))
            = Some (Ok fov) ->
            (exists sl, getitem_slices n0 n1 n2 (flat img) sl = Ok (fov_data fov)) /\
            fov_npoints fov = count_nonneg (flat (fov_data fov)) /\
            length (fov_coords fov) = length (flat (fov_data fov))).
  { intros sp d [sl Hsl].
    destruct (getitem_slices_well_formed _ _ _ _ _ _ Hsl) as [Wd (d0 & d1 & d2 & Sd)].
    destruct (indices (shape d)) as [c|] eqn:Ec; [|discriminate].
    cbn [mbind result_bind]. intros [= <-]. cbn [fov_data fov_npoints fov_coords].
    split; [eexists; exact Hsl|]. split; [reflexivity|].
    rewrite Sd in Ec. rewrite (indices_length _ _ _ _ Ec).
    unfold well_formed in Wd. rewrite Wd, Sd. simpl. lia. }
  destruct spacing as [sp|].
  - destruct (getitem_slices n0 n1 n2 (flat img) (slicer corner sz sp)) as [d|] eqn:Ed;
      [|discriminate].
    cbn [mbind result_bind]. apply Fin. eexists; exact Ed.
  - destruct (getitem_slices n0 n1 n2 (flat img) (slicer corner sz (1, 1, 1)%Z))
      as [d|] eqn:Ed; [|discriminate].
    destruct (npoints =? 0)%Z;
      [cbn [mbind result_bind]; apply Fin; eexists; exact Ed|].
    destruct (ideal_spacing fuel d npoints) as [[sp|e]|]; try discriminate.
    cbn [mbind result_bind].
    destruct (getitem_slices n0 n1 n2 (flat img) (slicer corner sz sp)) as [d'|] eqn:Ed';
      [|discriminate].
    cbn [mbind result_bind]. apply Fin. eexists; exact Ed'.
Qed.

(** ** Padding *)

Lemma pad_3d (data : ndarray Z) (n0 n1 n2 : nat) :
  shape data = [n0; n1; n2] ->
  pad data =
    Ok (NDArray [2 + n0; 2 + n1; 2 + n2]%nat
          (enumerate
             (fun i j k =>
                if interior n0 i && interior n1 j && interior n2 k
                then nth (((i - 1) * n1 + (j - 1)) * n2 + (k - 1)) (flat data) 0%Z
                else (-1)%Z)
             (seq 0 (2 + n0)) (seq 0 (2 + n1)) (seq 0 (2 + n2)))).
Proof. intros H. unfold pad. rewrite H. reflexivity. Qed.

(** What holds of the voxels, of -1 and of the 0 that a lookup past the
    elements gives holds of the padded array. *)
Lemma Forall_pad (P : Z -> Prop) (data p : ndarray Z) :
  Forall P (flat data) -> P 0%Z -> P (-1)%Z -> pad data = Ok p -> Forall P (flat p).
Proof.
  intros Hl H0 H1. unfold pad.
  destruct (shape data) as [|n0 [|n1 [|n2 rest]]]; try discriminate.
  destruct (forallb (Nat.eqb 1) rest); [|discriminate].
  match goal with |- Ok (NDArray _ ?b) = _ -> _ => set (elements := b) end.
  intros [= <-]. cbn [flat]. unfold elements. clear elements.
  assert (N : forall i, P (nth i (flat data) 0%Z)).
  { intros i. destruct (Nat.lt_ge_cases i (length (flat data))) as [L|L].
    - rewrite Forall_forall in Hl. apply Hl, list_elem_of_In, nth_In, L.
    - rewrite nth_overflow by exact L. exact H0. }
  apply Forall_bind. apply Forall_forall. intros i _.
  apply Forall_bind. apply Forall_forall. intros j _.
  apply Forall_bind. apply Forall_forall. intros k _.
  apply Forall_replicate.
  destruct (interior n0 i && interior n1 j && interior n2 k); [apply N | exact H1].
Qed.

(** X13. The padded reference volume: every axis is two longer, the voxels on
    the border are -1, and the voxel [i, j, k] inside is the voxel [i - 1, j -
    1, k - 1] of the clamped volume. *)
Theorem pad_border (data : ndarray Z) (n0 n1 n2 : nat) :
  shape data = [n0; n1; n2] -> well_formed data ->
  exists p,
    pad data = Ok p /\ shape p = [2 + n0; 2 + n1; 2 + n2]%nat /\ well_formed p /\
    forall i j k, (i < 2 + n0)%nat -> (j < 2 + n1)%nat -> (k < 2 + n2)%nat ->
      getitem3 p i j k =
        if interior n0 i && interior n1 j && interior n2 k
        then getitem3 data (i - 1) (j - 1) (k - 1)
        else Some (-1)%Z.
Proof.
  intros Hshape Hwf. rewrite (pad_3d data n0 n1 n2 Hshape).
  eexists. split; [reflexivity|]. cbn [shape flat]. split; [reflexivity|].
  split.
  { unfold well_formed. cbn [shape flat]. rewrite length_enumerate, !length_seq.
    simpl. lia. }
  intros i j k Hi Hj Hk. unfold getitem3 at 1. cbn [shape flat].
  rewrite (proj2 (Nat.ltb_lt _ _) Hi), (proj2 (Nat.ltb_lt _ _) Hj),
    (proj2 (Nat.ltb_lt _ _) Hk).
  cbn [andb].
  match goal with
  | |- enumerate ?F ?r0 ?r1 ?r2 !! _ = _ =>
      pose proof (lookup_enumerate F r0 r1 r2 i j k) as E
  end.
  rewrite !length_seq in E. rewrite E by assumption. clear E.
  rewrite !seq_nth by assumption. cbn [Nat.add].
  destruct (interior n0 i && interior n1 j && interior n2 k) eqn:I; [|reflexivity].
  apply andb_true_iff in I as [I I2]. apply andb_true_iff in I as [I0 I1].
  unfold interior in I0, I1, I2.
  apply andb_true_iff in I0 as [A0 B0]. apply andb_true_iff in I1 as [A1 B1].
  apply andb_true_iff in I2 as [A2 B2].
  apply Nat.leb_le in A0, B0, A1, B1, A2, B2.
  unfold getitem3. rewrite Hshape.
  rewrite (proj2 (Nat.ltb_lt (i - 1) n0)), (proj2 (Nat.ltb_lt (j - 1) n1)),
    (proj2 (Nat.ltb_lt (k - 1) n2)) by lia.
  cbn [andb].
  assert (L : (((i - 1) * n1 + (j - 1)) * n2 + (k - 1) < length (flat data))%nat).
  { unfold well_formed in Hwf. rewrite Hshape in Hwf. simpl in Hwf.
    pose proof (index3_lt n0 n1 n2 (i - 1) (j - 1) (k - 1)). lia. }
  destruct (lookup_lt_is_Some_2 _ _ L) as [x Hx]. rewrite Hx. f_equal.
  apply nth_lookup_Some with (d := 0%Z) in Hx. exact Hx.
Qed.

(** ** The constructor *)

Lemma zeros_ok (n : Z) : (0 <= n)%Z -> zeros n = Ok (replicate (Z.to_nat n) 0%Q).
Proof. intros H. unfold zeros. destruct (Z.ltb_spec n 0); [lia | reflexivity]. Qed.

Lemma zeros2_ok (rows columns : Z) :
  (0 <= rows)%Z -> (0 <= columns)%Z ->
  zeros2 rows columns
  = Ok (replicate (Z.to_nat rows) (replicate (Z.to_nat columns) 0%Q)).
Proof.
  intros H1 H2. unfold zeros2.
  destruct (Z.ltb_spec rows 0); [lia|]. destruct (Z.ltb_spec columns 0); [lia|].
  reflexivity.
Qed.

Lemma zeros_like_replicate (rows columns : nat) :
  zeros_like (replicate rows (replicate columns 0%Q))
  = replicate rows (replicate columns 0%Q).
Proof.
  unfold zeros_like. rewrite (ClampFacts.map_replicate _ rows).
  rewrite (ClampFacts.map_replicate _ columns). reflexivity.
Qed.

(** X14. On two volumes that [clamp] accepts the constructor returns, and the
    object that it returns is consistent: the joint histogram is zero and has
    a row for every bin of [_from_data] and a column for every bin of
    [_to_data] (the bin counts that [clamp] adjusted), both hold bin indices
    or -1 only, the reference volume is padded, at most [64^3] voxels of the
    moving image are kept, each with its row of coordinates, and the
    interpolation and the similarity are the defaults; in all, the object is
    consistent. *)
Theorem init_consistent (from_img to_img : image) (from_bins : Z)
  (to_bins : option Z) (n0 n1 n2 m0 m1 m2 : nat) (cr : Z) :
  Clamp.array_well_formed (get_data from_img) ->
  array_shape (get_data from_img) = [n0; n1; n2] ->
  Forall (fun n => (Z.of_nat n < 2 ^ 53 - 1)%Z) [n0; n1; n2] ->
  to_float (get_data from_img) <> [] ->
  is_integer (get_data from_img) = true \/ Clamp.varies (get_data from_img) ->
  Clamp.array_well_formed (get_data to_img) ->
  array_shape (get_data to_img) = [m0; m1; m2] ->
  to_float (get_data to_img) <> [] ->
  is_integer (get_data to_img) = true \/ Clamp.varies (get_data to_img) ->
  (1 <= from_bins <= 32767)%Z -> (1 <= default from_bins to_bins <= 32767)%Z ->
  getitem builtin_similarities "cr" = Ok cr ->
  exists (passes : nat) (r : @HistogramRegistration affine value) (rows columns : nat),
    (forall fuel, (passes <= fuel)%nat ->
       __init__ fuel from_img to_img from_bins to_bins None None = Some (Ok r)) /\
    (1 <= Z.of_nat rows <= from_bins)%Z /\
    (1 <= Z.of_nat columns <= default from_bins to_bins)%Z /\
    _joint_hist (session_of r) = replicate rows (replicate columns 0%Q) /\
    Forall (fun v => (-1 <= v < Z.of_nat rows)%Z) (flat (_from_data (session_of r))) /\
    Forall (fun v => (-1 <= v < Z.of_nat columns)%Z) (flat (_to_data (session_of r))) /\
    shape (_to_data (session_of r)) = [2 + m0; 2 + m1; 2 + m2]%nat /\
    _from_npoints r = count_nonneg (flat (_from_data (session_of r))) /\
    (_from_npoints r <= 64 ^ 3)%Z /\
    length (_vox_coords (session_of r)) = length (flat (_from_data (session_of r))) /\
    _get_interp (session_of r) = Ok "pv" /\
    _similarity r = cr /\ _similarity_func r = None /\ consistent r.
Proof.
  intros Wf Sf Nf Ef Vf Wt St Et Vt Bf Bt Hcr.
  destruct (ClampFacts.clamp_ok _ from_bins Wf Bf Ef Vf) as (y & fb & Cf).
  destruct (ClampFacts.clamp_unmasked _ _ _ _ Wf (proj1 Bf) Cf)
    as (Sy & Wy & Hfb & Ay).
  destruct (ClampFacts.clamp_ok _ (default from_bins to_bins) Wt Bt Et Vt)
    as (y' & tb & Ct).
  destruct (ClampFacts.clamp_unmasked _ _ _ _ Wt (proj1 Bt) Ct)
    as (Sy' & Wy' & Htb & Ay').
  rewrite Sf in Sy. rewrite St in Sy'.
  destruct (subsample_tuned y (image_affine from_img) n0 n1 n2 (0, 0, 0)%nat None
              _NPOINTS Sy Nf)
    as (passes & fov & Hsub & Hcount & Hle & Wfov & Hcoords & sl & Hsl);
    [unfold _NPOINTS; lia|].
  pose proof (pad_3d y' m0 m1 m2 Sy') as Hp.
  match type of Hp with _ = Ok ?a => set (p := a) in Hp end.
  assert (Sp : shape p = [2 + m0; 2 + m1; 2 + m2]%nat) by reflexivity.
  eexists passes, _, (Z.to_nat fb), (Z.to_nat tb).
  split.
  { intros fuel Hfuel. unfold Registration.__init__.
    rewrite Cf, (Hsub fuel Hfuel), Ct. cbn [mbind result_bind].
    rewrite Hp. cbn [mbind result_bind].
    rewrite zeros2_ok, !zeros_ok by lia. cbn [mbind result_bind].
    change (_set_interp ?s "pv") with (Ok (set_interp_code s 0)).
    cbn [mbind result_bind]. unfold Registration._set_similarity.
    rewrite Hcr. cbn [mbind result_bind]. reflexivity. }
  cbn [session_of _joint_hist _from_data _to_data _vox_coords _from_npoints
       _similarity _similarity_func set_interp_code].
  split; [lia|]. split; [lia|]. split; [reflexivity|].
  assert (Af : Forall (fun v => (-1 <= v < Z.of_nat (Z.to_nat fb))%Z) (flat y)).
  { eapply Forall_impl; [exact Ay|]. simpl. intros; lia. }
  assert (Ad : Forall (fun v => (-1 <= v < Z.of_nat (Z.to_nat fb))%Z) (flat (fov_data fov))).
  { eapply Forall_getitem_slices; [exact Af| |exact Hsl]. lia. }
  assert (At : Forall (fun v => (-1 <= v < Z.of_nat (Z.to_nat tb))%Z) (flat p)).
  { eapply (Forall_pad _ y' p); [| | |exact Hp]; [|lia..].
    eapply Forall_impl; [exact Ay'|]. simpl. intros; lia. }
  split; [exact Ad|]. split; [exact At|].
  split; [exact Sp|]. split; [exact Hcount|].
  split; [exact Hle|]. split; [exact Hcoords|].
  split; [reflexivity|]. split; [reflexivity|]. split; [reflexivity|].
  exists (Z.to_nat fb), (Z.to_nat tb).
  cbn [session_of _joint_hist _from_data _to_data _vox_coords _from_npoints
       Registration._from_img set_interp_code fst].
  split; [lia|]. split; [lia|].
  split; [apply zeros_like_replicate|].
  split; [eauto|]. split; [exact Af|]. split; [exact Ad|]. split; [exact At|].
  split; [exact Hcoords | exact Hcount].
Qed.

(** X15. A mask of the volume's shape on a volume of more than one plane or
    more than one row keeps the constructor from returning an object: with
    such a mask on the moving image it raises at once, with such a mask on the
    reference image it raises when that image is clamped. *)
Theorem init_mask_raises (from_img to_img : image) (from_bins : Z)
  (to_bins : option Z) (from_mask to_mask : option (ndarray bool))
  (mask : ndarray bool) (n0 n1 n2 : nat) :
  shape mask = [n0; n1; n2] -> n0 <> 1%nat \/ n1 <> 1%nat ->
  (array_shape (get_data from_img) = [n0; n1; n2] ->
   forall fuel, exists e,
     __init__ fuel from_img to_img from_bins to_bins (Some mask) to_mask
     = Some (Raise e)) /\
  (array_shape (get_data to_img) = [n0; n1; n2] ->
   forall fuel r,
     __init__ fuel from_img to_img from_bins to_bins from_mask (Some mask)
     <> Some (Ok r)).
Proof.
  intros _ H. split; intros Hs fuel.
  - destruct (ClampFacts.clamp_mask_rank (get_data from_img) from_bins mask n0 n1 n2 Hs H)
      as [e He].
    exists e. unfold Registration.__init__. rewrite He. reflexivity.
  - intros r. unfold Registration.__init__.
    destruct (Clamp.clamp (get_data from_img) from_bins from_mask) as [[data fb]|];
      [|discriminate].
    destruct (subsample fuel _ None _ None _NPOINTS) as [[fov|]|]; try discriminate.
    destruct (ClampFacts.clamp_mask_rank (get_data to_img) (default from_bins to_bins)
                mask n0 n1 n2 Hs H) as [e He].
    rewrite He. discriminate.
Qed.

(** ** The [similarity] property *)

Lemma getitem_missing (d : list (string * Z)) (key : string) :
  key ∉ keys d -> getitem d key = Raise KeyError.
Proof.
  unfold keys. induction d as [|[k v] d IH]; simpl; intros H; [reflexivity|].
  apply not_elem_of_cons in H as [H1 H2].
  destruct (String.eqb_spec k key) as [E|_]; [congruence|]. apply IH, H2.
Qed.

Lemma getitem_present (d : list (string * Z)) (key : string) :
  key ∈ keys d -> exists c, getitem d key = Ok c.
Proof.
  unfold keys. induction d as [|[k v] d IH]; simpl; intros H; [inversion H|].
  destruct (String.eqb_spec k key) as [E|N]; [eauto|].
  apply elem_of_cons in H as [H|H]; [congruence|]. apply IH, H.
Qed.

Lemma get_after_set (r : @HistogramRegistration affine value) (name : string) (c : Z)
  (f pdf : option value) :
  NoDup (values builtin_similarities) -> getitem builtin_similarities name = Ok c ->
  _get_similarity
    (Registration (session_of r) (_from_img r) (_from_npoints r) (_from_hist r)
       (_to_hist r) c f pdf) = Ok (inl name).
Proof.
  intros ND H. destruct (getitem_index _ _ _ ND H) as (i & Hi & Hk).
  unfold Registration._get_similarity. cbn [_similarity].
  rewrite bool_decide_eq_true_2 by (apply (index_elem_of _ _ i Hi)).
  rewrite Hi. cbn [mbind result_bind]. rewrite Hk. reflexivity.
Qed.

(** X16. When the codes of the table are pairwise different, a similarity that
    is set by a name of the table reads back as that name, and a name that the
    table lacks raises [KeyError]; a custom function is stored, and reads back
    as the name "custom", not as the function. *)
Theorem similarity_set_get (r : @HistogramRegistration affine value)
  (pdf : option value) :
  NoDup (values builtin_similarities) ->
  (forall name,
     (name ∈ keys builtin_similarities ->
      exists r', _set_similarity r (inl name) pdf = Ok r' /\
                 _get_similarity r' = Ok (inl name)) /\
     (name ∉ keys builtin_similarities ->
      _set_similarity r (inl name) pdf = Raise KeyError)) /\
  (forall f,
     "custom" ∈ keys builtin_similarities ->
     exists r', _set_similarity r (inr f) pdf = Ok r' /\
                _similarity_func r' = Some f /\
                _get_similarity r' = Ok (inl "custom")).
Proof.
  intros ND. split.
  - intros name. split; intros H.
    + destruct (getitem_present _ _ H) as [c Hc].
      unfold Registration._set_similarity. rewrite Hc. cbn [mbind result_bind].
      eexists. split; [reflexivity|]. apply get_after_set; assumption.
    + unfold Registration._set_similarity. rewrite (getitem_missing _ _ H). reflexivity.
  - intros f H. destruct (getitem_present _ _ H) as [c Hc].
    unfold Registration._set_similarity. rewrite Hc. cbn [mbind result_bind].
    eexists. split; [reflexivity|]. split; [reflexivity|].
    apply get_after_set; assumption.
Qed.

(** ** Targets that are not positive *)

(** X17. [subsample] tests [npoints] for truth: the target 0 switches the tuning
    off and keeps every voxel of the bounding box, and a negative target is
    handed to [ideal_spacing], whose loop then never ends with a spacing. *)
Theorem subsample_no_target (img : ndarray Z) (aff : affine) (n0 n1 n2 : nat)
  (corner : nat * nat * nat) (size : option (nat * nat * nat)) :
  shape img = [n0; n1; n2] ->
  (forall fuel,
     subsample fuel (img, aff) None corner size 0
     = subsample 0 (img, aff) (Some (1, 1, 1)%Z) corner size 0) /\
  (exists fov, subsample 0 (img, aff) None corner size 0 = Some (Ok fov)) /\
  (forall npoints fuel fov,
     (npoints < 0)%Z ->
     subsample fuel (img, aff) None corner size npoints <> Some (Ok fov)).
Proof.
  intros Hshape. unfold Registration.subsample. cbn [fst snd]. rewrite Hshape.
  destruct corner as [[c0 c1] c2].
  destruct (default (n0, n1, n2) size) as [[z0 z1] z2].
  cbn [slicer]. rewrite getitem_slices_ok by (cbn [slice_step]; lia).
  change (0 =? 0)%Z with true. cbn iota.
  split; [reflexivity|]. split.
  - cbn [mbind result_bind shape indices]. eauto.
  - intros npoints fuel fov Hn.
    destruct (Z.eqb_spec npoints 0) as [E|_]; [lia|].
    match goal with
    | |- context [ideal_spacing fuel ?d npoints] =>
        pose proof (fun sp => tune_negative fuel d npoints (1, 1, 1)%Z sp
                                (count_nonneg (flat d)) Hn (count_nonneg_nonneg _)) as T;
        fold (ideal_spacing fuel d npoints) in T;
        destruct (ideal_spacing fuel d npoints) as [[sp|e]|]
    end.
    + exfalso. apply (T sp). reflexivity.
    + cbn [mbind result_bind]. discriminate.
    + discriminate.
Qed.

End Construction.

(** ** Evaluation history and grids *)

Section Grid.
Context {affine rng : Type}.
Variable affine_apply : affine -> coords -> coords.
Variable transform_apply : list Q -> coords -> coords.
Variable weights : list Z -> ndarray Z -> coords -> Z -> list (nat * nat * Q).
Variable similarity_measure : list (list Q) -> Q.
Variable randint : Z -> rng -> Z * rng.
Implicit Types (s : @session affine) (g : rng) (Tv : @ChainTransform affine).

Abbreviation _eval :=
  (_eval affine_apply transform_apply weights similarity_measure randint).
Abbreviation eval :=
  (eval affine_apply transform_apply weights similarity_measure randint).
Abbreviation explore :=
  (explore affine_apply transform_apply weights similarity_measure randint).
Abbreviation explore_loop :=
  (explore_loop affine_apply transform_apply weights similarity_measure randint).

Lemma same_setup_refl s : same_setup s s.
Proof. repeat split. Qed.

Lemma same_setup_trans s1 s2 s3 : same_setup s1 s2 -> same_setup s2 s3 -> same_setup s1 s3.
Proof. unfold same_setup. intuition congruence. Qed.

(** One evaluation outside the random mode, from a session of the same
    setup: the score of the first session, the same generator, the same
    setup. *)
Lemma _eval_step s0 g0 s g Tv :
  (0 <= _interp s0)%Z -> same_setup s0 s ->
  exists s', _eval (s, g) Tv = (fst (_eval (s0, g0) Tv), (s', g)) /\ same_setup s0 s'.
Proof.
  intros Hi Hs.
  assert (Hi' : (0 <= _interp s)%Z) by (destruct Hs as (_ & _ & _ & _ & _ & <- & _); exact Hi).
  destruct (_eval_setup affine_apply transform_apply weights similarity_measure randint
              s0 g0 s g Tv Hi Hs) as [F _].
  pose proof (_eval_same_setup affine_apply transform_apply weights similarity_measure
                randint s g Tv) as S.
  rewrite F. rewrite (_eval_fixed affine_apply transform_apply weights similarity_measure
                        randint s g Tv Hi') in *.
  cbn [fst snd] in *. eexists. split; [reflexivity|].
  eapply same_setup_trans; [exact Hs | exact S].
Qed.

(** X18. Outside the random mode the score of a transform does not depend on
    what was evaluated before: after any sequence of evaluations the session
    has the same setup, the generator is untouched, and [eval] returns what
    it returns on the session as it was. *)
Theorem eval_history s g (Ts : list transform) (T : transform) :
  (0 <= _interp s)%Z ->
  let st' := foldl (fun st T' => snd (eval st T')) (s, g) Ts in
  same_setup s (fst st') /\ snd st' = g /\ fst (eval st' T) = fst (eval (s, g) T).
Proof.
  intros Hi.
  assert (G : forall s1, same_setup s s1 ->
            let st' := foldl (fun st T' => snd (eval st T')) (s1, g) Ts in
            same_setup s (fst st') /\ snd st' = g).
  { induction Ts as [|T1 Ts IH]; intros s1 Hs; [split; [exact Hs | reflexivity]|].
    cbn [foldl].
    destruct (_eval_step s g s1 g (Chain T1 (_from_affine s1) (_to_inv_affine s1)) Hi Hs)
      as (s2 & E & Hs2).
    change (eval (s1, g) T1)
      with (_eval (s1, g) (Chain T1 (_from_affine s1) (_to_inv_affine s1))).
    rewrite E. cbn [snd]. apply IH, Hs2. }
  intros st'. destruct (G s (same_setup_refl s)) as [Hs Hg]. fold st' in Hs, Hg.
  split; [exact Hs|]. split; [exact Hg|].
  destruct st' as [s1 g1]. cbn [fst snd] in Hs, Hg. subst g1.
  unfold Registration.eval. cbn [fst].
  destruct Hs as (H1 & H2 & H3 & H4 & H5 & H6 & H7).
  rewrite <- H2, <- H5.
  destruct (_eval_step s g s1 g (Chain T (_from_affine s) (_to_inv_affine s)) Hi)
    as (s2 & E & _); [repeat split; assumption|].
  rewrite E. reflexivity.
Qed.

(** *** The offsets *)

Lemma foldl_raise (e : exn) (args : list (Z * list Q)) :
  foldl (fun acc a => deltas ← acc; setitem deltas (fst a) (snd a))
    (Raise e : result (list (list Q))) args = Raise e.
Proof. induction args as [|a args IH]; [reflexivity | exact IH]. Qed.

Lemma setitem_ok {A} (l : list A) (i : Z) (d : A) :
  (- Z.of_nat (length l) <= i < Z.of_nat (length l))%Z ->
  exists l', setitem l i d = Ok l' /\ length l' = length l.
Proof.
  intros H. unfold setitem.
  destruct (Z.ltb_spec i (- Z.of_nat (length l))); [lia|].
  destruct (Z.leb_spec (Z.of_nat (length l)) i); [lia|].
  cbn [orb]. eexists. split; [reflexivity|]. apply length_insert.
Qed.

Lemma setitem_raise {A} (l : list A) (i : Z) (d : A) :
  ~ (- Z.of_nat (length l) <= i < Z.of_nat (length l))%Z ->
  setitem l i d = Raise IndexError.
Proof.
  intros H. unfold setitem.
  destruct (Z.ltb_spec i (- Z.of_nat (length l))); [reflexivity|].
  destruct (Z.leb_spec (Z.of_nat (length l)) i); [reflexivity|]. lia.
Qed.

Lemma foldl_setitem (acc : list (list Q)) (args : list (Z * list Q)) :
  let step := fun acc a => deltas ← acc; setitem deltas (fst a) (snd a) in
  let n := Z.of_nat (length acc) in
  (Forall (fun a => (- n <= fst a < n)%Z) args ->
   exists deltas, foldl step (Ok acc) args = Ok deltas /\ length deltas = length acc) /\
  (~ Forall (fun a => (- n <= fst a < n)%Z) args ->
   foldl step (Ok acc) args = Raise IndexError).
Proof.
  intros step n. subst n. revert acc.
  induction args as [|a args IH]; intros acc.
  - split; [intros _; exists acc; split; reflexivity|].
    intros H. exfalso. apply H. constructor.
  - cbn [foldl]. unfold step at 2 4. cbn [mbind result_bind].
    destruct (Z_le_dec (- Z.of_nat (length acc)) (fst a)) as [L|L];
      [destruct (Z_lt_dec (fst a) (Z.of_nat (length acc))) as [U|U]|].
    + destruct (setitem_ok acc (fst a) (snd a)) as (acc' & -> & Hl); [lia|].
      destruct (IH acc') as [IH1 IH2]. rewrite Hl in IH1, IH2. split.
      * intros H. apply Forall_cons in H as [_ H].
        destruct (IH1 H) as (deltas & E & Hd). exists deltas. split; assumption.
      * intros H. apply IH2. intros H'. apply H. constructor; [lia | exact H'].
    + rewrite setitem_raise by lia. split.
      * intros H. apply Forall_cons in H as [H _]. lia.
      * intros _. apply foldl_raise.
    + rewrite setitem_raise by lia. split.
      * intros H. apply Forall_cons in H as [H _]. lia.
      * intros _. apply foldl_raise.
Qed.

Lemma make_deltas_cases (n : nat) (args : list (Z * list Q)) :
  (Forall (fun a => (- Z.of_nat n <= fst a < Z.of_nat n)%Z) args ->
   exists deltas, make_deltas n args = Ok deltas /\ length deltas = n) /\
  (~ Forall (fun a => (- Z.of_nat n <= fst a < Z.of_nat n)%Z) args ->
   make_deltas n args = Raise IndexError).
Proof.
  pose proof (foldl_setitem (replicate n [0%Q]) args) as H. cbv zeta in H.
  rewrite length_replicate in H. exact H.
Qed.

(** The offsets of every parameter after the arguments are read. *)
Lemma foldl_setitem_lookup (args : list (Z * list Q)) (acc deltas : list (list Q)) :
  let step := fun acc a => deltas ← acc; setitem deltas (fst a) (snd a) in
  foldl step (Ok acc) args = Ok deltas ->
  forall k init, acc !! k = Some init ->
    deltas !! k = Some (axis_offsets (length acc) k init args).
Proof.
  intros step. revert acc.
  induction args as [|a args IH]; intros acc E k init Hk.
  - injection E as <-. exact Hk.
  - cbn [foldl] in E. unfold step at 2 in E. cbn [mbind result_bind] in E.
    destruct (setitem acc (fst a) (snd a)) as [acc'|e] eqn:Es;
      [|rewrite foldl_raise in E; discriminate].
    unfold setitem in Es.
    destruct ((fst a <? - Z.of_nat (length acc)) || (Z.of_nat (length acc) <=? fst a))%Z;
      [discriminate|].
    injection Es as <-.
    change (axis_offsets (length acc) k init (a :: args))
      with (axis_offsets (length acc) k
              (if decide (Z.to_nat (fst a mod Z.of_nat (length acc)) = k)
               then snd a else init) args).
    pose proof (lookup_lt_Some _ _ _ Hk) as Hlt.
    specialize (IH _ E k). rewrite length_insert in IH.
    destruct (decide (Z.to_nat (fst a mod Z.of_nat (length acc)) = k)) as [<-|N].
    + apply IH. apply list_lookup_insert_eq. exact Hlt.
    + apply IH. rewrite list_lookup_insert_ne by exact N. exact Hk.
Qed.

(** X19. The grid of [explore]: every parameter keeps the single offset 0
    unless an argument names its axis, from the front ([0 .. n - 1]) or from
    the back ([-n .. -1]); when several arguments name the same axis, the
    last one counts. *)
Theorem explore_offsets (n : nat) (args : list (Z * list Q)) :
  Forall (fun a => (- Z.of_nat n <= fst a < Z.of_nat n)%Z) args ->
  exists deltas,
    make_deltas n args = Ok deltas /\ length deltas = n /\
    forall k, (k < n)%nat -> deltas !! k = Some (axis_offsets n k [0%Q] args).
Proof.
  intros H. destruct (proj1 (make_deltas_cases n args) H) as (deltas & E & Hl).
  exists deltas. split; [exact E|]. split; [exact Hl|].
  intros k Hk. pose proof (foldl_setitem_lookup args (replicate n [0%Q]) deltas E k [0%Q]) as L.
  rewrite length_replicate in L. apply L.
  apply lookup_replicate. split; [reflexivity | exact Hk].
Qed.

(** *** The trials *)

Lemma length_cartesian {A} (ds : list (list A)) :
  length (cartesian ds) = foldr Nat.mul 1%nat (map length ds).
Proof.
  induction ds as [|d ds IH]; [reflexivity|]. cbn [cartesian map foldr].
  rewrite (SubsamplingFacts.length_bind_const _ d (length (cartesian ds))).
  - rewrite IH. reflexivity.
  - intros x. rewrite (SubsamplingFacts.length_bind_const _ _ 1%nat) by reflexivity. lia.
Qed.

Lemma chain_set_param_pre_post Tv Tv' (p : list Q) :
  pre Tv = pre Tv' -> post Tv = post Tv' -> chain_set_param Tv p = chain_set_param Tv' p.
Proof. unfold chain_set_param. intros -> ->. reflexivity. Qed.

(** The loop in any mode: one point for each trial, and the setup is kept. *)
Lemma explore_loop_any (trials : list (list Q)) (st : @session affine * rng) Tv
  (param0 : list Q) :
  let r := explore_loop st Tv param0 trials in
  length (fst r) = length trials /\ same_setup (fst st) (fst (snd r)).
Proof.
  revert st Tv. induction trials as [|offsets trials IH]; intros [s g] Tv.
  - split; [reflexivity | apply same_setup_refl].
  - cbn [Registration.explore_loop].
    pose proof (_eval_same_setup affine_apply transform_apply weights similarity_measure
                  randint s g (chain_set_param Tv (add_offsets param0 offsets))) as S.
    destruct (_eval (s, g) _) as [simi [s1 g1]]. cbn [fst snd] in S.
    specialize (IH (s1, g1) (chain_set_param Tv (add_offsets param0 offsets))).
    cbv zeta in IH. destruct (explore_loop (s1, g1) _ param0 trials) as [rest st2].
    cbn [fst snd] in *. destruct IH as [IH1 IH2].
    split; [cbn [length]; rewrite IH1; reflexivity
           | eapply same_setup_trans; eassumption].
Qed.

(** The loop outside the random mode: every trial gets the score that the
    first session gives to its parameters. *)
Lemma explore_loop_fixed (trials : list (list Q)) s0 g0 s Tv0 Tv (param0 : list Q) :
  (0 <= _interp s0)%Z -> same_setup s0 s ->
  pre Tv = pre Tv0 -> post Tv = post Tv0 ->
  exists s',
    explore_loop (s, g0) Tv param0 trials =
      (map (fun offsets =>
              let p := add_offsets param0 offsets in
              (fst (_eval (s0, g0) (chain_set_param Tv0 p)), p)) trials,
       (s', g0)) /\
    same_setup s0 s'.
Proof.
  intros Hi. revert s Tv. induction trials as [|offsets trials IH]; intros s Tv Hs Hpre Hpost.
  - exists s. split; [reflexivity | exact Hs].
  - cbn [Registration.explore_loop map].
    rewrite (chain_set_param_pre_post Tv Tv0 _ Hpre Hpost).
    destruct (_eval_step s0 g0 s g0 (chain_set_param Tv0 (add_offsets param0 offsets)) Hi Hs)
      as (s1 & E & Hs1).
    rewrite E.
    destruct (IH s1 (chain_set_param Tv0 (add_offsets param0 offsets)) Hs1)
      as (s2 & E2 & Hs2); [reflexivity..|].
    rewrite E2. exists s2. split; [reflexivity | exact Hs2].
Qed.

(** X20. [explore] accepts the axes from [-n] to [n - 1] for a transform of [n]
    parameters and raises [IndexError] on any other; what it returns has one
    score for each point of the grid, as many as the product of the numbers
    of offsets, and one row of as many parameter values for each parameter;
    the setup of the session is kept. *)
Theorem explore_shape (st : @session affine * rng) (T0 : transform)
  (args : list (Z * list Q)) :
  let n := length (param T0) in
  let in_range := fun a : Z * list Q => (- Z.of_nat n <= fst a < Z.of_nat n)%Z in
  (Forall in_range args ->
   exists deltas simis params st',
     make_deltas n args = Ok deltas /\ length deltas = n /\
     explore st T0 args = Ok ((simis, params), st') /\
     length simis = foldr Nat.mul 1%nat (map length deltas) /\
     length params = n /\ Forall (fun row => length row = length simis) params /\
     same_setup (fst st) (fst st')) /\
  (~ Forall in_range args -> explore st T0 args = Raise IndexError).
Proof.
  intros n in_range. destruct (make_deltas_cases n args) as [H1 H2]. split.
  - intros H. destruct (H1 H) as (deltas & E & Hl).
    unfold Registration.explore. fold n. rewrite E. cbn [mbind result_bind].
    pose proof (explore_loop_any (cartesian deltas) st
                  (Chain T0 (_from_affine (fst st)) (_to_inv_affine (fst st)))
                  (chain_param (Chain T0 (_from_affine (fst st)) (_to_inv_affine (fst st)))))
      as L.
    cbv zeta in L. destruct (explore_loop st _ _ (cartesian deltas)) as [points st'].
    cbn [fst snd] in L. destruct L as [L1 L2].
    eexists deltas, _, _, st'. split; [reflexivity|]. split; [exact Hl|].
    split; [reflexivity|].
    split; [rewrite length_map, L1; apply length_cartesian|].
    split; [rewrite length_map, length_seq; reflexivity|].
    split; [|exact L2].
    apply Forall_map, Forall_forall. intros k _. cbn. rewrite !length_map. reflexivity.
  - intros H. unfold Registration.explore. fold n. rewrite (H2 H). reflexivity.
Qed.

(** X21. Outside the random mode [explore] is [eval] on every point of the
    grid: the score of a trial is what [eval] returns, on the session as it
    was before the call, for the transform with the parameters of that trial
    (the parameters of [T0] plus the offsets of the grid point), whatever the
    trials before it; the generator is untouched. *)
Theorem explore_grid s g (T0 : transform) (args : list (Z * list Q))
  (deltas : list (list Q)) :
  (0 <= _interp s)%Z -> make_deltas (length (param T0)) args = Ok deltas ->
  exists s',
    explore (s, g) T0 args =
      Ok ((map (fun offsets => fst (eval (s, g) (Transform (add_offsets (param T0) offsets))))
             (cartesian deltas),
           map (fun k => map (fun offsets => nth k (add_offsets (param T0) offsets) 0%Q)
                           (cartesian deltas))
             (seq 0 (length (param T0)))),
          (s', g)) /\
    same_setup s s'.
Proof.
  intros Hi E. unfold Registration.explore. rewrite E. cbn [mbind result_bind fst].
  set (Tv := Chain T0 (_from_affine s) (_to_inv_affine s)).
  destruct (explore_loop_fixed (cartesian deltas) s g s Tv Tv (chain_param Tv) Hi
              (same_setup_refl s) eq_refl eq_refl) as (s' & EL & Hs).
  rewrite EL. exists s'. split; [|exact Hs].
  rewrite !map_map. cbn [fst snd]. f_equal. f_equal. f_equal.
  apply map_ext. intros k. rewrite map_map. reflexivity.
Qed.

(** In any mode [explore] keeps the setup of the session. *)
Lemma explore_same_setup (st st' : @session affine * rng) (T0 : transform)
  (args : list (Z * list Q)) (res : list Q * list (list Q)) :
  explore st T0 args = Ok (res, st') -> same_setup (fst st) (fst st').
Proof.
  unfold Registration.explore.
  destruct (make_deltas (length (param T0)) args) as [deltas|]; [|discriminate].
  cbn [mbind result_bind].
  pose proof (explore_loop_any (cartesian deltas) st
                (Chain T0 (_from_affine (fst st)) (_to_inv_affine (fst st)))
                (chain_param (Chain T0 (_from_affine (fst st)) (_to_inv_affine (fst st)))))
    as L.
  cbv zeta in L. destruct (explore_loop st _ _ (cartesian deltas)) as [points st1].
  cbn [fst snd] in L. intros [= _ <-]. apply L.
Qed.

End Grid.

(** ** What the minimiser is called with *)

Section Callback.
Context {affine rng value : Type}.
Variable affine_apply : affine -> coords -> coords.
Variable transform_apply : list Q -> coords -> coords.
Variable weights : list Z -> ndarray Z -> coords -> Z -> list (nat * nat * Q).
Variable similarity_measure : list (list Q) -> Q.
Variable randint : Z -> rng -> Z * rng.
Variables _XTOL _FTOL _GTOL _STEP : value.
Variable is_None : value -> bool.
Variable fmin :
  minimizer -> (list Q -> @session affine * rng -> Q * (@session affine * rng)) ->
  list Q -> option (@callback value) -> gmap string value ->
  @session affine * rng -> list Q * (@session affine * rng).

Abbreviation optimize :=
  (optimize affine_apply transform_apply weights similarity_measure randint
     _XTOL _FTOL _GTOL _STEP is_None fmin).
Abbreviation cost :=
  (cost affine_apply transform_apply weights similarity_measure randint).
Abbreviation default_tolerances :=
  (default_tolerances _XTOL _FTOL _GTOL _STEP).

Lemma default_tolerances_callback (f : minimizer) :
  default_tolerances f !! "callback" = None.
Proof.
  destruct f; cbn [Registration.default_tolerances];
    rewrite ?lookup_union, ?lookup_singleton_ne by discriminate; reflexivity.
Qed.

(** X22. For a method that [optimize] knows, the minimiser gets the cost
    function of the chain of [T], the parameters of [T] as the starting point,
    the caller's callback (the printing one when the caller gave none, or gave
    [None]) and keyword arguments that hold no callback and every other entry
    of the caller's; the transform that is returned has the parameters that
    the minimiser returned, and the session is the one that the minimiser
    left. *)
Theorem optimize_callback (st : @session affine * rng) (T : transform)
  (method : string) (f : minimizer) (kwargs : gmap string value) :
  (method, f) ∈ minimizers ->
  let cb := match kwargs !! "callback" with
            | Some v => if is_None v then debug_callback else user_callback v
            | None => debug_callback
            end in
  let kw := delete "callback" kwargs ∪ default_tolerances f in
  let Tv := Chain T (_from_affine (fst st)) (_to_inv_affine (fst st)) in
  let r := fmin f (cost Tv) (param T) (Some cb) kw st in
  snd (optimize st T method kwargs) = Ok (Transform (fst r), snd r) /\
  last (fst (optimize st T method kwargs)) = Some (Minimize f (param T) (Some cb) kw) /\
  kw !! "callback" = None /\
  (forall k v, k <> "callback" -> kwargs !! k = Some v -> kw !! k = Some v).
Proof.
  intros Hm cb kw Tv r. unfold Registration.optimize.
  rewrite (optimizer_known _XTOL _FTOL _GTOL _STEP method f _ Hm).
  fold kw Tv. unfold DEBUG. cbn iota.
  assert (Ecb : (if match kwargs !! "callback" with
                     | Some f0 => is_None f0
                     | None => true
                     end
                 then Some debug_callback
                 else option_map user_callback (kwargs !! "callback")) = Some cb).
  { unfold cb. destruct (kwargs !! "callback") as [v|]; [|reflexivity].
    destruct (is_None v); reflexivity. }
  rewrite Ecb. unfold chain_param. cbn [free Tv].
  fold Tv. fold r. destruct r as [tc st'].
  cbn [fst snd chain_set_param free].
  split; [reflexivity|]. split; [apply last_snoc|].
  split.
  - unfold kw. rewrite lookup_union, lookup_delete_eq, default_tolerances_callback.
    reflexivity.
  - intros k v Hk Hv. unfold kw. apply lookup_union_Some_l.
    rewrite lookup_delete_ne by congruence. exact Hv.
Qed.

End Callback.

(** ** The theorems on the volumes at hand *)

Abbreviation demo_subsample := (@subsample unit demo_subgrid).
Abbreviation demo_init :=
  (@__init__ unit Q demo_inverse demo_subgrid demo_similarities).

Lemma subsample_budget_witness :
  shape demo_moving = [2; 3; 4]%nat /\
  Forall (fun n => (Z.of_nat n < 2 ^ 53 - 1)%Z) [2; 3; 4]%nat /\ (1 <= 5)%Z /\
  exists (passes : nat) (fov : field_of_view),
    (forall fuel, (passes <= fuel)%nat ->
       demo_subsample fuel (demo_moving, tt) None (0, 1, 0)%nat (Some (2, 2, 4)%nat) 5
       = Some (Ok fov)) /\
    fov_npoints fov = Subsampling.count_nonneg (flat (fov_data fov)) /\
    (fov_npoints fov <= 5)%Z /\
    well_formed (fov_data fov) /\
    length (fov_coords fov) = length (flat (fov_data fov)).
Proof.
  assert (H1 : shape demo_moving = [2; 3; 4]%nat) by reflexivity.
  assert (H2 : Forall (fun n => (Z.of_nat n < 2 ^ 53 - 1)%Z) [2; 3; 4]%nat).
  { repeat constructor; simpl; lia. }
  assert (H3 : (1 <= 5)%Z) by lia.
  split; [exact H1|]. split; [exact H2|]. split; [exact H3|].
  exact (subsample_budget demo_subgrid demo_moving tt 2 3 4 (0, 1, 0)%nat
           (Some (2, 2, 4)%nat) 5 H1 H2 H3).
Defined.

Lemma subsample_voxels_witness :
  shape demo_moving = [2; 3; 4]%nat /\ well_formed demo_moving /\
  (1 <= 1)%Z /\ (1 <= 2)%Z /\ (1 <= 3)%Z /\
  let d0 := Subsampling.extent (Nat.min (2 + 0) 2 - Nat.min 0 2) (Z.to_nat 1) in
  let d1 := Subsampling.extent (Nat.min (3 + 1) 3 - Nat.min 1 3) (Z.to_nat 2) in
  let d2 := Subsampling.extent (Nat.min (4 + 0) 4 - Nat.min 0 4) (Z.to_nat 3) in
  exists fov : field_of_view,
    (forall fuel npoints,
       demo_subsample fuel (demo_moving, tt) (Some (1, 2, 3)%Z) (0, 1, 0)%nat None npoints
       = Some (Ok fov)) /\
    shape (fov_data fov) = [d0; d1; d2] /\
    forall i j k, (i < d0)%nat -> (j < d1)%nat -> (k < d2)%nat ->
      exists v,
        Subsampling.getitem3 (fov_data fov) i j k = Some v /\
        Subsampling.getitem3 demo_moving (0 + i * Z.to_nat 1) (1 + j * Z.to_nat 2)
          (0 + k * Z.to_nat 3) = Some v /\
        fov_coords fov !! ((i * d1 + j) * d2 + k)%nat
        = Some (inject_Z (Z.of_nat i), inject_Z (Z.of_nat j), inject_Z (Z.of_nat k)).
Proof.
  assert (H1 : shape demo_moving = [2; 3; 4]%nat) by reflexivity.
  assert (H2 : well_formed demo_moving) by reflexivity.
  assert (H3 : (1 <= 1)%Z) by lia.
  assert (H4 : (1 <= 2)%Z) by lia.
  assert (H5 : (1 <= 3)%Z) by lia.
  split; [exact H1|]. split; [exact H2|]. split; [exact H3|]. split; [exact H4|].
  split; [exact H5|].
  exact (subsample_voxels demo_subgrid demo_moving tt 2 3 4 1 2 3 0 1 0 None
           H1 H2 H3 H4 H5).
Defined.

Lemma subsample_no_target_witness :
  shape demo_moving = [2; 3; 4]%nat /\
  (forall fuel,
     demo_subsample fuel (demo_moving, tt) None (0, 0, 0)%nat None 0
     = demo_subsample 0 (demo_moving, tt) (Some (1, 1, 1)%Z) (0, 0, 0)%nat None 0) /\
  (exists fov, demo_subsample 0 (demo_moving, tt) None (0, 0, 0)%nat None 0 = Some (Ok fov)) /\
  (forall npoints fuel fov,
     (npoints < 0)%Z ->
     demo_subsample fuel (demo_moving, tt) None (0, 0, 0)%nat None npoints <> Some (Ok fov)).
Proof.
  assert (H1 : shape demo_moving = [2; 3; 4]%nat) by reflexivity.
  split; [exact H1|].
  exact (subsample_no_target demo_subgrid demo_moving tt 2 3 4 (0, 0, 0)%nat None H1).
Defined.

Lemma pad_border_witness :
  let data := NDArray [1; 1; 3]%nat [0; 255; 128]%Z in
  shape data = [1; 1; 3]%nat /\ well_formed data /\
  exists p,
    pad data = Ok p /\ shape p = [2 + 1; 2 + 1; 2 + 3]%nat /\ well_formed p /\
    forall i j k, (i < 2 + 1)%nat -> (j < 2 + 1)%nat -> (k < 2 + 3)%nat ->
      Subsampling.getitem3 p i j k =
        if interior 1 i && interior 1 j && interior 3 k
        then Subsampling.getitem3 data (i - 1) (j - 1) (k - 1)
        else Some (-1)%Z.
Proof.
  intros data.
  assert (H1 : shape data = [1; 1; 3]%nat) by reflexivity.
  assert (H2 : well_formed data) by reflexivity.
  split; [exact H1|]. split; [exact H2|].
  exact (pad_border data 1 1 3 H1 H2).
Defined.

Lemma similarity_set_get_witness :
  NoDup (values demo_similarities) /\
  forall (r : @HistogramRegistration unit Q) (pdf : option Q),
    (forall name,
       (name ∈ keys demo_similarities ->
        exists r', _set_similarity demo_similarities r (inl name) pdf = Ok r' /\
                   _get_similarity demo_similarities r' = Ok (inl name)) /\
       (name ∉ keys demo_similarities ->
        _set_similarity demo_similarities r (inl name) pdf = Raise KeyError)) /\
    (forall f,
       "custom" ∈ keys demo_similarities ->
       exists r', _set_similarity demo_similarities r (inr f) pdf = Ok r' /\
                  _similarity_func r' = Some f /\
                  _get_similarity demo_similarities r' = Ok (inl "custom")).
Proof.
  assert (H : NoDup (values demo_similarities)).
  { unfold values, demo_similarities. cbn [map snd].
    repeat constructor; rewrite ?elem_of_cons, ?elem_of_nil; intuition discriminate. }
  split; [exact H|].
  intros r pdf. exact (similarity_set_get demo_similarities r pdf H).
Defined.

Lemma init_consistent_witness :
  let from_img := Image (IntArray demo_moving) tt in
  let to_img := Image (FloatArray demo_reference) tt in
  Clamp.array_well_formed (get_data from_img) /\
  array_shape (get_data from_img) = [2; 3; 4]%nat /\
  Forall (fun n => (Z.of_nat n < 2 ^ 53 - 1)%Z) [2; 3; 4]%nat /\
  to_float (get_data from_img) <> [] /\
  (is_integer (get_data from_img) = true \/ Clamp.varies (get_data from_img)) /\
  Clamp.array_well_formed (get_data to_img) /\
  array_shape (get_data to_img) = [1; 1; 3]%nat /\
  to_float (get_data to_img) <> [] /\
  (is_integer (get_data to_img) = true \/ Clamp.varies (get_data to_img)) /\
  (1 <= 256 <= 32767)%Z /\ (1 <= default 256%Z None <= 32767)%Z /\
  getitem demo_similarities "cr" = Ok 1%Z /\
  exists (passes : nat) (r : @HistogramRegistration unit Q) (rows columns : nat),
    (forall fuel, (passes <= fuel)%nat ->
       demo_init fuel from_img to_img 256 None None None = Some (Ok r)) /\
    (1 <= Z.of_nat rows <= 256)%Z /\
    (1 <= Z.of_nat columns <= default 256%Z None)%Z /\
    _joint_hist (session_of r) = replicate rows (replicate columns 0%Q) /\
    Forall (fun v => (-1 <= v < Z.of_nat rows)%Z) (flat (_from_data (session_of r))) /\
    Forall (fun v => (-1 <= v < Z.of_nat columns)%Z) (flat (_to_data (session_of r))) /\
    shape (_to_data (session_of r)) = [2 + 1; 2 + 1; 2 + 3]%nat /\
    _from_npoints r = Subsampling.count_nonneg (flat (_from_data (session_of r))) /\
    (_from_npoints r <= 64 ^ 3)%Z /\
    length (_vox_coords (session_of r)) = length (flat (_from_data (session_of r))) /\
    _get_interp (session_of r) = Ok "pv" /\
    _similarity r = 1%Z /\ _similarity_func r = None /\ consistent r.
Proof.
  intros from_img to_img.
  assert (H1 : Clamp.array_well_formed (get_data from_img)) by reflexivity.
  assert (H2 : array_shape (get_data from_img) = [2; 3; 4]%nat) by reflexivity.
  assert (H3 : Forall (fun n => (Z.of_nat n < 2 ^ 53 - 1)%Z) [2; 3; 4]%nat).
  { repeat constructor; simpl; lia. }
  assert (H4 : to_float (get_data from_img) <> []) by (simpl; discriminate).
  assert (H5 : is_integer (get_data from_img) = true \/ Clamp.varies (get_data from_img))
    by (left; reflexivity).
  assert (H6 : Clamp.array_well_formed (get_data to_img)) by reflexivity.
  assert (H7 : array_shape (get_data to_img) = [1; 1; 3]%nat) by reflexivity.
  assert (H8 : to_float (get_data to_img) <> []) by (simpl; discriminate).
  assert (H9 : is_integer (get_data to_img) = true \/ Clamp.varies (get_data to_img)).
  { right. exists (7 # 2)%Q, (9 # 2)%Q. simpl.
    split; [left|]. split; [right; left|]. intros E. discriminate E. }
  assert (H10 : (1 <= 256 <= 32767)%Z) by lia.
  assert (H11 : (1 <= default 256%Z None <= 32767)%Z) by (simpl; lia).
  assert (H12 : getitem demo_similarities "cr" = Ok 1%Z) by reflexivity.
  split; [exact H1|]. split; [exact H2|]. split; [exact H3|]. split; [exact H4|].
  split; [exact H5|]. split; [exact H6|]. split; [exact H7|]. split; [exact H8|].
  split; [exact H9|]. split; [exact H10|]. split; [exact H11|]. split; [exact H12|].
  exact (init_consistent demo_inverse demo_subgrid demo_similarities from_img to_img
           256 None 2 3 4 1 1 3 1 H1 H2 H3 H4 H5 H6 H7 H8 H9 H10 H11 H12).
Defined.

Lemma eval_history_witness :
  let s := demo_session in
  let Ts := [Transform [1%Q]; Transform [2%Q]] in
  let T := Transform [1%Q] in
  (0 <= _interp s)%Z /\
  let st' := foldl (fun st T' => snd (demo_eval st T')) (s, 7%Z) Ts in
  same_setup s (fst st') /\ snd st' = 7%Z /\
  fst (demo_eval st' T) = fst (demo_eval (s, 7%Z) T).
Proof.
  intros s Ts T.
  assert (H : (0 <= _interp s)%Z) by (simpl; lia).
  split; [exact H|].
  exact (eval_history demo_apply demo_transform_apply demo_weights demo_similarity
           demo_randint s 7%Z Ts T H).
Defined.

Lemma explore_shape_witness :
  let st := (demo_session, 7%Z) in
  let T0 := Transform [1%Q; 2%Q] in
  let n := length (param T0) in
  let in_range := fun a : Z * list Q => (- Z.of_nat n <= fst a < Z.of_nat n)%Z in
  let args := [(0%Z, [-1; 0; 1]%Q); ((-1)%Z, [0; 5]%Q)] in
  let bad := [(2%Z, [0%Q])] in
  (Forall in_range args /\
   exists deltas simis params st',
     make_deltas n args = Ok deltas /\ length deltas = n /\
     demo_explore st T0 args = Ok ((simis, params), st') /\
     length simis = foldr Nat.mul 1%nat (map length deltas) /\
     length params = n /\ Forall (fun row => length row = length simis) params /\
     same_setup (fst st) (fst st')) /\
  (~ Forall in_range bad /\ demo_explore st T0 bad = Raise IndexError).
Proof.
  intros st T0 n in_range args bad.
  assert (H1 : Forall in_range args).
  { unfold in_range, n. repeat constructor; simpl; lia. }
  assert (H2 : ~ Forall in_range bad).
  { unfold in_range, n. intros H. apply Forall_cons in H as [H _]. simpl in H. lia. }
  split.
  - split; [exact H1|].
    exact (proj1 (explore_shape demo_apply demo_transform_apply demo_weights
                    demo_similarity demo_randint st T0 args) H1).
  - split; [exact H2|].
    exact (proj2 (explore_shape demo_apply demo_transform_apply demo_weights
                    demo_similarity demo_randint st T0 bad) H2).
Defined.

Lemma explore_grid_witness :
  let s := demo_session in
  let T0 := Transform [1%Q; 2%Q] in
  let args := [(0%Z, [-1; 0; 1]%Q); ((-1)%Z, [0; 5]%Q)] in
  let deltas := [[-1; 0; 1]%Q; [0; 5]%Q] in
  (0 <= _interp s)%Z /\ make_deltas (length (param T0)) args = Ok deltas /\
  exists s',
    demo_explore (s, 7%Z) T0 args =
      Ok ((map (fun offsets =>
                  fst (demo_eval (s, 7%Z) (Transform (add_offsets (param T0) offsets))))
             (cartesian deltas),
           map (fun k => map (fun offsets => nth k (add_offsets (param T0) offsets) 0%Q)
                           (cartesian deltas))
             (seq 0 (length (param T0)))),
          (s', 7%Z)) /\
    same_setup s s'.
Proof.
  intros s T0 args deltas.
  assert (H1 : (0 <= _interp s)%Z) by (simpl; lia).
  assert (H2 : make_deltas (length (param T0)) args = Ok deltas) by reflexivity.
  split; [exact H1|]. split; [exact H2|].
  exact (explore_grid demo_apply demo_transform_apply demo_weights demo_similarity
           demo_randint s 7%Z T0 args deltas H1 H2).
Defined.

Lemma optimize_callback_witness :
  let st := (demo_session, 7%Z) in
  let T := Transform [1%Q] in
  let kwargs : gmap string Q := {[ "xtol" := (1 # 2)%Q ]} ∪ {[ "callback" := 3%Q ]} in
  let tol := default_tolerances (1 # 1000)%Q (1 # 100)%Q (1 # 10)%Q 1%Q in
  ("powell", fmin_powell) ∈ minimizers /\
  let cb := match kwargs !! "callback" with
            | Some v => if demo_is_None v then debug_callback else user_callback v
            | None => debug_callback
            end in
  let kw := delete "callback" kwargs ∪ tol fmin_powell in
  let Tv := Chain T (_from_affine (fst st)) (_to_inv_affine (fst st)) in
  let r := demo_fmin fmin_powell
             (cost demo_apply demo_transform_apply demo_weights demo_similarity
                demo_randint Tv) (param T) (Some cb) kw st in
  snd (demo_optimize st T "powell" kwargs) = Ok (Transform (fst r), snd r) /\
  last (fst (demo_optimize st T "powell" kwargs))
    = Some (Minimize fmin_powell (param T) (Some cb) kw) /\
  kw !! "callback" = None /\
  (forall k v, k <> "callback" -> kwargs !! k = Some v -> kw !! k = Some v).
Proof.
  intros st T kwargs tol.
  assert (H : ("powell", fmin_powell) ∈ minimizers).
  { unfold minimizers. right. left. }
  split; [exact H|].
  exact (optimize_callback demo_apply demo_transform_apply demo_weights demo_similarity
           demo_randint (1 # 1000)%Q (1 # 100)%Q (1 # 10)%Q 1%Q demo_is_None demo_fmin
           st T "powell" fmin_powell kwargs H).
Defined.

Lemma init_mask_raises_witness :
  let from_img := Image (IntArray demo_moving) tt in
  let to_img := Image (FloatArray demo_reference) tt in
  let mask := NDArray [2; 3; 4]%nat (replicate 24 true) in
  shape mask = [2; 3; 4]%nat /\ (2%nat <> 1%nat \/ 3%nat <> 1%nat) /\
  array_shape (get_data from_img) = [2; 3; 4]%nat /\
  forall fuel, exists e,
    demo_init fuel from_img to_img 256 None (Some mask) None = Some (Raise e).
Proof.
  intros from_img to_img mask.
  assert (H1 : 2%nat <> 1%nat \/ 3%nat <> 1%nat) by (left; lia).
  assert (H2 : array_shape (get_data from_img) = [2; 3; 4]%nat) by reflexivity.
  assert (H0 : shape mask = [2; 3; 4]%nat) by reflexivity.
  split; [exact H0|]. split; [exact H1|]. split; [exact H2|].
  exact (proj1 (init_mask_raises demo_inverse demo_subgrid demo_similarities
                  from_img to_img 256 None None None mask 2 3 4 H0 H1) H2).
Defined.

Lemma explore_offsets_witness :
  let args := [(0%Z, [-1; 0; 1]%Q); ((-3)%Z, [2%Q]); ((-1)%Z, [0; 5]%Q)] in
  Forall (fun a => (- Z.of_nat 3 <= fst a < Z.of_nat 3)%Z) args /\
  exists deltas,
    make_deltas 3 args = Ok deltas /\ length deltas = 3%nat /\
    forall k, (k < 3)%nat -> deltas !! k = Some (axis_offsets 3 k [0%Q] args).
Proof.
  intros args.
  assert (H : Forall (fun a => (- Z.of_nat 3 <= fst a < Z.of_nat 3)%Z) args).
  { repeat constructor; simpl; lia. }
  split; [exact H|].
  exact (explore_offsets 3 args H).
Defined.

(** ** The object stays consistent *)

Section Invariant.
Context {affine rng value : Type}.
Variable subgrid_affine :
  affine -> Subsampling.slice * Subsampling.slice * Subsampling.slice -> affine.
Variable affine_apply : affine -> coords -> coords.
Variable transform_apply : list Q -> coords -> coords.
Variable weights : list Z -> ndarray Z -> coords -> Z -> list (nat * nat * Q).
Variable similarity_measure : list (list Q) -> Q.
Variable randint : Z -> rng -> Z * rng.
Implicit Types (r : @HistogramRegistration affine value) (s : @session affine).

Abbreviation subsample_self := (@subsample_self affine value subgrid_affine).
Abbreviation eval :=
  (eval affine_apply transform_apply weights similarity_measure randint).
Abbreviation explore :=
  (explore affine_apply transform_apply weights similarity_measure randint).

Lemma consistent_same_setup r s :
  same_setup (session_of r) s -> consistent r -> consistent (set_session r s).
Proof.
  intros (E1 & _ & E3 & E4 & _ & _ & E7) (rows & columns & H).
  exists rows, columns. cbn [session_of set_session Registration._from_img
                              Registration._from_npoints].
  rewrite <- E1, <- E3, <- E4, <- E7. exact H.
Qed.

(** X23. Consistency is an invariant of the object: a [subsample] that
    returns, with whatever spacing, bounding box and target, an evaluation
    and a grid exploration leave a consistent object consistent: the bins of
    the data still index the rows and the columns of the joint histogram. *)
Theorem consistent_preserved r :
  consistent r ->
  (forall fuel spacing corner size npoints r',
     subsample_self fuel r spacing corner size npoints = Some (Ok r') ->
     consistent r') /\
  (forall (g : rng) (T : transform),
     consistent (set_session r (fst (snd (eval (session_of r, g) T))))) /\
  (forall (g : rng) (T0 : transform) args res st',
     explore (session_of r, g) T0 args = Ok (res, st') ->
     consistent (set_session r (fst st'))).
Proof.
  intros C. split; [|split].
  - intros fuel spacing corner size npoints r'. unfold Registration.subsample_self.
    destruct (subsample subgrid_affine fuel (_from_img r) spacing corner size npoints)
      as [[fov|e]|] eqn:E; try discriminate.
    intros [= <-].
    destruct C as (rows & columns & R1 & R2 & Hz & (n0 & n1 & n2 & Hs) & Af & _ & At & _ & _).
    destruct (_from_img r) as [img aff] eqn:Ei. cbn [fst] in *.
    destruct (subsample_result subgrid_affine fuel img aff spacing corner size npoints
                fov n0 n1 n2 Hs E) as ((sl & Hsl) & Hc & Hl).
    exists rows, columns.
    cbn [session_of set_field_of_view _joint_hist _from_data _to_data _vox_coords
         Registration._from_img Registration._from_npoints].
    rewrite Ei. cbn [fst].
    split; [exact R1|]. split; [exact R2|]. split; [exact Hz|].
    split; [eauto|]. split; [exact Af|].
    split; [eapply SubsamplingFacts.Forall_getitem_slices; [exact Af| |exact Hsl]; lia|].
    split; [exact At|]. split; [exact Hl | exact Hc].
  - intros g T. apply consistent_same_setup; [|exact C].
    apply (_eval_same_setup affine_apply transform_apply weights similarity_measure
             randint).
  - intros g T0 args res st' E. apply consistent_same_setup; [|exact C].
    apply (explore_same_setup affine_apply transform_apply weights similarity_measure
             randint _ _ _ _ _ E).
Qed.

End Invariant.

Lemma consistent_preserved_witness :
  consistent demo_registration /\
  (forall fuel spacing corner size npoints r',
     @subsample_self unit Q demo_subgrid fuel demo_registration spacing corner size npoints
     = Some (Ok r') ->
     consistent r') /\
  (forall (g : Z) (T : transform),
     consistent (set_session demo_registration
                   (fst (snd (demo_eval (session_of demo_registration, g) T))))) /\
  (forall (g : Z) (T0 : transform) args res st',
     demo_explore (session_of demo_registration, g) T0 args = Ok (res, st') ->
     consistent (set_session demo_registration (fst st'))).
Proof.
  assert (H : consistent demo_registration).
  { exists 2%nat, 2%nat. cbn. split; [lia|]. split; [lia|]. split; [reflexivity|].
    split; [eauto|].
    split; [repeat constructor; lia|]. split; [repeat constructor; lia|].
    split; [|split; reflexivity].
    repeat constructor; lia. }
  split; [exact H|].
  exact (consistent_preserved demo_subgrid demo_apply demo_transform_apply demo_weights
           demo_similarity demo_randint demo_registration H).
Defined.

End RegistrationFacts.
